(** * Pyslvs: joint model, triangulation compiler and solver front end

    A shallow embedding of three parts of the Pyslvs kinematics library:

    - the joint model [VPoint] (expression.pyx),
    - the triangulation compiler [t_config] with its construction stack
      [EStack] (triangulation.pyx),
    - the entry points [same_points] and [set_inputs] of [SolverSystem]
      (bfgs.pyx).

    Python exceptions are values of [exn] carried by the error monad
    [result].  A [cdef] or [cpdef] function that returns a C type and
    is declared without an [except] clause cannot hand an exception to
    its caller: Cython prints it and the function returns the zero of
    its type ([unraisable]).  Python [int]s are [Z]; the joint
    indices a caller passes to [t_config] are checked against the
    range of a C [int] where the code stores them in one ([as_int]).
    Containers are taken to hold fewer than [2^31] items, so that the
    C [int]s that count and index them do not overflow, and the keys
    of the input dictionary of [SolverSystem] are taken to be pairs
    of joint indices.  [dict]s keyed by joint index are [gmap Z _];
    the insertion-ordered [dict] of driver inputs is an association
    list.  The order in which a Python [set] is listed is an
    interface ([NameOrder] for sets of link names, [IndexOrder] for
    sets of joint indices).  The C type [double] is an interface,
    [CDouble], with two instances, the real numbers (exact
    arithmetic) and IEEE binary64 (the arithmetic the library really
    runs on).  The functions of libm the code calls are a second
    interface, [Libm]. *)

From Stdlib Require Import ZArith Lia Lra Ascii.
From Stdlib Require Reals Floats.
From stdpp Require Import gmap strings list pretty.

(** ** Exceptions *)

Inductive exn :=
| IndexError
| KeyError
| TypeError
| ValueError
| OverflowError
| UndefinedBehaviour.

Inductive result (A : Type) :=
| Ok (a : A)
| Raise (e : exn).
Arguments Ok {A} a.
Arguments Raise {A} e.

#[global] Instance result_ret : MRet result := λ A a, Ok a.
#[global] Instance result_bind : MBind result :=
  λ A B f m, match m with Ok a => f a | Raise e => Raise e end.

(** [l[i]] on a Python list, negative indices counted from the end. *)
Definition getitem_list {A} (l : list A) (i : Z) : result A :=
  let n := Z.of_nat (length l) in
  let j := if (i <? 0)%Z then (i + n)%Z else i in
  if (j <? 0)%Z then Raise IndexError
  else match l !! Z.to_nat j with
       | Some a => Ok a
       | None => Raise IndexError
       end.

(** [d[k]] on a Python dict. *)
Definition getitem_dict {K} `{Countable K} {A} (d : gmap K A) (k : K) : result A :=
  match d !! k with
  | Some a => Ok a
  | None => Raise KeyError
  end.

(** What the caller of a [cdef] or [cpdef] function without [except]
    clause sees of a run [r] of its body: a Python exception is
    written to stderr and dropped, and the call returns [default], the
    zero of the return type (for a [void] function, the object as the
    body left it).  Undefined behaviour is no exception and stays. *)
Definition unraisable {A} (default : A) (r : result A) : result A :=
  match r with
  | Ok a => Ok a
  | Raise UndefinedBehaviour => Raise UndefinedBehaviour
  | Raise _ => Ok default
  end.

(** The conversion of a Python [int] to a C [int] of 32 bits. *)
Definition in_int (z : Z) : bool := (- 2 ^ 31 <=? z)%Z && (z <? 2 ^ 31)%Z.

Definition as_int (z : Z) : result Z :=
  if in_int z then Ok z else Raise OverflowError.

(** An object passed where a [str] is declared: a string, or the list
    of names [t_config] builds.  The check of the declared type raises
    TypeError for the list. *)
Inductive pyobject :=
| PyStr (s : string)
| PyList (names : list string).

Definition as_str (o : pyobject) : result string :=
  match o with
  | PyStr s => Ok s
  | PyList _ => Raise TypeError
  end.

(** The monadic left fold: a [for] loop whose body may raise. *)
Fixpoint for_each {A B} (f : B → A → result B) (l : list A) (b : B) : result B :=
  match l with
  | [] => Ok b
  | a :: l' => b' ← f b a; for_each f l' b'
  end.

(** ** The C type [double] *)

Class CDouble (D : Type) := {
  of_int : Z → D;
  dadd : D → D → D;
  dsub : D → D → D;
  dmul : D → D → D;
  ddiv : D → D → D;
  deqb : D → D → bool;
  dltb : D → D → bool;
  fmod : D → D → D
}.

Class Libm (D : Type) := {
  M_PI : D;
  cos : D → D;
  sin : D → D;
  atan2 : D → D → D;
  hypot : D → D → D
}.

Declare Scope double_scope.
Delimit Scope double_scope with dbl.
Notation "a + b" := (dadd a b) : double_scope.
Notation "a - b" := (dsub a b) : double_scope.
Notation "a * b" := (dmul a b) : double_scope.
Notation "a / b" := (ddiv a b) : double_scope.
Notation "a == b" := (deqb a b) (at level 70, no associativity) : double_scope.
Notation "a != b" := (negb (deqb a b)) (at level 70, no associativity) : double_scope.
Notation "a < b" := (dltb a b) : double_scope.
Notation "a > b" := (dltb b a) : double_scope.
Notation "0" := (of_int 0%Z) : double_scope.
Notation "90" := (of_int 90%Z) : double_scope.
Notation "180" := (of_int 180%Z) : double_scope.

(** ** The order of a Python [set]

    [tuple(s)] and [for x in s] list a set in the order of the slots
    of its hash table.  For link names that order changes with the
    hash seed of the process, and for names that fall into the same
    slot with the order in which they went in; the names alone do not
    fix it.  [common_names a b] is [tuple(set(a) & set(b))]: some
    listing, without repetition, of the names that are in both. *)
Class NameOrder := {
  common_names : list string → list string → list string;
  common_names_NoDup : ∀ a b, NoDup (common_names a b);
  common_names_spec : ∀ a b l, l ∈ common_names a b ↔ l ∈ a ∧ l ∈ b
}.

(** A listing CPython can give.  It fills the table of [x & y] while
    it walks [y], when [y] is not the larger of the two sets, and
    names that fall into the same slot stay in the order of that
    walk, which is then the order of the tuple [y] was made from. *)
Definition names_by_second : NameOrder.
Proof.
  refine {| common_names a b := remove_dups (filter (λ l, l ∈ a) b) |}.
  - intros a b. apply NoDup_remove_dups.
  - intros a b l. rewrite elem_of_remove_dups, list_elem_of_filter. tauto.
Defined.

(** For joint indices the order of the slots changes with the size
    of the table and with the indices that fell into the same slot
    before.  [set_iter s] is the listing of the set whose members
    went in in the order [s]: some rearrangement of [s]. *)
Class IndexOrder := {
  set_iter : list Z → list Z;
  set_iter_perm : ∀ s, set_iter s ≡ₚ s
}.

(** The listing CPython gives while every index is below the size of
    the table, which has eight slots at least: an index sits in the
    slot of its own number, so the listing is increasing, and that
    is the order in which [t_config] puts the joints of a link in.
    The runs on the mechanisms below, of six joints at most, are at
    this order; every statement about all mechanisms is about all
    orders. *)
Definition insertion_order : IndexOrder.
Proof. by refine {| set_iter s := s |}. Defined.

#[global] Existing Instance insertion_order.

(** ** expression.pyx: joints *)

Module VJoint.
Inductive t := R | P | RP.

#[global] Instance eq_dec : EqDecision t.
Proof. solve_decision. Defined.

Definition eqb (a b : t) : bool := bool_decide (a = b).
End VJoint.

Section Expression.
Context {D : Type} `{!CDouble D} `{!Libm D} {order : NameOrder}.

(** The remainder [a % b] of two C doubles.  The module is compiled
    without [cdivision], so Cython emits its helper
    [r = fmod(a, b); r += ((r != 0) & ((r < 0) ^ (b < 0))) * b]. *)
Definition mod_double (a b : D) : D :=
  let r := fmod a b in
  (r + of_int (Z.b2z ((r != 0) && xorb (r < 0) (b < 0))) * b)%dbl.

(** [VPoint].  [c] is the object array of two slots: [c[0]] is the
    slot anchor and [c[1]] the pin.  Slot 1 is assigned for P and RP
    joints only; for an R joint it holds [None], so every read of it
    goes through [c_get], which raises there.  The colour fields are
    display data and are left out. *)
Record VPoint := mkVPoint {
  links : list string;
  type : VJoint.t;
  angle : D;
  x : D;
  y : D;
  c : (D * D) * (D * D);
  __has_offset : bool;
  __offset : D
}.

(** [VPoint.__cinit__], after the link names are split. *)
Definition VPoint_new (links : list string) (j_type : VJoint.t) (angle x y : D) : VPoint :=
  {| links := links; type := j_type; angle := angle; x := x; y := y;
     c := ((x, y), (x, y));
     __has_offset := false; __offset := 0%dbl |}.

(** [links.replace(" ", '').split(',')] without the empty names. *)
Fixpoint split_names (s : string) (cur : string) : list string :=
  match s with
  | EmptyString => if bool_decide (cur = "") then [] else [cur]
  | String ch s' =>
      if bool_decide (ch = " "%char) then split_names s' cur
      else if bool_decide (ch = ","%char)
           then (if bool_decide (cur = "") then [] else [cur]) ++ split_names s' ""
           else split_names s' (cur +:+ String ch "")
  end.

Definition c_r_joint (links : string) (x y : D) : VPoint :=
  VPoint_new (split_names links "") VJoint.R 0%dbl x y.

Definition c_slider_joint (links : string) (type_int : VJoint.t) (angle x y : D) : VPoint :=
  VPoint_new (split_names links "") type_int angle x y.

Definition is_slider (t : VJoint.t) : bool :=
  match t with VJoint.R => false | _ => true end.

(** [self.c[i]] followed by the unpacking of the pair. *)
Definition c_get (self : VPoint) (i : Z) : result (D * D) :=
  let j := if (i <? 0)%Z then (i + 2)%Z else i in
  if (j =? 0)%Z then Ok (c self).1
  else if (j =? 1)%Z then
    (if is_slider (type self) then Ok (c self).2 else Raise TypeError)
  else Raise IndexError.

Definition move (self : VPoint) (c1 : D * D) (c2 : option (D * D)) : VPoint :=
  let c1' := if is_slider (type self) then default c1 c2 else (c self).2 in
  {| links := links self; type := type self; angle := angle self;
     x := x self; y := y self; c := (c1, c1');
     __has_offset := __has_offset self; __offset := __offset self |}.

Definition rotate (self : VPoint) (a : D) : VPoint :=
  {| links := links self; type := type self; angle := mod_double a 180%dbl;
     x := x self; y := y self; c := c self;
     __has_offset := __has_offset self; __offset := __offset self |}.

Definition set_offset (self : VPoint) (offset : D) : VPoint :=
  {| links := links self; type := type self; angle := angle self;
     x := x self; y := y self; c := c self;
     __has_offset := true; __offset := offset |}.

Definition disable_offset (self : VPoint) : VPoint :=
  {| links := links self; type := type self; angle := angle self;
     x := x self; y := y self; c := c self;
     __has_offset := false; __offset := __offset self |}.

Definition has_offset (self : VPoint) : bool := __has_offset self.
Definition offset (self : VPoint) : D := __offset self.

(** [tuple(set(self.links) & set(p.links))]. *)
Definition on_links (self p : VPoint) : list string :=
  common_names (links self) (links p).

Definition distance (self p : VPoint) : D :=
  let '(m, q) :=
    match on_links self p with
    | l0 :: _ =>
        (if VJoint.eqb (type self) VJoint.R || bool_decide (head (links self) = Some l0)
         then (c self).1 else (c self).2,
         if VJoint.eqb (type p) VJoint.R || bool_decide (head (links p) = Some l0)
         then (c p).1 else (c p).2)
    | [] => ((c self).1, (c p).1)
    end in
  hypot (q.1 - m.1)%dbl (q.2 - m.2)%dbl.

(** [true_offset] is [cpdef double] without [except] clause. *)
Definition true_offset (self : VPoint) : result D :=
  unraisable 0%dbl
    (pin ← c_get self 1;
     anchor ← c_get self 0;
     Ok (hypot (pin.1 - anchor.1)%dbl (pin.2 - anchor.2)%dbl)).



Definition is_slot_link (self : VPoint) (link_name : string) : bool :=
  match type self with
  | VJoint.R => false
  | _ => match links self with
         | l0 :: _ => bool_decide (link_name = l0)
         | [] => false
         end
  end.

Definition grounded (self : VPoint) : bool :=
  match type self with
  | VJoint.R => bool_decide ("ground" ∈ links self)
  | _ => match links self with
         | _ :: _ => is_slot_link self "ground"
         | [] => false
         end
  end.

Definition pin_grounded (self : VPoint) : bool :=
  bool_decide ("ground" ∈ drop 1 (links self)).

Definition no_link (self : VPoint) : bool :=
  match links self with [] => true | _ => false end.

End Expression.

Arguments VPoint D : clear implicits.

(** [sep.join(names)]. *)
Fixpoint join (sep : string) (names : list string) : string :=
  match names with
  | [] => ""
  | [name] => name
  | name :: names' => name +:+ sep +:+ join sep names'
  end.

(** The operators a rich comparison is called with. *)
Inductive cmp_op := Py_LT | Py_LE | Py_EQ | Py_NE | Py_GT | Py_GE.

Section Copies.
Context {D : Type} `{!CDouble D} `{!Libm D}.

(** [self.c[1]] as the object it is: [None] for an R joint. *)
Definition pin_slot (self : VPoint D) : option (D * D) :=
  if is_slider (type self) then Some (c self).2 else None.

(** [VPoint.__copy__]: a new joint from the joined link names, moved
    to the current coordinates. *)
Definition __copy__ (self : VPoint D) : VPoint D :=
  let vpoint :=
    VPoint_new (split_names (join ", " (links self)) "") (type self) (angle self)
      (x self) (y self) in
  move vpoint (c self).1 (pin_slot self).

(** The comparison of two coordinate tuples, and of two slots of the
    object arrays [c].  Python takes two items that are the same
    object as equal before it compares them; the model has no
    identity of objects and compares the doubles, which is the same
    answer whenever no item is a NaN. *)
Definition tuple_eqb (a b : D * D) : bool := (a.1 == b.1)%dbl && (a.2 == b.2)%dbl.

Definition slot_eqb (a b : option (D * D)) : bool :=
  match a, b with
  | Some p, Some q => tuple_eqb p q
  | None, None => true
  | _, _ => false
  end.

(** Every double of the joint that a comparison reads compares equal
    to itself: none of them is a NaN. *)
Definition self_equal (v : VPoint D) : bool :=
  (x v == x v)%dbl && (y v == y v)%dbl && (angle v == angle v)%dbl
  && tuple_eqb (c v).1 (c v).1
  && (if is_slider (type v) then tuple_eqb (c v).2 (c v).2 else true).

(** [VPoint.__richcmp__]; [self.c == other.c] compares the two arrays
    slot by slot, and [.all()], [.any()] fold the two answers. *)
Definition __richcmp__ (self other : VPoint D) (op : cmp_op) : result bool :=
  match op with
  | Py_EQ =>
      Ok (bool_decide (links self = links other)
          && forallb id [slot_eqb (Some (c self).1) (Some (c other).1);
                         slot_eqb (pin_slot self) (pin_slot other)]
          && VJoint.eqb (type self) (type other)
          && (x self == x other)%dbl
          && (y self == y other)%dbl
          && (angle self == angle other)%dbl)
  | Py_NE =>
      Ok (bool_decide (links self ≠ links other)
          || existsb id [negb (slot_eqb (Some (c self).1) (Some (c other).1));
                         negb (slot_eqb (pin_slot self) (pin_slot other))]
          || negb (VJoint.eqb (type self) (type other))
          || (x self != x other)%dbl
          || (y self != y other)%dbl
          || (angle self != angle other)%dbl)
  | _ => Raise TypeError
  end.

End Copies.

(** ** triangulation.pyx: construction records *)

(** Modelled from the spec: triangulation.pxd, which declares the enums
    of symbol labels and of construction tags, the pair type [sym] and
    the struct [Expr], is not among the sources.  The spec gives four
    symbol namespaces (P, L, A, S) and five tags; the fields of [Expr]
    are the ones the methods of [EStack] assign. *)
Inductive Label := P_LABEL | L_LABEL | A_LABEL | S_LABEL.

Inductive Func := PLA | PLAP | PLLP | PLPP | PXY.

#[global] Instance Label_eq_dec : EqDecision Label.
Proof. solve_decision. Defined.

#[global] Instance Func_eq_dec : EqDecision Func.
Proof. solve_decision. Defined.

Definition sym : Type := Label * Z.

Record Expr := mkExpr {
  func : Func;
  c1 : sym;
  v1 : sym;
  v2 : sym;
  c2 : sym;
  c3 : sym;
  c4 : sym;
  op : bool
}.

#[global] Instance Expr_eq_dec : EqDecision Expr.
Proof. solve_decision. Defined.

(** A field of the C struct that an [add_*] method does not assign is
    indeterminate.  No function below reads such a field; the model
    fills it with this value. *)
Definition unassigned : sym := (P_LABEL, 0%Z).

Definition symbol_str (p : sym) : string :=
  match p.1 with
  | P_LABEL => "P" +:+ pretty p.2
  | L_LABEL => "L" +:+ pretty p.2
  | A_LABEL => "a" +:+ pretty p.2
  | S_LABEL => "S" +:+ pretty p.2
  end.

(** [EStack] holds the vector [stack]; [push_back] appends. *)
Abbreviation EStack := (list Expr).

Definition add_pla (self : EStack) (c1 v1 v2 target : sym) : EStack :=
  self ++ [{| func := PLA; c1 := c1; v1 := v1; v2 := v2; c2 := target;
              c3 := unassigned; c4 := unassigned; op := false |}].

Definition add_plap (self : EStack) (c1 v1 v2 c2 target : sym) : EStack :=
  self ++ [{| func := PLAP; c1 := c1; v1 := v1; v2 := v2; c2 := c2;
              c3 := target; c4 := unassigned; op := false |}].

Definition add_pllp (self : EStack) (c1 v1 v2 c2 target : sym) : EStack :=
  self ++ [{| func := PLLP; c1 := c1; v1 := v1; v2 := v2; c2 := c2;
              c3 := target; c4 := unassigned; op := false |}].

Definition add_plpp (self : EStack) (c1 v1 c2 c3 target : sym) (op : bool) : EStack :=
  self ++ [{| func := PLPP; c1 := c1; v1 := v1; v2 := unassigned; c2 := c2;
              c3 := c3; c4 := target; op := op |}].

Definition add_pxy (self : EStack) (c1 v1 v2 target : sym) : EStack :=
  self ++ [{| func := PXY; c1 := c1; v1 := v1; v2 := v2; c2 := target;
              c3 := unassigned; c4 := unassigned; op := false |}].

(** A rendered tuple is the list of its strings, the tag first. *)
Definition as_list (self : EStack) : list (list string) :=
  foldl (λ stack expr,
    match func expr with
    | PLA =>
        stack ++ [["PLAP"; symbol_str (c1 expr); symbol_str (v1 expr);
                   symbol_str (v2 expr); symbol_str (c2 expr)]]
    | PLAP =>
        stack ++ [["PLAP"; symbol_str (c1 expr); symbol_str (v1 expr);
                   symbol_str (v2 expr); symbol_str (c2 expr); symbol_str (c3 expr)]]
    | PLLP =>
        stack ++ [["PLLP"; symbol_str (c1 expr); symbol_str (v1 expr);
                   symbol_str (v2 expr); symbol_str (c2 expr); symbol_str (c3 expr)]]
    | PLPP =>
        stack ++ [["PLPP"; symbol_str (c1 expr); symbol_str (v1 expr);
                   symbol_str (c2 expr); symbol_str (c3 expr); symbol_str (c4 expr)]]
    | PXY =>
        stack ++ [["PXY"; symbol_str (c1 expr); symbol_str (v1 expr);
                   symbol_str (v2 expr); symbol_str (c2 expr)]]
    end) [] self.

(** The symbol a construction defines, and the symbols it reads. *)
Definition target (e : Expr) : sym :=
  match func e with
  | PLA | PXY => c2 e
  | PLAP | PLLP => c3 e
  | PLPP => c4 e
  end.

Definition operands (e : Expr) : list sym :=
  match func e with
  | PLA | PXY => [c1 e]
  | PLAP | PLLP => [c1 e; c2 e]
  | PLPP => [c1 e; c2 e; c3 e]
  end.

(** ** triangulation.pyx: the compiler *)

(** [VLink.FRAME]. *)
Definition FRAME : string := "ground".

(** [s.add(n)] on a Python [set] of joint indices, kept as the list
    of its members in the order in which they went in; [set_iter]
    lists it. *)
Definition set_add (n : Z) (s : list Z) : list Z :=
  if bool_decide (n ∈ s) then s else s ++ [n].

(** [_is_all_lock] is [cdef inline bint] without [except] clause and
    takes the keys into [cdef int node]: the OverflowError of a key
    out of range is dropped and the answer is False, as it is for an
    entry that is not solved. *)
Definition _is_all_lock (status : gmap Z bool) : bool :=
  bool_decide (map_Forall (λ node n_status, in_int node && n_status = true) status).

Fixpoint _get_input_base (node : Z) (inputs : list (Z * Z)) : Z :=
  match inputs with
  | [] => (-1)%Z
  | (base, node_) :: inputs' =>
      if bool_decide (node = node_) then base else _get_input_base node inputs'
  end.

(** The local variables of [t_config] that its loops update. *)
Record Sweep := mkSweep {
  status : gmap Z bool;
  exprs : EStack;
  link_symbol : Z;
  angle_symbol : Z;
  node : Z;
  skip_times : Z
}.

Inductive flow :=
| Continue (st : Sweep)
| Break (st : Sweep).

Definition skip (st : Sweep) : Sweep :=
  {| status := status st; exprs := exprs st; link_symbol := link_symbol st;
     angle_symbol := angle_symbol st; node := node st;
     skip_times := (skip_times st + 1)%Z |}.

Definition next_node (st : Sweep) : Sweep :=
  {| status := status st; exprs := exprs st; link_symbol := link_symbol st;
     angle_symbol := angle_symbol st; node := (node st + 1)%Z;
     skip_times := skip_times st |}.

Definition first_node (st : Sweep) : Sweep :=
  {| status := status st; exprs := exprs st; link_symbol := link_symbol st;
     angle_symbol := angle_symbol st; node := 0%Z;
     skip_times := skip_times st |}.

Definition reset_skip (st : Sweep) : Sweep :=
  {| status := status st; exprs := exprs st; link_symbol := link_symbol st;
     angle_symbol := angle_symbol st; node := node st;
     skip_times := 0%Z |}.

(** [exprs.add_pla(P base, L link_symbol, a angle_symbol, P node);
    status[node] = True; link_symbol += 1; angle_symbol += 1]. *)
Definition emit_pla (st : Sweep) (base n : Z) : Sweep :=
  {| status := <[n := true]> (status st);
     exprs := add_pla (exprs st) (P_LABEL, base) (L_LABEL, link_symbol st)
                (A_LABEL, angle_symbol st) (P_LABEL, n);
     link_symbol := (link_symbol st + 1)%Z;
     angle_symbol := (angle_symbol st + 1)%Z;
     node := node st; skip_times := skip_times st |}.

(** [exprs.add_pllp(P fa, L link_symbol, L link_symbol + 1, P fb, t);
    link_symbol += 2], the status left as it is. *)
Definition emit_pllp (st : Sweep) (fa fb : Z) (t : sym) : Sweep :=
  {| status := status st;
     exprs := add_pllp (exprs st) (P_LABEL, fa) (L_LABEL, link_symbol st)
                (L_LABEL, (link_symbol st + 1)%Z) (P_LABEL, fb) t;
     link_symbol := (link_symbol st + 2)%Z;
     angle_symbol := angle_symbol st;
     node := node st; skip_times := skip_times st |}.

(** [exprs.add_pxy(P fa, L link_symbol, L link_symbol + 1, P n);
    status[n] = True; link_symbol += 2]. *)
Definition emit_pxy (st : Sweep) (fa n : Z) : Sweep :=
  {| status := <[n := true]> (status st);
     exprs := add_pxy (exprs st) (P_LABEL, fa) (L_LABEL, link_symbol st)
                (L_LABEL, (link_symbol st + 1)%Z) (P_LABEL, n);
     link_symbol := (link_symbol st + 2)%Z;
     angle_symbol := angle_symbol st;
     node := node st; skip_times := skip_times st |}.

Definition mark (st : Sweep) (n : Z) : Sweep :=
  {| status := <[n := true]> (status st); exprs := exprs st;
     link_symbol := link_symbol st; angle_symbol := angle_symbol st;
     node := node st; skip_times := skip_times st |}.

(** [l[i] = v] on a Python list. *)
Definition setitem_list {A} (l : list A) (i : Z) (v : A) : result (list A) :=
  let n := Z.of_nat (length l) in
  let j := if (i <? 0)%Z then (i + n)%Z else i in
  if (j <? 0)%Z || (n <=? j)%Z then Raise IndexError
  else Ok (<[Z.to_nat j := v]> l).

Definition enumerate {A} (l : list A) : list (Z * A) :=
  imap (λ i a, (Z.of_nat i, a)) l.

(** What [t_config] has computed when its main loop starts; [Early] is
    one of the two returns before any of it. *)
Inductive prepared (D : Type) :=
| Early (status : gmap Z bool)
| Ready (vpoints : list (VPoint D)) (vlinks : gmap string (list Z))
        (pos : list (D * D)) (inputs : list (Z * Z)) (st : Sweep).
Arguments Early {D} status.
Arguments Ready {D} vpoints vlinks pos inputs st.

Section Triangulation.
Context {D : Type} `{!CDouble D} `{!Libm D} {index_order : IndexOrder}.

Definition _clockwise (c1 c2 c3 : D * D) : bool :=
  let val := ((c2.2 - c1.2) * (c3.1 - c2.1) - (c2.1 - c1.1) * (c3.2 - c2.2))%dbl in
  (val == 0)%dbl || (val > 0)%dbl.

(** The three generators, as the list of what they yield.  A
    [raise StopIteration] inside one ends it. *)
Definition _get_reliable_friend (node : Z) (vpoints : list (VPoint D))
    (vlinks : gmap string (list Z)) (status : gmap Z bool) : result (list Z) :=
  vpoint ← getitem_list vpoints node;
  for_each (λ (yielded : list Z) (link : string),
      members ← getitem_dict vlinks link;
      if (length members <? 2)%nat then Ok yielded
      else
        for_each (λ (yielded : list Z) (friend : Z),
            b ← getitem_dict status friend;
            Ok (if b && negb (bool_decide (friend = node))
                then yielded ++ [friend] else yielded))
          (set_iter members) yielded)
    (links vpoint) [].

Definition _get_not_base_friend (node : Z) (vpoints : list (VPoint D))
    (vlinks : gmap string (list Z)) (status : gmap Z bool) : result (list Z) :=
  vpoint ← getitem_list vpoints node;
  if (length (links vpoint) <? 2)%nat then Ok []
  else
    link ← getitem_list (links vpoint) 1;
    members ← getitem_dict vlinks link;
    for_each (λ (yielded : list Z) (friend : Z),
        b ← getitem_dict status friend;
        Ok (if (b : bool) then yielded ++ [friend] else yielded))
      (set_iter members) [].

Definition _get_base_friend (node : Z) (vpoints : list (VPoint D))
    (vlinks : gmap string (list Z)) (status : gmap Z bool) : result (list Z) :=
  vpoint ← getitem_list vpoints node;
  if (length (links vpoint) <? 1)%nat then Ok []
  else
    link ← getitem_list (links vpoint) 0;
    members ← getitem_dict vlinks link;
    Ok (set_iter members).

(** *** Preprocessing *)

(** The body of [for link in vpoint.links]. *)
Definition scan_link (node : Z) (vpoint : VPoint D)
    (acc : gmap Z bool * gmap string (list Z)) (link : string)
    : gmap Z bool * gmap string (list Z) :=
  (if bool_decide (link = FRAME) && VJoint.eqb (type vpoint) VJoint.R
   then <[node := true]> acc.1 else acc.1,
   match acc.2 !! link with
   | None => <[link := [node]]> acc.2
   | Some members => <[link := set_add node members]> acc.2
   end).

(** The body of [for node, vpoint in enumerate(vpoints)]. *)
Definition scan_joint (acc : gmap Z bool * gmap string (list Z))
    (item : Z * VPoint D) : gmap Z bool * gmap string (list Z) :=
  let status := <[item.1 := false]> acc.1 in
  match links item.2 with
  | [] => (<[item.1 := true]> status, acc.2)
  | _ => foldl (scan_link item.1 item.2) (status, acc.2) (links item.2)
  end.

Definition scan (vpoints : list (VPoint D)) (status : gmap Z bool)
    : gmap Z bool * gmap string (list Z) :=
  foldl scan_joint (status, ∅) (enumerate vpoints).

(** The body of [for node in vlinks[link]] of the promotion of the
    friends of a grounded P joint to RP joints.  The first argument
    of [c_slider_joint] is declared [str] in expression.pyx, as is
    that of [__cinit__], which [c_slider_joint] hands it to; the
    call here passes a list. *)
Definition promote_friend (base : Z) (vpoint : VPoint D)
    (vpoints : list (VPoint D)) (node : Z) : result (list (VPoint D)) :=
  vpoint_ ← getitem_list vpoints node;
  if bool_decide (node = base) || negb (VJoint.eqb (type vpoint_) VJoint.R)
  then Ok vpoints
  else
    slot ← getitem_list (links vpoint) 0;
    links_ ← as_str (PyList (slot :: filter (λ link_, link_ ∉ links vpoint)
                                       (links vpoint_)));
    setitem_list vpoints node
      (c_slider_joint links_ VJoint.RP (angle vpoint) (x vpoint_) (y vpoint_)).

Definition promote_base (vlinks : gmap string (list Z))
    (vpoints : list (VPoint D)) (base : Z) : result (list (VPoint D)) :=
  vpoint ← getitem_list vpoints base;
  if negb (VJoint.eqb (type vpoint) VJoint.P) || negb (grounded vpoint)
  then Ok vpoints
  else
    for_each (λ vpoints link,
        members ← getitem_dict vlinks link;
        for_each (promote_friend base vpoint) (set_iter members) vpoints)
      (drop 1 (links vpoint)) vpoints.

Definition promote (vlinks : gmap string (list Z)) (vpoints : list (VPoint D))
    : result (list (VPoint D)) :=
  for_each (promote_base vlinks) (seqZ 0 (Z.of_nat (length vpoints))) vpoints.

Definition positions (vpoints : list (VPoint D)) : list (D * D) :=
  (λ vpoint, if VJoint.eqb (type vpoint) VJoint.R then (c vpoint).1 else (c vpoint).2)
    <$> vpoints.

(** The body of [for base, node in inputs]; [base] and [node] are
    declared [cdef int]. *)
Definition drive (st : Sweep) (input : Z * Z) : result Sweep :=
  base ← as_int input.1;
  node_ ← as_int input.2;
  b ← getitem_dict (status st) base;
  Ok (if (b : bool) then emit_pla st base node_ else st).

(** *** The main loop *)

Section Loop.
Variables (vpoints : list (VPoint D)) (vlinks : gmap string (list Z))
          (pos : list (D * D)) (inputs : list (Z * Z)) (around : Z).

Definition visit_R (st : Sweep) : result Sweep :=
  if bool_decide (node st ∈ inputs.*2) then
    let base := _get_input_base (node st) inputs in
    b ← getitem_dict (status st) base;
    Ok (if (b : bool) then emit_pla st base (node st) else skip st)
  else
    fi ← _get_reliable_friend (node st) vpoints vlinks (status st);
    match fi with
    | fa :: fb :: _ =>
        pa ← getitem_list pos fa;
        pn ← getitem_list pos (node st);
        pb ← getitem_list pos fb;
        let ab := if _clockwise pa pn pb then (fa, fb) else (fb, fa) in
        Ok (reset_skip (mark (emit_pllp st ab.1 ab.2 (P_LABEL, node st)) (node st)))
    | _ => Ok (skip st)
    end.

(** The body of [for fb in vlinks[link]] after a P joint is placed. *)
Definition pxy_friend (n : Z) (st : Sweep) (fb : Z) : result Sweep :=
  b ← getitem_dict (status st) fb;
  Ok (if (b : bool) then st else emit_pxy st n fb).

Definition visit_P (st : Sweep) (vpoint : VPoint D) : result Sweep :=
  if pin_grounded vpoint || negb (grounded vpoint) || has_offset vpoint
  then Ok (skip st)
  else
    fi ← _get_not_base_friend (node st) vpoints vlinks (status st);
    match fi with
    | [] => Ok (skip st)
    | fa :: _ =>
        st' ← for_each (λ st' link,
                  members ← getitem_dict vlinks link;
                  for_each (pxy_friend (node st)) (set_iter members) st')
                (drop 1 (links vpoint)) (emit_pxy st fa (node st));
        Ok (reset_skip st')
    end.

Definition visit_RP (st : Sweep) (vpoint : VPoint D) : result Sweep :=
  let fc := node st in
  tmp ← getitem_list pos (node st);
  let angle_ := (angle vpoint / 180 * M_PI)%dbl in
  let tmp_x := (tmp.1 + cos angle_)%dbl in
  let tmp_y := (tmp.2 + sin angle_)%dbl in
  if pin_grounded vpoint || negb (grounded vpoint) || has_offset vpoint
  then Ok (skip st)
  else
    nb ← _get_not_base_friend (node st) vpoints vlinks (status st);
    match nb with
    | [] => Ok (skip st)
    | fa :: _ =>
        fi ← _get_base_friend (node st) vpoints vlinks (status st);
        match fi with
        | [] => Ok (skip st)
        | fb :: fi' =>
            (* Slot is not grounded: never taken, [grounded] held above. *)
            r ← (if negb (grounded vpoint) then
                   match fi' with
                   | [] => Ok None
                   | fd :: _ =>
                       pb ← getitem_list pos fb;
                       pd ← getitem_list pos fd;
                       let bd :=
                         if _clockwise pb (tmp_x, tmp_y) pd then (fb, fd) else (fd, fb) in
                       Ok (Some (emit_pllp st bd.1 bd.2 (P_LABEL, node st), bd.1))
                   end
                 else Ok (Some (st, fb)));
            match r with
            | None => Ok (skip st)
            | Some (st', fb) =>
                pb ← getitem_list pos fb;
                pc ← getitem_list pos fc;
                let bc :=
                  if _clockwise pb (tmp_x, tmp_y) pc then (fb, fc) else (fc, fb) in
                pa ← getitem_list pos fa;
                pn ← getitem_list pos (node st);
                Ok {| status := <[node st := true]> (status st');
                      exprs :=
                        add_plpp
                          (add_pllp (exprs st') (P_LABEL, bc.1)
                             (L_LABEL, link_symbol st')
                             (L_LABEL, (link_symbol st' + 1)%Z)
                             (P_LABEL, bc.2) (S_LABEL, node st))
                          (P_LABEL, fa) (L_LABEL, (link_symbol st' + 2)%Z)
                          (P_LABEL, node st) (S_LABEL, node st) (P_LABEL, node st)
                          (xorb (pa.1 - pn.1 > 0)%dbl (angle vpoint > 90)%dbl);
                      link_symbol := (link_symbol st' + 3)%Z;
                      angle_symbol := angle_symbol st';
                      node := node st';
                      skip_times := 0%Z |}
            end
        end
    end.

(** One turn of [while not _is_all_lock(status)], the test apart. *)
Definition sweep_step (st : Sweep) : result flow :=
  if bool_decide (status st !! node st = None) then Ok (Continue (first_node st))
  else if bool_decide (around ≤ skip_times st)%Z then Ok (Break st)
  else
    b ← getitem_dict (status st) (node st);
    if (b : bool) then Ok (Continue (skip (next_node st)))
    else
      vpoint ← getitem_list vpoints (node st);
      st' ← match type vpoint with
            | VJoint.R => visit_R st
            | VJoint.P => visit_P st vpoint
            | VJoint.RP => visit_RP st vpoint
            end;
      Ok (Continue (next_node st')).

(** The loop, at most [fuel] turns of it; [None] when they do not
    suffice. *)
Fixpoint sweep (fuel : nat) (st : Sweep) : option (result Sweep) :=
  match fuel with
  | O => None
  | S fuel' =>
      if _is_all_lock (status st) then Some (Ok st)
      else match sweep_step st with
           | Raise e => Some (Raise e)
           | Ok (Break st') => Some (Ok st')
           | Ok (Continue st') => sweep fuel' st'
           end
  end.

(** The number of joints still to solve, and a number of turns
    that suffices from [st]. *)
Definition unsolved (status : gmap Z bool) : nat :=
  size (filter (λ kv, kv.2 = false) status).

Definition sweep_bound (st : Sweep) : nat :=
  unsolved (status st) * (2 * Z.to_nat around + 2)
  + 2 * Z.to_nat (around - skip_times st)
  + (if bool_decide (status st !! node st = None) then 1 else 0) + 1.

End Loop.

(** *** [t_config] *)

Definition prepare (vpoints_ : list (VPoint D)) (inputs : option (list (Z * Z)))
    (status : option (gmap Z bool)) : result (prepared D) :=
  let inputs := default [] inputs in
  let status := default ∅ status in
  match vpoints_, inputs with
  | [], _ => Ok (Early status)
  | _, [] => Ok (Early status)
  | _, _ =>
      let vpoints := vpoints_ in
      let '(status, vlinks) := scan vpoints status in
      vpoints ← promote vlinks vpoints;
      let pos := positions vpoints in
      st ← for_each drive inputs
             {| status := status; exprs := []; link_symbol := 0; angle_symbol := 0;
                node := 0; skip_times := 0 |};
      Ok (Ready vpoints vlinks pos inputs st)
  end.

(** [t_config] with a bound on the turns of its main loop.  The
    result is the stack with the dictionary [status] as the call
    leaves it. *)
Definition t_config_fuel (fuel : nat) (vpoints_ : list (VPoint D))
    (inputs : option (list (Z * Z))) (status_ : option (gmap Z bool))
    : option (result (EStack * gmap Z bool)) :=
  match prepare vpoints_ inputs status_ with
  | Raise e => Some (Raise e)
  | Ok (Early status0) => Some (Ok ([], status0))
  | Ok (Ready vpoints vlinks pos inputs st) =>
      match sweep vpoints vlinks pos inputs (Z.of_nat (size (status st))) fuel st with
      | None => None
      | Some (Raise e) => Some (Raise e)
      | Some (Ok st') => Some (Ok (exprs st', status st'))
      end
  end.

(** The turns [t_config] is given. *)
Definition t_config_bound (vpoints_ : list (VPoint D))
    (inputs : option (list (Z * Z))) (status_ : option (gmap Z bool)) : nat :=
  match prepare vpoints_ inputs status_ with
  | Ok (Ready vpoints vlinks pos inputs st) =>
      sweep_bound (Z.of_nat (size (status st))) st
  | _ => 0
  end.

Definition t_config (vpoints_ : list (VPoint D))
    (inputs : option (list (Z * Z))) (status_ : option (gmap Z bool))
    : option (result (EStack * gmap Z bool)) :=
  t_config_fuel (t_config_bound vpoints_ inputs status_) vpoints_ inputs status_.

End Triangulation.

(** ** bfgs.pyx: the entry points of [SolverSystem] that edit or compare *)

Module SolverSystem.

(** A Python [dict] in the order of first insertion. *)
Abbreviation odict K V := (list (K * V)).

Section Solver.
Context {D : Type} `{!CDouble D} `{!Libm D} {index_order : IndexOrder}.

Definition _radians (degree : D) : D := (degree / 180 * M_PI)%dbl.

(** [d[k] = v]: an old key keeps its place, a new one goes last. *)
Fixpoint dict_set {K} `{EqDecision K} {V} (k : K) (v : V) (d : odict K V) : odict K V :=
  match d with
  | [] => [(k, v)]
  | (k', v') :: d' =>
      if bool_decide (k = k') then (k, v) :: d' else (k', v') :: dict_set k v d'
  end.

(** [d.update(other)]. *)
Definition dict_update {K} `{EqDecision K} {V} (d other : odict K V) : odict K V :=
  foldl (λ d kv, dict_set kv.1 kv.2 d) d other.

(** The fields the two entry points read or write.  [inputs_angle]
    is the list of radian values the driver constraints point into;
    the parameter pools and the constraint list, which neither entry
    point touches, are left out. *)
Record t := mk {
  vpoints : list (VPoint D);
  inputs : option (odict (Z * Z) D);
  inputs_angle : list D
}.

(** The last loop of [build_expression]: one radian value for every
    input pair [(b, d)] with [b != d], in the order of the dict. *)
Definition angle_constraints (inputs : odict (Z * Z) D) : list D :=
  foldl (λ inputs_angle item,
      if (item.1.1 =? item.1.2)%Z then inputs_angle
      else inputs_angle ++ [_radians item.2])
    [] inputs.

(** [__cinit__]: a missing [inputs] becomes the empty dict. *)
Definition __cinit__ (vpoints_ : list (VPoint D)) (inputs : option (odict (Z * Z) D)) : t :=
  {| vpoints := vpoints_;
     inputs := Some (default [] inputs);
     inputs_angle := angle_constraints (default [] inputs) |}.

Fixpoint same_points_from (self : t) (i : Z) (vpoints_ : list (VPoint D)) : result bool :=
  match vpoints_ with
  | [] => Ok true
  | p1 :: rest =>
      p2 ← getitem_list (vpoints self) i;
      if bool_decide (links p1 ≠ links p2) then Ok false
      else same_points_from self (i + 1)%Z rest
  end.

(** [same_points] is [cpdef bint] without [except] clause: the
    IndexError of [self.vpoints[i]] is dropped and the call returns
    False. *)
Definition same_points (self : t) (vpoints_ : list (VPoint D)) : result bool :=
  unraisable false (same_points_from self 0%Z vpoints_).

Definition show_inputs (self : t) : list (Z * Z) :=
  (default [] (inputs self)).*1.

(** The loop of [set_inputs] that walks the iterator [it] over
    [inputs_angle]; stepping past the end of the list is undefined
    in C++. *)
Fixpoint write_angles (items : odict (Z * Z) D) (it : nat) (angles : list D)
    : result (list D) :=
  match items with
  | [] => Ok angles
  | item :: items' =>
      if (item.1.1 =? item.1.2)%Z then write_angles items' it angles
      else if (it <? length angles)%nat
           then write_angles items' (S it) (<[it := _radians item.2]> angles)
           else Raise UndefinedBehaviour
  end.

(** The body of [set_inputs]. *)
Definition set_inputs_body (self : t) (inputs_ : option (odict (Z * Z) D)) : result t :=
  match inputs self, inputs_ with
  | None, _ | _, None => Raise ValueError
  | Some mine, Some new =>
      if negb (bool_decide (Forall (λ k, k ∈ show_inputs self) new.*1))
      then Raise ValueError
      else
        let mine' := dict_update mine new in
        angles ← write_angles mine' 0 (inputs_angle self);
        Ok {| vpoints := vpoints self; inputs := Some mine'; inputs_angle := angles |}
  end.

(** [set_inputs] is [cpdef void] without [except] clause ([move] of
    [VPoint] has one).  Both [raise] statements come before the first
    write, so a call whose ValueError is dropped leaves the system as
    it was. *)
Definition set_inputs (self : t) (inputs_ : option (odict (Z * Z) D)) : result t :=
  unraisable self (set_inputs_body self inputs_).

End Solver.
Arguments t D : clear implicits.
End SolverSystem.

(** ** The two models of [double] *)

(** Exact arithmetic: a [double] is a real number, no rounding, no
    NaN, no infinity. *)
Module Exact.
Import Reals.
#[local] Open Scope R_scope.

Definition Reqb (a b : R) : bool := if Req_dec_T a b then true else false.
Definition Rltb (a b : R) : bool := if Rlt_dec a b then true else false.

(** The integer part of [r], rounded towards zero. *)
Definition Rtrunc (r : R) : Z :=
  if Rle_dec 0 r then Int_part r else (- Int_part (- r))%Z.

(** C's [fmod], for a divisor that is not zero. *)
Definition Rfmod (a b : R) : R := a - b * IZR (Rtrunc (a / b)).

(** C's [atan2]. *)
Definition Ratan2 (b a : R) : R :=
  if Rlt_dec 0 a then atan (b / a)
  else if Rlt_dec a 0 then
         (if Rle_dec 0 b then atan (b / a) + PI else atan (b / a) - PI)
  else if Rlt_dec 0 b then PI / 2
  else if Rlt_dec b 0 then - (PI / 2)
  else 0.

#[export] Instance R_CDouble : CDouble R := {|
  of_int := IZR;
  dadd := Rplus;
  dsub := Rminus;
  dmul := Rmult;
  ddiv := Rdiv;
  deqb := Reqb;
  dltb := Rltb;
  fmod := Rfmod
|}.

#[export] Instance R_Libm : Libm R :=
  Build_Libm R PI Rtrigo_def.cos Rtrigo_def.sin Ratan2 (λ a b, sqrt (a * a + b * b)).

(** The cross product of two plane vectors. *)
Definition cross (u v : R * R) : R := u.1 * v.2 - u.2 * v.1.

Definition vec (a b : R * R) : R * R := (b.1 - a.1, b.2 - a.2).
End Exact.

(** IEEE 754 binary64, as the kernel's primitive floats compute it. *)
Module Binary64.
Import Floats.

Definition of_Z (z : Z) : float :=
  if (z <? 0)%Z then (- of_uint63 (Uint63.of_Z (- z)))%float
  else of_uint63 (Uint63.of_Z z).

(** C's [fmod]: the remainder of the magnitudes, computed exactly
    on the integer mantissas, with the sign of the dividend.  The
    remainder takes no more bits than the dividend, so rebuilding
    the float from it does not round. *)
Definition fmod64 (a b : float) : float :=
  match Prim2SF a, Prim2SF b with
  | S754_nan, _ | _, S754_nan => nan
  | S754_infinity _, _ => nan
  | _, S754_zero _ => nan
  | S754_zero _, _ => a
  | S754_finite _ _ _, S754_infinity _ => a
  | S754_finite sa ma ea, S754_finite _ mb eb =>
      let e := Z.min ea eb in
      let r := ((Zpos ma * 2 ^ (ea - e)) mod (Zpos mb * 2 ^ (eb - e)))%Z in
      match r with
      | Zpos m => SF2Prim (S754_finite sa m e)
      | _ => SF2Prim (S754_zero sa)
      end
  end.

#[export] Instance float_CDouble : CDouble float := {|
  of_int := of_Z;
  dadd := PrimFloat.add;
  dsub := PrimFloat.sub;
  dmul := PrimFloat.mul;
  ddiv := PrimFloat.div;
  deqb := PrimFloat.eqb;
  dltb := PrimFloat.ltb;
  fmod := fmod64
|}.

(** [-2^-60], a tiny negative angle. *)
Definition tiny_negative : float := Z.ldexp (of_Z (-1)) (-60).
End Binary64.

(** ** Notions the statements below use *)

(** The tuple [as_list] appends for one record. *)
Definition render (expr : Expr) : list string :=
  match func expr with
  | PLA =>
      ["PLAP"; symbol_str (c1 expr); symbol_str (v1 expr);
       symbol_str (v2 expr); symbol_str (c2 expr)]
  | PLAP =>
      ["PLAP"; symbol_str (c1 expr); symbol_str (v1 expr);
       symbol_str (v2 expr); symbol_str (c2 expr); symbol_str (c3 expr)]
  | PLLP =>
      ["PLLP"; symbol_str (c1 expr); symbol_str (v1 expr);
       symbol_str (v2 expr); symbol_str (c2 expr); symbol_str (c3 expr)]
  | PLPP =>
      ["PLPP"; symbol_str (c1 expr); symbol_str (v1 expr);
       symbol_str (c2 expr); symbol_str (c3 expr); symbol_str (c4 expr)]
  | PXY =>
      ["PXY"; symbol_str (c1 expr); symbol_str (v1 expr);
       symbol_str (v2 expr); symbol_str (c2 expr)]
  end.

(** The point operands the compiler takes from joints it has solved:
    all of them, except in the production for an RP joint, where the
    PLLP that places the synthetic point [S] and the second operand of
    the PLPP read joints that need not be solved. *)
Definition checked_operands (e : Expr) : list sym :=
  match func e with
  | PLA | PXY | PLPP => [c1 e]
  | PLAP => [c1 e; c2 e]
  | PLLP => match (target e).1 with S_LABEL => [] | _ => [c1 e; c2 e] end
  end.

(** Joint [n] is solved before the constructions [pre] are replayed, or
    by one of them. *)
Definition known (status0 : Z → option bool) (pre : EStack) (n : Z) : Prop :=
  status0 n = Some true ∨ ∃ e, e ∈ pre ∧ target e = (P_LABEL, n).

(** The second half of the soundness property as the specification
    words it: a point operand is the driver of an input pair or the
    target of an earlier construction. *)
Definition spec_operands_known (inputs : list (Z * Z)) (stk : EStack) : Prop :=
  ∀ pre e post n,
    stk = pre ++ e :: post → (P_LABEL, n) ∈ operands e →
    n ∈ inputs.*1 ∨ ∃ e', e' ∈ pre ∧ target e' = (P_LABEL, n).

(** The keys of [m] are keys of [m']. *)
Definition keeps_keys (m m' : gmap Z bool) : Prop :=
  ∀ k, is_Some (m !! k) → is_Some (m' !! k).

(** What the production for one joint may do to the state: either it
    only counts a skip, or it solves at least one joint and leaves
    [skip_times] alone or resets it. *)
Definition advance (st st' : Sweep) : Prop :=
  node st' = node st ∧ keeps_keys (status st) (status st') ∧
  ((status st' = status st ∧ skip_times st' = (skip_times st + 1)%Z)
   ∨ (unsolved (status st') < unsolved (status st)
      ∧ (skip_times st' = 0%Z ∨ skip_times st' = skip_times st))).

(** The invariant of the two loops that emit constructions, for the
    dictionary [status0] the first of them starts from. *)
Record sound (status0 status : gmap Z bool) (exprs : EStack) : Prop := {
  targets_marked :
    ∀ e n, e ∈ exprs → target e = (P_LABEL, n) → status !! n = Some true;
  marked_known :
    ∀ n, status !! n = Some true → known (status0 !!.) exprs n;
  operands_known :
    ∀ pre e post n,
      exprs = pre ++ e :: post → (P_LABEL, n) ∈ checked_operands e →
      known (status0 !!.) pre n;
  slot_placed :
    ∀ pre e post,
      exprs = pre ++ e :: post → func e = PLPP →
      ∃ pre' e', pre = pre' ++ [e'] ∧ func e' = PLLP ∧ target e' = c3 e
}.

Section Notions.
Context {D : Type} `{!CDouble D} `{!Libm D} {index_order : IndexOrder}.

(** What the first loop of [t_config] leaves in [status] for a joint. *)
Definition solved_at_start (v : VPoint D) : bool :=
  match links v with
  | [] => true
  | _ => bool_decide (FRAME ∈ links v) && VJoint.eqb (type v) VJoint.R
  end.

(** The dictionary [status] when the first construction is emitted:
    the entry of a joint is [solved_at_start], any other entry is the
    caller's. *)
Definition initial_status (vpoints_ : list (VPoint D))
    (status_ : option (gmap Z bool)) (n : Z) : option bool :=
  match (if (0 <=? n)%Z then vpoints_ !! Z.to_nat n else None) with
  | Some v => Some (solved_at_start v)
  | None => default ∅ status_ !! n
  end.




(** The value a Python dict holds for a key. *)
Fixpoint dict_get {K} `{EqDecision K} {V} (k : K) (d : SolverSystem.odict K V) : option V :=
  match d with
  | [] => None
  | (k', v) :: d' => if bool_decide (k = k') then Some v else dict_get k d'
  end.

(** An input pair that drives a constraint: its two joints differ. *)
Definition nondegenerate (item : (Z * Z) * D) : Prop := item.1.1 ≠ item.1.2.

#[global] Instance nondegenerate_dec item : Decision (nondegenerate item).
Proof. unfold nondegenerate. apply _. Defined.

(** The inputs after an update by [new]: the pairs of [inputs0] in
    their order, each with the angle [new] gives it, or else its own. *)
Definition merge (inputs0 new : SolverSystem.odict (Z * Z) D) : SolverSystem.odict (Z * Z) D :=
  (λ item, (item.1, default item.2 (dict_get item.1 new))) <$> inputs0.

(** The four-bar linkage of the documentation, input (0, 2). *)
Definition fourbar : list (VPoint D) :=
  [c_r_joint "ground, L1" (of_int 0) (of_int 0);
   c_r_joint "ground, L3" (of_int 90) (of_int 0);
   c_r_joint "L1, L2" (of_int 10) (of_int 30);
   c_r_joint "L2, L3" (of_int 70) (of_int 30)].

(** A crank that drives a grounded RP joint, input (0, 1). *)
Definition slider_crank : list (VPoint D) :=
  [c_r_joint "ground, L1" (of_int 0) (of_int 0);
   c_r_joint "L1, L2" (of_int 10) (of_int 30);
   c_slider_joint "ground, L2" VJoint.RP (of_int 0) (of_int 70) (of_int 0)].

Definition slider_crank_stack (fb fc : Z) (op : bool) : EStack :=
  add_plpp
    (add_pllp
       (add_pla [] (P_LABEL, 0%Z) (L_LABEL, 0%Z) (A_LABEL, 0%Z) (P_LABEL, 1%Z))
       (P_LABEL, fb) (L_LABEL, 1%Z) (L_LABEL, 2%Z) (P_LABEL, fc) (S_LABEL, 2%Z))
    (P_LABEL, 1%Z) (L_LABEL, 3%Z) (P_LABEL, 2%Z) (S_LABEL, 2%Z) (P_LABEL, 2%Z) op.

(** Six joints, input (2, 5).  Joint 2 hangs on the grounded joints 0
    and 1, joint 5 is driven from joint 2, joint 4 hangs on joints 2
    and 5, and joint 3 is on a link of its own. *)
Definition interrupted : list (VPoint D) :=
  [c_r_joint "ground, La" (of_int 0) (of_int 0);
   c_r_joint "ground, Lb" (of_int 90) (of_int 0);
   c_r_joint "La, Lb, Lc" (of_int 10) (of_int 30);
   c_r_joint "Lz" (of_int 0) (of_int 50);
   c_r_joint "Lc, Ld" (of_int 70) (of_int 30);
   c_r_joint "Ld" (of_int 50) (of_int 50)].

Definition interrupted_stack (fa fb : Z) : EStack :=
  add_pla
    (add_pllp [] (P_LABEL, fa) (L_LABEL, 0%Z) (L_LABEL, 1%Z) (P_LABEL, fb) (P_LABEL, 2%Z))
    (P_LABEL, 2%Z) (L_LABEL, 2%Z) (A_LABEL, 0%Z) (P_LABEL, 5%Z).

Definition interrupted_status : gmap Z bool :=
  {[ 0%Z := true; 1%Z := true; 2%Z := true; 3%Z := false; 4%Z := false; 5%Z := true ]}.

End Notions.

(** ** Notions of the further properties *)

(** A link name as [VPoint.__cinit__] keeps it: not empty, without
    blank and without comma. *)
Fixpoint name_chars (s : string) : bool :=
  match s with
  | EmptyString => true
  | String ch s' =>
      negb (bool_decide (ch = " "%char)) && negb (bool_decide (ch = ","%char))
      && name_chars s'
  end.

Definition link_name (s : string) : bool :=
  negb (bool_decide (s = "")) && name_chars s.

(** What [as_list] shows of a record: the tag apart, the fields the
    method that built the record assigned, the flag [op] left out. *)
Definition shown (e : Expr) : list sym :=
  match func e with
  | PLA | PXY => [c1 e; v1 e; v2 e; c2 e]
  | PLAP | PLLP => [c1 e; v1 e; v2 e; c2 e; c3 e]
  | PLPP => [c1 e; v1 e; c2 e; c3 e; c4 e]
  end.

(** Joint [m] of [vpoints] is on the link [link]. *)
Definition on_link {D} (vpoints : list (VPoint D)) (link : string) (m : Z) : Prop :=
  (0 ≤ m)%Z ∧ ∃ v, vpoints !! Z.to_nat m = Some v ∧ link ∈ links v.

(** [vlinks] is the adjacency of [vpoints]: every link that a joint
    names has the set of the joints on it, and no other link has an
    entry. *)
Definition adjacency {D} (vpoints : list (VPoint D)) (vlinks : gmap string (list Z)) : Prop :=
  ∀ link,
    match vlinks !! link with
    | Some members => NoDup members ∧ ∀ m, m ∈ members ↔ on_link vpoints link m
    | None => ∀ m, ¬ on_link vpoints link m
    end.

(** Every link a joint of [vpoints] names has an entry in [vlinks]. *)
Definition links_known {D} (vlinks : gmap string (list Z)) (vpoints : list (VPoint D)) : Prop :=
  ∀ v l, v ∈ vpoints → l ∈ links v → is_Some (vlinks !! l).

(** The joints [vlinks] lists are indices below [n]. *)
Definition members_below (vlinks : gmap string (list Z)) (n : nat) : Prop :=
  ∀ l ms m, vlinks !! l = Some ms → m ∈ ms → (0 ≤ m < Z.of_nat n)%Z.

(** The friends [_get_reliable_friend] yields for joint [node], as a
    list expression. *)
Definition reliable_friends {D} {index_order : IndexOrder} (node : Z) (v : VPoint D)
    (vlinks : gmap string (list Z)) (status : gmap Z bool) : list Z :=
  filter (λ friend, status !! friend = Some true ∧ friend ≠ node)
    (links v ≫= λ link,
       let members := default [] (vlinks !! link) in
       if (length members <? 2)%nat then [] else set_iter members).

(** The case in which the promotion calls [c_slider_joint]: a
    grounded P joint has an R joint on one of its pin links. *)
Definition promotes {D} `{!CDouble D} `{!Libm D} (vpoints : list (VPoint D)) : Prop :=
  ∃ vb v link,
    vb ∈ vpoints ∧ v ∈ vpoints
    ∧ type vb = VJoint.P ∧ grounded vb = true ∧ type v = VJoint.R
    ∧ link ∈ drop 1 (links vb) ∧ link ∈ links v.

(** The same, read off the sets of [vlinks] as the loops do: joint
    [node] is an R joint other than [base], and joint [base] is a
    grounded P joint with such a joint on a pin link. *)
Definition friend_to_promote {D} (vpoints : list (VPoint D)) (base node : Z) : Prop :=
  node ≠ base ∧ ∃ v, vpoints !! Z.to_nat node = Some v ∧ type v = VJoint.R.

Definition promotes_at {D} `{!CDouble D} `{!Libm D} (vlinks : gmap string (list Z))
    (vpoints : list (VPoint D)) (base : Z) : Prop :=
  ∃ vb link members node,
    vpoints !! Z.to_nat base = Some vb ∧ type vb = VJoint.P ∧ grounded vb = true
    ∧ link ∈ drop 1 (links vb) ∧ vlinks !! link = Some members ∧ node ∈ members
    ∧ friend_to_promote vpoints base node.

Definition promotes_in {D} `{!CDouble D} `{!Libm D} (vlinks : gmap string (list Z))
    (vpoints : list (VPoint D)) : Prop :=
  ∃ base, (0 ≤ base < Z.of_nat (length vpoints))%Z ∧ promotes_at vlinks vpoints base.

(** The dictionary [status] fits [n] joints and the input pairs: every
    joint has an entry, every entry that is not solved is a joint, and
    every driver of an input pair has an entry. *)
Definition entries_fit (n : nat) (inputs : list (Z * Z)) (status : gmap Z bool) : Prop :=
  (∀ k, (0 ≤ k < Z.of_nat n)%Z → is_Some (status !! k))
  ∧ (∀ k, status !! k = Some false → (0 ≤ k < Z.of_nat n)%Z)
  ∧ (∀ b, b ∈ inputs.*1 → is_Some (status !! b)).

(** Every entry of [m] that is solved is solved in [m']. *)
Definition stays_solved (m m' : gmap Z bool) : Prop :=
  ∀ k, m !! k = Some true → m' !! k = Some true.

(** The variables of a construction: the fields [v1] and [v2], as far
    as the method that built the record assigned them. *)
Definition parameters (e : Expr) : list sym :=
  match func e with
  | PLPP => [v1 e]
  | _ => [v1 e; v2 e]
  end.

(** The symbols of [l] in the namespace [label], and the first [k]
    symbols of a namespace in order. *)
Definition with_label (label : Label) (l : list sym) : list sym :=
  filter (λ p, p.1 = label) l.

Definition numbered (label : Label) (k : Z) : list sym :=
  (λ i, (label, i)) <$> seqZ 0 k.

(** The stack [exprs] uses the link variables below [links_] and the
    angle variables below [angles], each once and in order, one angle
    for every PLA record, and has no PLAP record. *)
Definition numbering (exprs : EStack) (links_ angles : Z) : Prop :=
  (0 ≤ links_)%Z
  ∧ with_label L_LABEL (exprs ≫= parameters) = numbered L_LABEL links_
  ∧ with_label A_LABEL (exprs ≫= parameters) = numbered A_LABEL angles
  ∧ angles = Z.of_nat (length (filter (λ e, func e = PLA) exprs))
  ∧ Forall (λ e, func e ≠ PLAP) exprs
  ∧ Forall (λ p, p.1 = L_LABEL ∨ p.1 = A_LABEL) (exprs ≫= parameters).

(** No two records of [exprs] have the same target, and the joint of
    every target is solved in [status]. *)
Definition built_once (status : gmap Z bool) (exprs : EStack) : Prop :=
  NoDup (target <$> exprs) ∧ ∀ e, e ∈ exprs → status !! (target e).2 = Some true.

(** Two joints on the same two links, the first of them grounded. *)
Definition doubled {D} `{!CDouble D} `{!Libm D} : list (VPoint D) :=
  [c_r_joint "ground, L1, L2" (of_int 0) (of_int 0);
   c_r_joint "L1, L2" (of_int 10) (of_int 30)].

(** What the loop over the pin links of a placed P joint [n] keeps
    of the state [st1] it starts in: it appends PXY records read from
    [n], two link variables each, and solves joints. *)
Definition places_friends (n : Z) (st1 s : Sweep) : Prop :=
  ∃ more,
    exprs s = exprs st1 ++ more
    ∧ Forall (λ e, func e = PXY ∧ c1 e = (P_LABEL, n)) more
    ∧ stays_solved (status st1) (status s)
    ∧ link_symbol s = (link_symbol st1 + 2 * Z.of_nat (length more))%Z
    ∧ angle_symbol s = angle_symbol st1 ∧ node s = node st1
    ∧ skip_times s = skip_times st1.


(** * Properties *)

(** ** The error monad and the loops *)

Lemma bind_Ok {A B} (f : A → result B) (m : result A) (b : B) :
  (m ≫= f) = Ok b ↔ ∃ a, m = Ok a ∧ f a = Ok b.
Proof.
  destruct m; simpl; split;
    [eauto | by intros (? & [= <-] & ?) | done | by intros (? & ? & ?)].
Qed.

(** Splits a hypothesis [x ← m; k = Ok b] into its two runs. *)
Ltac bind_inv H :=
  let a := fresh "a" in
  let Ha := fresh "Hbind" in
  apply bind_Ok in H as (a & Ha & H).

Lemma for_each_ind {A B} (P : B → Prop) (f : B → A → result B) (l : list A) (b b' : B) :
  P b →
  (∀ b0 a b1, a ∈ l → P b0 → f b0 a = Ok b1 → P b1) →
  for_each f l b = Ok b' → P b'.
Proof.
  revert b. induction l as [|a l IH]; intros b Hb Hf; simpl.
  - by intros [= <-].
  - intros (b1 & H1 & H2)%bind_Ok.
    apply (IH b1); [eapply Hf; [left| |]; done | | done].
    intros ????; eapply Hf. by right.
Qed.

Lemma getitem_dict_Ok {K} `{Countable K} {A} (d : gmap K A) k a :
  getitem_dict d k = Ok a ↔ d !! k = Some a.
Proof. unfold getitem_dict. destruct (d !! k); naive_solver. Qed.

Lemma getitem_list_Ok {A} (l : list A) (i : nat) a :
  l !! i = Some a → getitem_list l (Z.of_nat i) = Ok a.
Proof.
  intros Hi. unfold getitem_list.
  destruct (Z.ltb_spec (Z.of_nat i) 0) as [?|_]; [lia|].
  destruct (Z.ltb_spec (Z.of_nat i) 0) as [?|_]; [lia|].
  by rewrite Nat2Z.id, Hi.
Qed.

Lemma in_int_spec z : in_int z = true ↔ (- 2 ^ 31 ≤ z < 2 ^ 31)%Z.
Proof. unfold in_int. rewrite andb_true_iff, Z.leb_le, Z.ltb_lt. done. Qed.

Lemma elem_of_set_iter {index_order : IndexOrder} (x : Z) (s : list Z) :
  x ∈ set_iter s ↔ x ∈ s.
Proof. by rewrite set_iter_perm. Qed.

Lemma set_iter_member {index_order : IndexOrder} (x : Z) (s : list Z) :
  x ∈ set_iter s → x ∈ s.
Proof. apply elem_of_set_iter. Qed.

Lemma member_set_iter {index_order : IndexOrder} (x : Z) (s : list Z) :
  x ∈ s → x ∈ set_iter s.
Proof. apply elem_of_set_iter. Qed.

Lemma as_int_Ok z z' : as_int z = Ok z' ↔ in_int z = true ∧ z' = z.
Proof.
  unfold as_int. destruct (in_int z).
  - split; [by intros [= <-]|by intros [_ ->]].
  - split; [done|by intros [? _]].
Qed.

(** A driver loop turn that does not raise has taken its pair into
    C [int]s unchanged. *)
Lemma drive_inv st input st' :
  drive st input = Ok st' →
  in_int input.1 = true ∧ in_int input.2 = true
  ∧ (b ← getitem_dict (status st) input.1;
     Ok (if (b : bool) then emit_pla st input.1 input.2 else st)) = Ok st'.
Proof.
  unfold drive. intros (b & Hb & (n & Hn & Hrun)%bind_Ok)%bind_Ok.
  apply as_int_Ok in Hb as [Hb ->]. apply as_int_Ok in Hn as [Hn ->]. done.
Qed.

(** ** The construction stack *)

Lemma as_list_foldl (self : EStack) (acc : list (list string)) :
  foldl (λ stack expr,
    match func expr with
    | PLA =>
        stack ++ [["PLAP"; symbol_str (c1 expr); symbol_str (v1 expr);
                   symbol_str (v2 expr); symbol_str (c2 expr)]]
    | PLAP =>
        stack ++ [["PLAP"; symbol_str (c1 expr); symbol_str (v1 expr);
                   symbol_str (v2 expr); symbol_str (c2 expr); symbol_str (c3 expr)]]
    | PLLP =>
        stack ++ [["PLLP"; symbol_str (c1 expr); symbol_str (v1 expr);
                   symbol_str (v2 expr); symbol_str (c2 expr); symbol_str (c3 expr)]]
    | PLPP =>
        stack ++ [["PLPP"; symbol_str (c1 expr); symbol_str (v1 expr);
                   symbol_str (c2 expr); symbol_str (c3 expr); symbol_str (c4 expr)]]
    | PXY =>
        stack ++ [["PXY"; symbol_str (c1 expr); symbol_str (v1 expr);
                   symbol_str (v2 expr); symbol_str (c2 expr)]]
    end) acc self = acc ++ (render <$> self).
Proof.
  revert acc. induction self as [|e self IH]; intros acc; simpl.
  - by rewrite app_nil_r.
  - rewrite IH. unfold render at 2. destruct (func e); by rewrite <- app_assoc.
Qed.

Lemma as_list_render (self : EStack) : as_list self = render <$> self.
Proof. unfold as_list. by rewrite as_list_foldl. Qed.

(** C8. [as_list] renders the record at position [i] as the tuple at
    position [i]; a PLA record becomes the tag "PLAP" followed by its
    four symbols, a PLAP record the same tag "PLAP" followed by its
    five symbols, so only the length tells the two apart. *)
Theorem as_list_pla_shares_tag_with_plap (self : EStack) (i : nat) (e : Expr) :
  self !! i = Some e →
  (func e = PLA →
     as_list self !! i
     = Some ["PLAP"; symbol_str (c1 e); symbol_str (v1 e);
             symbol_str (v2 e); symbol_str (c2 e)])
  ∧ (func e = PLAP →
       as_list self !! i
       = Some ["PLAP"; symbol_str (c1 e); symbol_str (v1 e);
               symbol_str (v2 e); symbol_str (c2 e); symbol_str (c3 e)]).
Proof.
  intros Hi. rewrite as_list_render, list_lookup_fmap, Hi. simpl.
  unfold render. split; by intros ->.
Qed.

Lemma as_list_pla_shares_tag_with_plap_witness :
  let pla := mkExpr PLA (P_LABEL, 0%Z) (L_LABEL, 0%Z) (A_LABEL, 0%Z) (P_LABEL, 1%Z)
               unassigned unassigned false in
  let plap := mkExpr PLAP (P_LABEL, 1%Z) (L_LABEL, 1%Z) (A_LABEL, 1%Z) (P_LABEL, 0%Z)
                (P_LABEL, 2%Z) unassigned false in
  as_list [pla; plap] !! 0%nat = Some ["PLAP"; "P0"; "L0"; "a0"; "P1"]
  ∧ as_list [pla; plap] !! 1%nat = Some ["PLAP"; "P1"; "L1"; "a1"; "P0"; "P2"].
Proof.
  intros pla plap. split.
  - exact (proj1 (as_list_pla_shares_tag_with_plap [pla; plap] 0 pla eq_refl) eq_refl).
  - exact (proj2 (as_list_pla_shares_tag_with_plap [pla; plap] 1 plap eq_refl) eq_refl).
Defined.

(** ** The main loop of [t_config] ends *)

Lemma unsolved_mark_le (m : gmap Z bool) k : unsolved (<[k := true]> m) ≤ unsolved m.
Proof.
  unfold unsolved. rewrite map_filter_insert_False by (simpl; congruence).
  rewrite map_filter_delete, map_size_delete.
  destruct (filter _ m !! k); simpl; lia.
Qed.

Lemma unsolved_mark_lt (m : gmap Z bool) k :
  m !! k = Some false → unsolved (<[k := true]> m) < unsolved m.
Proof.
  intros Hk. unfold unsolved. rewrite map_filter_insert_False by (simpl; congruence).
  rewrite map_filter_delete, map_size_delete.
  assert (filter (λ kv : Z * bool, kv.2 = false) m !! k = Some false) as Hf
    by (by apply map_lookup_filter_Some).
  rewrite Hf. simpl.
  assert (size (filter (λ kv : Z * bool, kv.2 = false) m) ≠ 0); [|lia].
  intros Hz%map_size_empty_inv. by rewrite Hz in Hf.
Qed.

Lemma keeps_keys_refl m : keeps_keys m m.
Proof. by intros k. Qed.

Lemma keeps_keys_trans m1 m2 m3 : keeps_keys m1 m2 → keeps_keys m2 m3 → keeps_keys m1 m3.
Proof. intros H1 H2 k Hk. eauto. Qed.

Lemma keeps_keys_insert m k b : keeps_keys m (<[k := b]> m).
Proof.
  intros j Hj. destruct (decide (k = j)) as [->|].
  - rewrite lookup_insert_eq. eauto.
  - by rewrite lookup_insert_ne.
Qed.

Lemma advance_skip st : advance st (skip st).
Proof. split; [done|]. split; [apply keeps_keys_refl|]. by left. Qed.

Section SweepEnds.
Context {D : Type} `{!CDouble D} `{!Libm D} {index_order : IndexOrder}.
Variables (vpoints : list (VPoint D)) (vlinks : gmap string (list Z))
          (pos : list (D * D)) (inputs : list (Z * Z)) (around : Z).

Lemma visit_R_advance st st' :
  status st !! node st = Some false →
  visit_R vpoints vlinks pos inputs st = Ok st' → advance st st'.
Proof.
  intros Hn. unfold visit_R. destruct (bool_decide _).
  - intros Hrun. bind_inv Hrun. destruct a; injection Hrun as <-; [|apply advance_skip].
    split; [done|]. split; [apply keeps_keys_insert|].
    right. split; [by apply unsolved_mark_lt | by right].
  - intros Hrun. bind_inv Hrun. destruct a as [|fa [|fb fi]];
      try (injection Hrun as <-; apply advance_skip).
    do 3 bind_inv Hrun.
    destruct (_clockwise _ _ _); injection Hrun as <-;
      (split; [done|]; split; [apply keeps_keys_insert|];
       right; split; [by apply unsolved_mark_lt | by left]).
Qed.

Lemma pxy_friend_mono n st fb st' :
  pxy_friend n st fb = Ok st' →
  node st' = node st ∧ skip_times st' = skip_times st
  ∧ keeps_keys (status st) (status st') ∧ unsolved (status st') ≤ unsolved (status st).
Proof.
  unfold pxy_friend. intros Hrun. bind_inv Hrun. destruct a; injection Hrun as <-.
  - repeat split; [apply keeps_keys_refl | lia].
  - repeat split; [apply keeps_keys_insert | apply unsolved_mark_le].
Qed.

Lemma visit_P_advance st vpoint st' :
  status st !! node st = Some false →
  visit_P vpoints vlinks st vpoint = Ok st' → advance st st'.
Proof.
  intros Hn. unfold visit_P.
  destruct (_ || _ || _); [intros [= <-]; apply advance_skip|].
  intros Hrun. bind_inv Hrun.
  destruct a as [|fa fi]; [injection Hrun as <-; apply advance_skip|].
  bind_inv Hrun. injection Hrun as <-.
  assert (node a = node st ∧ skip_times a = skip_times st
          ∧ keeps_keys (status st) (status a)
          ∧ unsolved (status a) < unsolved (status st)) as (? & ? & ? & ?).
  { revert Hbind0.
    apply (for_each_ind (λ s, node s = node st ∧ skip_times s = skip_times st
                              ∧ keeps_keys (status st) (status s)
                              ∧ unsolved (status s) < unsolved (status st))).
    - repeat split; [apply keeps_keys_insert | by apply unsolved_mark_lt].
    - intros s link s' _ (Hs1 & Hs2 & Hs3 & Hs4) Hlink. bind_inv Hlink.
      revert Hlink.
      apply (for_each_ind (λ s, node s = node st ∧ skip_times s = skip_times st
                                ∧ keeps_keys (status st) (status s)
                                ∧ unsolved (status s) < unsolved (status st))); [done|].
      intros s0 fb s1 _ (? & ? & ? & ?) (? & ? & ? & ?)%pxy_friend_mono.
      repeat split; [congruence | congruence | by eapply keeps_keys_trans | lia]. }
  split; [done|]. split; [done|]. right. split; [done|by left].
Qed.

Lemma visit_RP_advance st vpoint st' :
  status st !! node st = Some false →
  visit_RP vpoints vlinks pos st vpoint = Ok st' → advance st st'.
Proof.
  intros Hn. unfold visit_RP. intros Hrun. bind_inv Hrun.
  destruct (pin_grounded vpoint), (grounded vpoint), (has_offset vpoint);
    simpl in Hrun; try (injection Hrun as <-; apply advance_skip).
  bind_inv Hrun. destruct a0 as [|fa nb]; [injection Hrun as <-; apply advance_skip|].
  bind_inv Hrun. destruct a0 as [|fb fi]; [injection Hrun as <-; apply advance_skip|].
  simpl in Hrun. do 2 bind_inv Hrun.
  destruct (_clockwise _ _ _); do 2 bind_inv Hrun; injection Hrun as <-;
    (split; [done|]; split; [apply keeps_keys_insert|];
     right; split; [by apply unsolved_mark_lt | by left]).
Qed.

(** Every turn that does not leave the loop lowers [sweep_bound]. *)
Lemma sweep_step_decreases st st' :
  is_Some (status st !! 0%Z) →
  sweep_step vpoints vlinks pos inputs around st = Ok (Continue st') →
  sweep_bound around st' < sweep_bound around st ∧ is_Some (status st' !! 0%Z).
Proof.
  intros H0. unfold sweep_step.
  destruct (bool_decide (status st !! node st = None)) eqn:Hin.
  { intros [= <-]. split; [|done]. unfold sweep_bound. simpl. rewrite Hin.
    rewrite bool_decide_eq_false_2; [lia|].
    by intros Hnone; rewrite Hnone in H0; destruct H0. }
  apply bool_decide_eq_false in Hin.
  case_bool_decide as Hskip; [done|].
  intros Hrun. bind_inv Hrun. apply getitem_dict_Ok in Hbind.
  destruct a.
  { injection Hrun as <-. split; [|done]. unfold sweep_bound. simpl.
    rewrite (bool_decide_eq_false_2 (status st !! node st = None)) by done.
    case_bool_decide; lia. }
  do 2 bind_inv Hrun. injection Hrun as <-.
  assert (advance st a0) as (Hnode & Hkeys & Hcase).
  { destruct (type a); eauto using visit_R_advance, visit_P_advance, visit_RP_advance. }
  split; [|by apply Hkeys]. unfold sweep_bound. simpl.
  rewrite (bool_decide_eq_false_2 (status st !! node st = None)) by done.
  destruct Hcase as [[-> ->]|[Hlt [->| ->]]]; case_bool_decide; nia.
Qed.

Lemma sweep_terminates fuel st :
  is_Some (status st !! 0%Z) →
  sweep_bound around st ≤ fuel →
  is_Some (sweep vpoints vlinks pos inputs around fuel st).
Proof.
  revert st. induction fuel as [|fuel IH]; intros st H0 Hfuel.
  - unfold sweep_bound in Hfuel. lia.
  - simpl. destruct (_is_all_lock _); [done|].
    destruct (sweep_step _ _ _ _ _ st) as [[st'|st']|e] eqn:Hstep; [|done..].
    apply sweep_step_decreases in Hstep as [? ?]; [|done].
    apply IH; [done|lia].
Qed.

Lemma sweep_more_fuel fuel fuel' st r :
  sweep vpoints vlinks pos inputs around fuel st = Some r → fuel ≤ fuel' →
  sweep vpoints vlinks pos inputs around fuel' st = Some r.
Proof.
  revert fuel' st. induction fuel as [|fuel IH]; intros fuel' st; [done|].
  destruct fuel' as [|fuel']; [lia|]. simpl.
  destruct (_is_all_lock _); [done|].
  destruct (sweep_step _ _ _ _ _ st) as [[st'|st']|e]; [|done..].
  intros ??. apply IH; [done|lia].
Qed.

(** The loop leaves only when every entry is solved or when
    [skip_times] has reached [around]. *)
Lemma sweep_exit fuel st st' :
  sweep vpoints vlinks pos inputs around fuel st = Some (Ok st') →
  _is_all_lock (status st') = true ∨ (around ≤ skip_times st')%Z.
Proof.
  revert st. induction fuel as [|fuel IH]; intros st; [done|]. simpl.
  destruct (_is_all_lock (status st)) eqn:Hlock; [intros [= <-]; by left|].
  destruct (sweep_step _ _ _ _ _ st) as [[st1|st1]|e] eqn:Hstep; [by apply IH| |done].
  intros [= <-]. right. unfold sweep_step in Hstep.
  case_bool_decide; [done|]. case_bool_decide; [by injection Hstep as <-|].
  bind_inv Hstep. destruct a; [done|]. by do 2 bind_inv Hstep.
Qed.

End SweepEnds.

(** ** The stack reads solved joints only *)

Lemma known_app status0 pre post n : known status0 pre n → known status0 (pre ++ post) n.
Proof.
  intros [?|(e & ? & ?)]; [by left|right].
  exists e. split; [|done]. apply elem_of_app; by left.
Qed.

Lemma sound_start status0 : sound status0 status0 [].
Proof.
  split.
  - intros e n He. by apply elem_of_nil in He.
  - intros n ?. by left.
  - intros [|??] ????; done.
  - intros [|??] ????; done.
Qed.

Lemma split_snoc {A} (l pre post : list A) (a e : A) :
  l ++ [a] = pre ++ e :: post →
  (post = [] ∧ pre = l ∧ e = a) ∨ (∃ post', post = post' ++ [a] ∧ l = pre ++ e :: post').
Proof.
  intros Heq. destruct (decide (post = [])) as [->|Hpost].
  - apply app_inj_tail in Heq as [<- <-]. by left.
  - destruct (exists_last Hpost) as (post' & z & ->). right.
    rewrite app_comm_cons, app_assoc in Heq. apply app_inj_tail in Heq as [-> ->].
    by exists post'.
Qed.

Lemma sound_push status0 status exprs e :
  sound status0 status exprs →
  (∀ n, (P_LABEL, n) ∈ checked_operands e → status !! n = Some true) →
  (func e = PLPP → ∃ pre' e', exprs = pre' ++ [e'] ∧ func e' = PLLP ∧ target e' = c3 e) →
  sound status0
    (match target e with (P_LABEL, t) => <[t := true]> status | _ => status end)
    (exprs ++ [e]).
Proof.
  intros [Ht Hm Ho Hp] He Hplpp. split.
  - intros e' n [Hin| ->%list_elem_of_singleton]%elem_of_app Htgt.
    + specialize (Ht _ _ Hin Htgt). destruct (target e) as [[] t]; try done.
      destruct (decide (t = n)) as [->|];
        [by rewrite lookup_insert_eq|by rewrite lookup_insert_ne].
    + rewrite Htgt. by rewrite lookup_insert_eq.
  - intros n Hn.
    assert (status !! n = Some true ∨ target e = (P_LABEL, n)) as [?|?].
    { destruct (target e) as [[] t]; auto.
      destruct (decide (t = n)) as [->|]; [by right|].
      rewrite lookup_insert_ne in Hn by done. by left. }
    + apply known_app; auto.
    + right. exists e. split; [|done]. apply elem_of_app. right. by left.
  - intros pre e' post n [(-> & -> & ->)|(post' & -> & ->)]%split_snoc Hin.
    + by apply Hm, He.
    + by eapply Ho.
  - intros pre e' post [(-> & -> & ->)|(post' & -> & ->)]%split_snoc Hf.
    + by apply Hplpp.
    + by eapply Hp.
Qed.

Lemma sound_mark_push status0 status exprs e t :
  sound status0 status exprs →
  (∀ n, (P_LABEL, n) ∈ checked_operands e → status !! n = Some true) →
  func e ≠ PLPP →
  target e = (P_LABEL, t) →
  sound status0 (<[t := true]> status) (exprs ++ [e]).
Proof.
  intros Hs He Hf Ht. pose proof (sound_push _ _ _ e Hs He) as H.
  rewrite Ht in H. by apply H.
Qed.

Lemma checked_singleton_P e n m :
  checked_operands e = [(P_LABEL, m)] → (P_LABEL, n) ∈ checked_operands e → n = m.
Proof. intros -> [=]%list_elem_of_singleton. done. Qed.

Section Friends.
Context {D : Type} `{!CDouble D} `{!Libm D} {index_order : IndexOrder}.
Variables (vpoints : list (VPoint D)) (vlinks : gmap string (list Z)).

Lemma _get_reliable_friend_solved n status fi f :
  _get_reliable_friend n vpoints vlinks status = Ok fi → f ∈ fi → status !! f = Some true.
Proof.
  unfold _get_reliable_friend. intros Hrun. bind_inv Hrun. revert Hrun f.
  apply (for_each_ind (λ fi, ∀ f, f ∈ fi → status !! f = Some true)).
  - intros f Hf. by apply elem_of_nil in Hf.
  - intros fi0 link fi1 _ IH Hrun. bind_inv Hrun.
    destruct (_ <? _)%nat; [by injection Hrun as <-|].
    revert Hrun.
    apply (for_each_ind (λ fi, ∀ f, f ∈ fi → status !! f = Some true)); [done|].
    intros fi2 friend fi3 _ IH2 Hrun. bind_inv Hrun. apply getitem_dict_Ok in Hbind1.
    destruct a1; simpl in Hrun; [|by injection Hrun as <-].
    destruct (bool_decide _); simpl in Hrun; injection Hrun as <-; [done|].
    intros f [?| ->%list_elem_of_singleton]%elem_of_app; auto.
Qed.

Lemma _get_not_base_friend_solved n status fi f :
  _get_not_base_friend n vpoints vlinks status = Ok fi → f ∈ fi → status !! f = Some true.
Proof.
  unfold _get_not_base_friend. intros Hrun. bind_inv Hrun.
  destruct (_ <? _)%nat; [injection Hrun as <-; by intros ?%elem_of_nil|].
  do 2 bind_inv Hrun. revert Hrun f.
  apply (for_each_ind (λ fi, ∀ f, f ∈ fi → status !! f = Some true)).
  - intros f Hf. by apply elem_of_nil in Hf.
  - intros fi2 friend fi3 _ IH2 Hrun. bind_inv Hrun. apply getitem_dict_Ok in Hbind2.
    destruct a2; simpl in Hrun; injection Hrun as <-; [|done].
    intros f [?| ->%list_elem_of_singleton]%elem_of_app; auto.
Qed.

End Friends.

Section SweepSound.
Context {D : Type} `{!CDouble D} `{!Libm D} {index_order : IndexOrder}.
Variables (vpoints : list (VPoint D)) (vlinks : gmap string (list Z))
          (pos : list (D * D)) (inputs : list (Z * Z)) (around : Z)
          (status0 : gmap Z bool).

Abbreviation sound_state st := (sound status0 (status st) (exprs st)).

Lemma drive_sound st input st' :
  sound_state st → drive st input = Ok st' → sound_state st'.
Proof.
  intros Hs (_ & _ & Hrun)%drive_inv. bind_inv Hrun. apply getitem_dict_Ok in Hbind.
  destruct a; injection Hrun as <-; [|done]. simpl.
  apply sound_mark_push; [done| |done|done].
  intros n ->%(checked_singleton_P _ _ input.1); done.
Qed.

Lemma visit_R_sound st st' :
  sound_state st → visit_R vpoints vlinks pos inputs st = Ok st' → sound_state st'.
Proof.
  intros Hs. unfold visit_R. destruct (bool_decide _).
  - intros Hrun. bind_inv Hrun. apply getitem_dict_Ok in Hbind.
    destruct a; injection Hrun as <-; [|done]. simpl.
    apply sound_mark_push; [done| |done|done].
    intros n ->%(checked_singleton_P _ _ (_get_input_base (node st) inputs)); done.
  - intros Hrun. bind_inv Hrun.
    destruct a as [|fa [|fb fi]]; try (by injection Hrun as <-).
    assert (status st !! fa = Some true) as Hfa.
    { eapply _get_reliable_friend_solved; [done|]. left. }
    assert (status st !! fb = Some true) as Hfb.
    { eapply _get_reliable_friend_solved; [done|]. right. left. }
    do 3 bind_inv Hrun.
    destruct (_clockwise _ _ _); injection Hrun as <-; simpl;
      (apply sound_mark_push; [done| |done|done]);
      intros n [[= ->]|[[= ->]|[]%elem_of_nil]%elem_of_cons]%elem_of_cons; done.
Qed.

Lemma pxy_friend_sound n st fb st' :
  sound_state st ∧ status st !! n = Some true →
  pxy_friend n st fb = Ok st' →
  sound_state st' ∧ status st' !! n = Some true.
Proof.
  intros [Hs Hn]. unfold pxy_friend. intros Hrun. bind_inv Hrun.
  destruct a; injection Hrun as <-; [done|]. simpl. split.
  - apply sound_mark_push; [done| |done|done].
    intros m ->%(checked_singleton_P _ _ n); done.
  - destruct (decide (fb = n)) as [->|];
      [by rewrite lookup_insert_eq|by rewrite lookup_insert_ne].
Qed.

Lemma visit_P_sound st vpoint st' :
  sound_state st → visit_P vpoints vlinks st vpoint = Ok st' → sound_state st'.
Proof.
  intros Hs. unfold visit_P.
  destruct (_ || _ || _); [by intros [= <-]|].
  intros Hrun. bind_inv Hrun.
  destruct a as [|fa fi]; [by injection Hrun as <-|].
  assert (status st !! fa = Some true) as Hfa.
  { eapply _get_not_base_friend_solved; [done|]. left. }
  bind_inv Hrun. injection Hrun as <-. simpl.
  enough (sound_state a ∧ status a !! node st = Some true) as [? _] by done.
  revert Hbind0.
  apply (for_each_ind (λ s, sound_state s ∧ status s !! node st = Some true)).
  - simpl. split; [|by rewrite lookup_insert_eq].
    apply sound_mark_push; [done| |done|done].
    intros m ->%(checked_singleton_P _ _ fa); done.
  - intros s link s' _ IH Hlink. bind_inv Hlink. revert Hlink.
    apply (for_each_ind (λ s, sound_state s ∧ status s !! node st = Some true)); [done|].
    intros s0 fb s1 _. apply pxy_friend_sound.
Qed.

Lemma visit_RP_sound st vpoint st' :
  sound_state st → visit_RP vpoints vlinks pos st vpoint = Ok st' → sound_state st'.
Proof.
  intros Hs. unfold visit_RP. intros Hrun. bind_inv Hrun.
  destruct (pin_grounded vpoint), (grounded vpoint), (has_offset vpoint);
    simpl in Hrun; try (by injection Hrun as <-).
  bind_inv Hrun. destruct a0 as [|fa nb]; [by injection Hrun as <-|].
  assert (status st !! fa = Some true) as Hfa.
  { eapply _get_not_base_friend_solved; [done|]. left. }
  bind_inv Hrun. destruct a0 as [|fb fi]; [by injection Hrun as <-|].
  simpl in Hrun. do 2 bind_inv Hrun.
  destruct (_clockwise _ _ _); do 2 bind_inv Hrun; injection Hrun as <-; simpl.
  all: unfold add_plpp, add_pllp;
    match goal with |- sound _ _ ((?ex ++ [?e1]) ++ [?e2]) =>
      pose proof (sound_push status0 (status st) ex e1 Hs) as Hp1;
      pose proof (sound_push status0 (status st) (ex ++ [e1]) e2) as Hp2
    end; simpl in Hp1, Hp2.
  all: apply Hp2; [apply Hp1; [intros m []%elem_of_nil|done]| |].
  all: try (intros m ->%(checked_singleton_P _ _ fa); done).
  all: intros _; eexists _, _; split; [reflexivity|]; by split.
Qed.

Lemma sweep_step_sound st fl :
  sound_state st →
  sweep_step vpoints vlinks pos inputs around st = Ok fl →
  match fl with Continue st' | Break st' => sound_state st' end.
Proof.
  intros Hs. unfold sweep_step.
  case_bool_decide; [by intros [= <-]|].
  case_bool_decide; [by intros [= <-]|].
  intros Hrun. bind_inv Hrun. destruct a; [by injection Hrun as <-|].
  do 2 bind_inv Hrun. injection Hrun as <-. simpl.
  destruct (type a); eauto using visit_R_sound, visit_P_sound, visit_RP_sound.
Qed.

Lemma sweep_sound fuel st st' :
  sound_state st →
  sweep vpoints vlinks pos inputs around fuel st = Some (Ok st') →
  sound_state st'.
Proof.
  revert st. induction fuel as [|fuel IH]; intros st Hs; [done|]. simpl.
  destruct (_is_all_lock _); [by intros [= <-]|].
  destruct (sweep_step _ _ _ _ _ st) as [[st1|st1]|e] eqn:Hstep; [| |done];
    apply sweep_step_sound in Hstep; try done.
  - by apply IH.
  - by intros [= <-].
Qed.

End SweepSound.

(** ** The preprocessing *)

Section Prepare.
Context {D : Type} `{!CDouble D} `{!Libm D} {index_order : IndexOrder}.

Lemma scan_link_status n (v : VPoint D) ls acc k :
  (foldl (scan_link n v) acc ls).1 !! k =
    if decide (k = n) then
      (if bool_decide (FRAME ∈ ls) && VJoint.eqb (type v) VJoint.R
       then Some true else acc.1 !! n)
    else acc.1 !! k.
Proof.
  revert acc. induction ls as [|l ls IH]; intros acc; simpl.
  - by destruct (decide (k = n)) as [->|].
  - rewrite IH. unfold scan_link. simpl.
    destruct (decide (k = n)) as [->|Hne].
    + destruct (VJoint.eqb (type v) VJoint.R); rewrite ?andb_false_r, ?andb_true_r; [|done].
      destruct (decide (l = FRAME)) as [->|Hl].
      * rewrite (bool_decide_eq_true_2 (FRAME = FRAME)) by done.
        rewrite (bool_decide_eq_true_2 (FRAME ∈ FRAME :: ls)) by left.
        rewrite lookup_insert_eq. by destruct (bool_decide _).
      * rewrite (bool_decide_eq_false_2 (l = FRAME)) by done.
        destruct (decide (FRAME ∈ ls)) as [Hin|Hin].
        -- rewrite !bool_decide_eq_true_2; [done|by right|done].
        -- rewrite !bool_decide_eq_false_2; [done| |done].
           intros [?|?]%elem_of_cons; congruence.
    + destruct (_ && _); [|done]. by rewrite lookup_insert_ne.
Qed.

Lemma scan_joint_status acc n (v : VPoint D) k :
  (scan_joint acc (n, v)).1 !! k =
    if decide (k = n) then Some (solved_at_start v) else acc.1 !! k.
Proof.
  unfold scan_joint, solved_at_start. simpl. destruct (links v) as [|l ls] eqn:Hl.
  - simpl. destruct (decide (k = n)) as [->|].
    + by rewrite lookup_insert_eq.
    + by rewrite !lookup_insert_ne.
  - rewrite scan_link_status. simpl. destruct (decide (k = n)) as [->|].
    + rewrite lookup_insert_eq. by destruct (_ && _).
    + by rewrite lookup_insert_ne.
Qed.

Lemma enumerate_snoc {A} (l : list A) a :
  enumerate (l ++ [a]) = enumerate l ++ [(Z.of_nat (length l), a)].
Proof. unfold enumerate. rewrite imap_app. simpl. by rewrite Nat.add_0_r. Qed.

(** The first loop computes [initial_status]. *)
Lemma scan_status (vpoints_ : list (VPoint D)) status_ k :
  (scan vpoints_ (default ∅ status_)).1 !! k = initial_status vpoints_ status_ k.
Proof.
  unfold scan, initial_status.
  induction vpoints_ as [|v l IH] using rev_ind.
  - simpl. by destruct (0 <=? k)%Z.
  - rewrite enumerate_snoc, foldl_app. simpl.
    rewrite scan_joint_status, IH.
    destruct (decide (k = Z.of_nat (length l))) as [->|Hne].
    + rewrite (proj2 (Z.leb_le _ _)) by lia. rewrite Nat2Z.id.
      by rewrite lookup_app_r, Nat.sub_diag by lia.
    + destruct (0 <=? k)%Z eqn:Hk; [|done]. apply Z.leb_le in Hk.
      destruct (decide (Z.to_nat k < length l)) as [Hlt|Hge].
      * by rewrite lookup_app_l by done.
      * rewrite !lookup_ge_None_2; [done| |lia]. rewrite length_app. simpl. lia.
Qed.

Lemma drive_keeps_keys st input st' :
  drive st input = Ok st' → keeps_keys (status st) (status st').
Proof.
  intros (_ & _ & Hrun)%drive_inv. bind_inv Hrun. destruct a; injection Hrun as <-.
  - apply keeps_keys_insert.
  - apply keeps_keys_refl.
Qed.

(** When the main loop starts, the stack is sound and joint 0 has an
    entry in [status]. *)
Lemma prepare_ready vpoints_ inputs status_ vpoints vlinks pos inputs' st :
  prepare vpoints_ inputs status_ = Ok (Ready vpoints vlinks pos inputs' st) →
  sound (scan vpoints_ (default ∅ status_)).1 (status st) (exprs st)
  ∧ is_Some (status st !! 0%Z).
Proof.
  unfold prepare. destruct vpoints_ as [|v l]; [done|].
  destruct (default [] inputs) as [|input il]; [done|].
  pose proof (scan_status (v :: l) status_ 0%Z) as H0.
  destruct (scan (v :: l) (default ∅ status_)) as [status0 vlinks0] eqn:Hscan.
  intros Hrun. do 2 bind_inv Hrun. injection Hrun as <- <- <- <- <-.
  revert Hbind0.
  apply (for_each_ind (λ s, sound status0 (status s) (exprs s) ∧ is_Some (status s !! 0%Z))).
  - simpl. split; [apply sound_start|]. simpl in H0. rewrite H0. by eexists.
  - intros s input' s' _ [Hs H0s] Hd. split.
    + by eapply drive_sound.
    + by eapply drive_keeps_keys.
Qed.

Lemma t_config_fuel_sound (fuel : nat) (vpoints_ : list (VPoint D))
    (inputs : option (list (Z * Z))) (status_ : option (gmap Z bool))
    (stk : EStack) (status' : gmap Z bool) :
  t_config_fuel fuel vpoints_ inputs status_ = Some (Ok (stk, status')) →
  stk = [] ∨ sound (scan vpoints_ (default ∅ status_)).1 status' stk.
Proof.
  unfold t_config_fuel.
  destruct (prepare vpoints_ inputs status_) as [[s|vps vl ps inp st]|e] eqn:Hprep; [| |done].
  - intros [= <- <-]. by left.
  - apply prepare_ready in Hprep as [Hs _].
    destruct (sweep _ _ _ _ _ _ _) as [[st'|?]|] eqn:Hsweep; [|done..].
    intros [= <- <-]. right. by eapply sweep_sound.
Qed.

Lemma t_config_fuel_ends (vpoints_ : list (VPoint D))
    (inputs : option (list (Z * Z))) (status_ : option (gmap Z bool)) :
  ∃ r, ∀ fuel, t_config_bound vpoints_ inputs status_ ≤ fuel →
       t_config_fuel fuel vpoints_ inputs status_ = Some r.
Proof.
  unfold t_config_fuel, t_config_bound.
  destruct (prepare vpoints_ inputs status_) as [[s|vps vl ps inp st]|e] eqn:Hprep;
    [by eexists|  |by eexists].
  apply prepare_ready in Hprep as [_ H0].
  destruct (sweep_terminates vps vl ps inp (Z.of_nat (size (status st)))
              (sweep_bound (Z.of_nat (size (status st))) st) st H0) as [r Hr]; [done|].
  exists (match r with Ok st' => Ok (exprs st', status st') | Raise e => Raise e end).
  intros fuel Hfuel. rewrite (sweep_more_fuel _ _ _ _ _ _ _ _ _ Hr Hfuel).
  by destruct r.
Qed.

End Prepare.

(** ** [t_config] *)

Import Exact.

Section Runs.
Context {D : Type} `{!CDouble D} `{!Libm D}.

(** The runs of the examples.  The orientation tests decide the order
    of two operands and the branch of the PLPP, nothing else. *)
Lemma slider_crank_run :
  ∃ fb fc op,
    t_config slider_crank (Some [(0, 1)%Z]) None
    = Some (Ok (slider_crank_stack fb fc op,
                {[ 0%Z := true; 1%Z := true; 2%Z := true ]})).
Proof. vm_compute. by eexists _, _, _. Qed.

Lemma interrupted_run :
  ∃ fa fb,
    t_config interrupted (Some [(2, 5)%Z]) None
    = Some (Ok (interrupted_stack fa fb, interrupted_status)).
Proof. vm_compute. by eexists _, _. Qed.

End Runs.

Lemma slider_crank_stack_reads_unsolved fb fc op :
  ¬ spec_operands_known [(0, 1)%Z] (slider_crank_stack fb fc op).
Proof.
  intros Hspec. unfold slider_crank_stack, add_plpp, add_pllp, add_pla in Hspec.
  simpl in Hspec.
  match type of Hspec with
  | spec_operands_known _ [?e1; ?e2; ?e3] =>
      destruct (Hspec [e1; e2] e3 [] 2%Z eq_refl) as [Hin|(e' & Hin & Ht)]
  end.
  - simpl. apply elem_of_cons. right. left.
  - simpl in Hin. by apply list_elem_of_singleton in Hin.
  - apply elem_of_cons in Hin as [->|Hin]; [done|].
    apply list_elem_of_singleton in Hin as ->. done.
Qed.

(** C1, as stated: fails.  In the stack of the slider-crank the PLPP
    that places the RP joint 2 reads the point of joint 2 itself, which
    is neither the driver (joint 0) nor the target of an earlier
    construction. *)
Lemma t_config_reads_unsolved_joint :
  ∃ stk status',
    t_config (D := Reals.Rdefinitions.R) slider_crank (Some [(0, 1)%Z]) None
    = Some (Ok (stk, status'))
    ∧ ¬ spec_operands_known [(0, 1)%Z] stk.
Proof.
  destruct (slider_crank_run (D := Reals.Rdefinitions.R)) as (fb & fc & op & Hrun).
  eexists _, _. split; [exact Hrun|]. apply slider_crank_stack_reads_unsolved.
Qed.

(** C1, amended.  In the stack [t_config] returns, every point that
    is the target of a construction is marked solved in [status]; every
    point operand of a PLA, of a PXY and of the PLLP of an R joint, and
    the first operand of every PLPP, is a joint that was solved before
    the first construction ([initial_status]: a joint without links, an
    R joint on the ground link, or an entry outside the joints that the
    caller passed as true) or is the target of an earlier construction;
    and the synthetic point a PLPP reads is the target of the PLLP just
    before it.  Nothing is said of the operands of that PLLP nor of the
    second operand of the PLPP. *)
Theorem t_config_stack_sound {D : Type} `{!CDouble D} `{!Libm D}
    {index_order : IndexOrder} (fuel : nat) (vpoints_ : list (VPoint D)) (inputs : option (list (Z * Z)))
    (status_ : option (gmap Z bool)) (stk : EStack) (status' : gmap Z bool) :
  t_config_fuel fuel vpoints_ inputs status_ = Some (Ok (stk, status')) →
  (∀ e n, e ∈ stk → target e = (P_LABEL, n) → status' !! n = Some true)
  ∧ (∀ pre e post n,
       stk = pre ++ e :: post → (P_LABEL, n) ∈ checked_operands e →
       known (initial_status vpoints_ status_) pre n)
  ∧ (∀ pre e post,
       stk = pre ++ e :: post → func e = PLPP →
       ∃ pre' e', pre = pre' ++ [e'] ∧ func e' = PLLP ∧ target e' = c3 e).
Proof.
  intros [->|[Ht Hm Ho Hp]]%t_config_fuel_sound.
  - split; [by intros ?? ?%elem_of_nil|]. split; by intros [|??].
  - split; [done|]. split; [|done].
    intros pre e post n Heq Hin. destruct (Ho pre e post n Heq Hin) as [H0|?]; [|by right].
    left. by rewrite <- scan_status.
Qed.

Lemma t_config_stack_sound_witness :
  ∃ stk status',
    t_config (D := Reals.Rdefinitions.R) slider_crank (Some [(0, 1)%Z]) None
    = Some (Ok (stk, status'))
    ∧ length stk = 3%nat
    ∧ (∀ e n, e ∈ stk → target e = (P_LABEL, n) → status' !! n = Some true)
    ∧ (∀ pre e post n,
         stk = pre ++ e :: post → (P_LABEL, n) ∈ checked_operands e →
         known (initial_status (D := Reals.Rdefinitions.R) slider_crank None) pre n)
    ∧ (∀ pre e post,
         stk = pre ++ e :: post → func e = PLPP →
         ∃ pre' e', pre = pre' ++ [e'] ∧ func e' = PLLP ∧ target e' = c3 e).
Proof.
  destruct (slider_crank_run (D := Reals.Rdefinitions.R)) as (fb & fc & op & Hrun).
  eexists _, _. split; [exact Hrun|]. split; [reflexivity|].
  exact (t_config_stack_sound _ _ _ _ _ _ Hrun).
Defined.

(** [t_config] returns for every list of joints, every list of input
    pairs and every dictionary: the turns [t_config_bound] counts are
    enough for the main loop, which ends with every entry solved or
    with [skip_times] at the number of entries. *)
Lemma t_config_terminates {D : Type} `{!CDouble D} `{!Libm D}
    {index_order : IndexOrder} (vpoints_ : list (VPoint D)) (inputs : option (list (Z * Z)))
    (status_ : option (gmap Z bool)) :
  (∃ r, t_config vpoints_ inputs status_ = Some r
        ∧ ∀ fuel, t_config_bound vpoints_ inputs status_ ≤ fuel →
                  t_config_fuel fuel vpoints_ inputs status_ = Some r)
  ∧ (∀ vpoints vlinks pos inputs' st fuel st',
       prepare vpoints_ inputs status_ = Ok (Ready vpoints vlinks pos inputs' st) →
       sweep vpoints vlinks pos inputs' (Z.of_nat (size (status st))) fuel st
       = Some (Ok st') →
       _is_all_lock (status st') = true ∨ (Z.of_nat (size (status st)) ≤ skip_times st')%Z).
Proof.
  split.
  - destruct (t_config_fuel_ends vpoints_ inputs status_) as [r Hr].
    exists r. split; [by apply Hr|done].
  - intros ??????? _. apply sweep_exit.
Qed.

(** C9. With no joints, or with no input pairs ([None] or an empty
    list), [t_config] returns the empty stack and the dictionary the
    caller passed, as it was passed. *)
Theorem t_config_early_return {D : Type} `{!CDouble D} `{!Libm D}
    {index_order : IndexOrder} (fuel : nat) (vpoints_ : list (VPoint D)) (inputs : option (list (Z * Z)))
    (status : gmap Z bool) :
  vpoints_ = [] ∨ inputs = None ∨ inputs = Some [] →
  t_config_fuel fuel vpoints_ inputs (Some status) = Some (Ok ([], status))
  ∧ t_config vpoints_ inputs (Some status) = Some (Ok ([], status)).
Proof.
  intros Hearly.
  assert (prepare vpoints_ inputs (Some status) = Ok (Early status)) as Hprep.
  { unfold prepare. destruct Hearly as [->|[->| ->]]; [done| |]; by destruct vpoints_. }
  unfold t_config, t_config_fuel. by rewrite Hprep.
Qed.

Lemma t_config_early_return_witness :
  let status : gmap Z bool := {[ 7%Z := false ]} in
  t_config (D := Reals.Rdefinitions.R) fourbar None (Some status) = Some (Ok ([], status))
  ∧ t_config (D := Reals.Rdefinitions.R) fourbar (Some []) (Some status)
    = Some (Ok ([], status))
  ∧ t_config (D := Reals.Rdefinitions.R) [] (Some [(0, 2)%Z]) (Some status)
    = Some (Ok ([], status)).
Proof.
  intros status. split; [|split].
  - exact (proj2 (t_config_early_return 0 fourbar None status (or_intror (or_introl eq_refl)))).
  - exact (proj2 (t_config_early_return 0 fourbar (Some []) status
                    (or_intror (or_intror eq_refl)))).
  - exact (proj2 (t_config_early_return 0 [] (Some [(0, 2)%Z]) status (or_introl eq_refl))).
Defined.

(** C2, at the six joints of [interrupted] with the input (2, 5).  The
    main loop starts with six entries in [status].  It breaks at joint
    4 with [skip_times] at 6, joint 4 unsolved, and the PLA that solved
    joint 5 as the last construction on the stack; yet the production
    for joint 4, run from the very state the loop broke in, finds the
    solved friends 2 and 5 and emits the PLLP that solves joint 4.  The
    PLA inside the loop did not reset [skip_times], as the other three
    productions do, so the loop gave up four visits after it. *)
Theorem sweep_breaks_at_solvable_joint {D : Type} `{!CDouble D} `{!Libm D} :
  ∃ vpoints vlinks pos st0 st fa fb,
    prepare interrupted (Some [(2, 5)%Z]) None = Ok (Ready vpoints vlinks pos [(2, 5)%Z] st0)
    ∧ size (status st0) = 6%nat
    ∧ sweep vpoints vlinks pos [(2, 5)%Z] 6 (sweep_bound 6 st0) st0 = Some (Ok st)
    ∧ exprs st = interrupted_stack fa fb
    ∧ status st = interrupted_status
    ∧ node st = 4%Z
    ∧ skip_times st = 6%Z
    ∧ _get_reliable_friend 4 vpoints vlinks (status st) = Ok [2%Z; 5%Z]
    ∧ ∃ st', visit_R vpoints vlinks pos [(2, 5)%Z] st = Ok st'
             ∧ length (exprs st') = 3%nat
             ∧ (target <$> last (exprs st')) = Some (P_LABEL, 4%Z)
             ∧ status st' !! 4%Z = Some true.
Proof.
  eexists _, _, _, _, _, _, _.
  split; [vm_compute; reflexivity|].
  split; [vm_compute; reflexivity|].
  split; [vm_compute; reflexivity|].
  split; [vm_compute; reflexivity|].
  split; [vm_compute; reflexivity|].
  split; [vm_compute; reflexivity|].
  split; [vm_compute; reflexivity|].
  split; [vm_compute; reflexivity|].
  eexists. split; [vm_compute; reflexivity|].
  split; [vm_compute; reflexivity|].
  split; vm_compute; reflexivity.
Qed.

(** ** [SolverSystem] *)

Section SolverFacts.
Context {D : Type} `{!CDouble D} `{!Libm D} {index_order : IndexOrder}.
Import SolverSystem.

Lemma same_points_from_prefix (self : SolverSystem.t D) (k : nat) (vpoints_ : list (VPoint D)) :
  (∀ i p1, vpoints_ !! i = Some p1 →
           ∃ p2, vpoints self !! (k + i)%nat = Some p2 ∧ links p1 = links p2) →
  same_points_from self (Z.of_nat k) vpoints_ = Ok true.
Proof.
  revert k. induction vpoints_ as [|p1 rest IH]; intros k Hall; [done|]. simpl.
  destruct (Hall 0%nat p1 eq_refl) as (p2 & Hp2 & Hl).
  rewrite Nat.add_0_r in Hp2. rewrite (getitem_list_Ok _ _ _ Hp2). simpl.
  rewrite bool_decide_eq_false_2 by (by intros ?).
  replace (Z.of_nat k + 1)%Z with (Z.of_nat (S k)) by lia.
  apply IH. intros i p Hi. specialize (Hall (S i) p Hi).
  by replace (S k + i)%nat with (k + S i)%nat by lia.
Qed.

Lemma angle_constraints_foldl (items : odict (Z * Z) D) acc :
  foldl (λ inputs_angle item,
      if (item.1.1 =? item.1.2)%Z then inputs_angle
      else inputs_angle ++ [_radians item.2]) acc items
  = acc ++ (_radians <$> (filter nondegenerate items).*2).
Proof.
  revert acc. induction items as [|item items IH]; intros acc; simpl.
  - by rewrite app_nil_r.
  - rewrite IH. rewrite filter_cons.
    destruct (decide (nondegenerate item)) as [Hn|Hn]; unfold nondegenerate in Hn.
    + rewrite (proj2 (Z.eqb_neq _ _) Hn). simpl. by rewrite <- app_assoc.
    + apply dec_stable in Hn. by rewrite (proj2 (Z.eqb_eq _ _) Hn).
Qed.

Lemma angle_constraints_spec (items : odict (Z * Z) D) :
  angle_constraints items = _radians <$> (filter nondegenerate items).*2.
Proof. unfold angle_constraints. by rewrite angle_constraints_foldl. Qed.

Lemma write_angles_spec (items : odict (Z * Z) D) (done_ rest : list D) :
  length rest = length (filter nondegenerate items) →
  write_angles items (length done_) (done_ ++ rest)
  = Ok (done_ ++ (_radians <$> (filter nondegenerate items).*2)).
Proof.
  revert done_ rest. induction items as [|item items IH]; intros done_ rest; simpl.
  - intros ->%nil_length_inv. done.
  - rewrite filter_cons.
    destruct (decide (nondegenerate item)) as [Hn|Hn]; unfold nondegenerate in Hn.
    2:{ apply dec_stable in Hn. rewrite (proj2 (Z.eqb_eq _ _) Hn). apply IH. }
    + rewrite (proj2 (Z.eqb_neq _ _) Hn). simpl. destruct rest as [|r rest]; [done|].
      intros [= Hlen].
      rewrite (proj2 (Nat.ltb_lt _ _)) by (rewrite length_app; simpl; lia).
      replace (<[length done_ := _radians item.2]> (done_ ++ r :: rest))
        with ((done_ ++ [_radians item.2]) ++ rest).
      2:{ rewrite insert_app_r_alt by lia. rewrite Nat.sub_diag. simpl.
          by rewrite <- app_assoc. }
      replace (S (length done_)) with (length (done_ ++ [_radians item.2]))
        by (rewrite length_app; simpl; lia).
      rewrite IH by done. by rewrite <- app_assoc.
Qed.

Lemma dict_set_map {K} `{EqDecision K} {V} (k : K) (v : V) (d : odict K V) :
  NoDup d.*1 → k ∈ d.*1 →
  dict_set k v d = (λ item, if decide (item.1 = k) then (k, v) else item) <$> d.
Proof.
  induction d as [|[k' v'] d IH]; simpl; [by intros _ ?%elem_of_nil|].
  intros [Hk' Hnd]%NoDup_cons Hin. case_bool_decide as Hkk.
  - subst k'. rewrite decide_True by done. f_equal.
    symmetry. rewrite <- (list_fmap_id d) at 2. apply list_fmap_ext.
    intros i [k2 v2] Hi. simpl. rewrite decide_False; [done|].
    intros ->. apply Hk'. apply list_elem_of_fmap. exists (k, v2). split; [done|].
    by eapply list_elem_of_lookup_2.
  - rewrite decide_False by done. f_equal. apply IH; [done|].
    apply elem_of_cons in Hin as [?|?]; [done|done].
Qed.

Lemma dict_update_merge (inputs0 new : odict (Z * Z) D) :
  NoDup inputs0.*1 → NoDup new.*1 → (∀ k, k ∈ new.*1 → k ∈ inputs0.*1) →
  dict_update inputs0 new = merge inputs0 new.
Proof.
  unfold dict_update, merge. revert inputs0.
  induction new as [|[k v] new IH]; intros inputs0 Hnd0 Hnd Hsub; simpl.
  - rewrite <- (list_fmap_id inputs0) at 1. apply list_fmap_ext. by intros i [??] _.
  - apply NoDup_cons in Hnd as [Hk Hnd].
    rewrite dict_set_map by (try done; apply Hsub; left).
    rewrite IH.
    + rewrite <- list_fmap_compose. apply list_fmap_ext. intros i [k2 v2] _. simpl.
      destruct (decide (k2 = k)) as [->|Hne]; simpl.
      * rewrite bool_decide_eq_true_2 by done.
        assert (dict_get k new = None) as ->; [|done].
        clear -Hk. induction new as [|[k' v'] new IH]; [done|]. simpl.
        rewrite bool_decide_eq_false_2.
        -- apply IH. intros ?. apply Hk. by right.
        -- intros ->. apply Hk. by left.
      * by rewrite bool_decide_eq_false_2.
    + rewrite <- list_fmap_compose.
      erewrite list_fmap_ext; [exact Hnd0|]. intros i [k2 v2] _. simpl.
      by destruct (decide (k2 = k)) as [->|].
    + done.
    + intros k0 Hk0. rewrite <- list_fmap_compose.
      erewrite list_fmap_ext; [apply Hsub; by right|]. intros i [k2 v2] _. simpl.
      by destruct (decide (k2 = k)) as [->|].
Qed.

Lemma merge_keys (inputs0 new : odict (Z * Z) D) : (merge inputs0 new).*1 = inputs0.*1.
Proof. unfold merge. rewrite <- list_fmap_compose. by apply list_fmap_ext. Qed.

Lemma filter_nondegenerate_length (d d' : odict (Z * Z) D) :
  d.*1 = d'.*1 → length (filter nondegenerate d) = length (filter nondegenerate d').
Proof.
  revert d'. induction d as [|[k v] d IH]; intros [|[k' v'] d']; try done.
  simpl. intros [= -> Heq]. rewrite !filter_cons.
  destruct (decide (nondegenerate (k', v))) as [Hn|Hn];
    destruct (decide (nondegenerate (k', v'))) as [Hn'|Hn'];
    unfold nondegenerate in Hn, Hn'; simpl in *; try done; auto.
Qed.

Lemma set_inputs_merge (vpoints_ : list (VPoint D)) (inputs0 new : odict (Z * Z) D) :
  NoDup inputs0.*1 → NoDup new.*1 → (∀ k, k ∈ new.*1 → k ∈ inputs0.*1) →
  set_inputs (__cinit__ vpoints_ (Some inputs0)) (Some new)
  = Ok (__cinit__ vpoints_ (Some (merge inputs0 new))).
Proof.
  intros Hnd0 Hnd Hsub. unfold set_inputs, set_inputs_body, __cinit__, show_inputs. simpl.
  rewrite bool_decide_eq_true_2 by (by apply Forall_forall). simpl.
  rewrite dict_update_merge by done. rewrite angle_constraints_spec.
  pose proof (write_angles_spec (merge inputs0 new) []
                (_radians <$> (filter nondegenerate inputs0).*2)) as Hw.
  simpl in Hw. rewrite Hw.
  - simpl. by rewrite angle_constraints_spec.
  - rewrite !length_fmap. apply filter_nondegenerate_length. by rewrite merge_keys.
Qed.

Lemma set_inputs_body_refused (vpoints_ : list (VPoint D))
    (inputs0 new : odict (Z * Z) D) k :
  k ∈ new.*1 → k ∉ inputs0.*1 →
  set_inputs_body (__cinit__ vpoints_ (Some inputs0)) (Some new) = Raise ValueError.
Proof.
  intros Hk Hnk. unfold set_inputs_body, __cinit__, show_inputs. simpl.
  rewrite bool_decide_eq_false_2; [done|].
  intros Hall. rewrite Forall_forall in Hall. auto.
Qed.

Lemma set_inputs_refused (vpoints_ : list (VPoint D)) (inputs0 new : odict (Z * Z) D) k :
  k ∈ new.*1 → k ∉ inputs0.*1 →
  set_inputs (__cinit__ vpoints_ (Some inputs0)) (Some new)
  = Ok (__cinit__ vpoints_ (Some inputs0)).
Proof.
  intros Hk Hnk. unfold set_inputs. by rewrite (set_inputs_body_refused _ _ _ k).
Qed.

(** C4, the rejection: it is attempted and lost.  For a system built
    with the inputs [inputs0] and a dictionary [new] with a key that
    is not a key of [inputs0], the body of [set_inputs] raises
    ValueError before it writes anything, but the call returns as if
    nothing had happened, the system as it was: [set_inputs] is
    declared [cpdef void] without the [except *] that lets an
    exception out. *)
Theorem set_inputs_drops_its_ValueError (vpoints_ : list (VPoint D))
    (inputs0 new : odict (Z * Z) D) :
  (∃ k, k ∈ new.*1 ∧ k ∉ inputs0.*1) →
  set_inputs_body (__cinit__ vpoints_ (Some inputs0)) (Some new) = Raise ValueError
  ∧ set_inputs (__cinit__ vpoints_ (Some inputs0)) (Some new)
    = Ok (__cinit__ vpoints_ (Some inputs0)).
Proof.
  intros (k & Hk & Hnk). split.
  - by apply (set_inputs_body_refused _ _ _ k).
  - by apply (set_inputs_refused _ _ _ k).
Qed.

(** C10. [same_points] answers True as soon as every joint of its
    argument has the links of the stored joint at the same index; the
    stored joints past the end of the argument, and all coordinates,
    play no part. *)
Theorem same_points_checks_argument_links_only (self : SolverSystem.t D)
    (vpoints_ : list (VPoint D)) :
  (∀ i p1, vpoints_ !! i = Some p1 →
           ∃ p2, vpoints self !! i = Some p2 ∧ links p1 = links p2) →
  same_points self vpoints_ = Ok true.
Proof.
  intros Hall. unfold same_points. by rewrite (same_points_from_prefix self 0).
Qed.

End SolverFacts.

Lemma same_points_checks_argument_links_only_witness :
  SolverSystem.same_points
    (SolverSystem.__cinit__ (D := Reals.Rdefinitions.R) fourbar None)
    [c_r_joint "ground, L1" (of_int 5) (of_int 7)]
  = Ok true.
Proof.
  apply same_points_checks_argument_links_only.
  intros [|i] p1 Hi; [|done]. injection Hi as <-. eexists. split; reflexivity.
Defined.

(** The scenario S5 of the specification. *)
Lemma set_inputs_drops_its_ValueError_witness :
  let built :=
    SolverSystem.__cinit__ (D := Reals.Rdefinitions.R) fourbar
      (Some [((0, 1)%Z, of_int 0)]) in
  SolverSystem.set_inputs_body built (Some [((0, 2)%Z, of_int 0)]) = Raise ValueError
  ∧ SolverSystem.set_inputs built (Some [((0, 2)%Z, of_int 0)]) = Ok built.
Proof.
  intros built.
  apply (set_inputs_drops_its_ValueError fourbar
           [((0, 1)%Z, of_int 0)] [((0, 2)%Z, of_int 0)]).
  exists (0, 2)%Z. split; [by left|]. by intros [=]%list_elem_of_singleton.
Defined.


(** ** [VPoint] *)



Module RealArithmetic.
Import Reals.
#[local] Open Scope R_scope.

Lemma Reqb_true a b : Reqb a b = true ↔ a = b.
Proof. unfold Reqb. destruct (Req_dec_T a b); split; intros; congruence. Qed.

Lemma Rltb_true a b : Rltb a b = true ↔ a < b.
Proof. unfold Rltb. destruct (Rlt_dec a b); split; intros; (congruence || lra). Qed.

Lemma Rltb_false a b : Rltb a b = false ↔ b <= a.
Proof. unfold Rltb. destruct (Rlt_dec a b); split; intros; (congruence || lra). Qed.

(** C3, as stated: fails.  From (0,0) to (1,0) to (1,1) is a turn to
    the left; the cross product of the two steps is 1, and [_clockwise]
    answers false. *)
Lemma clockwise_is_not_cross_nonnegative :
  cross (vec (0, 0) (1, 0)) (vec (1, 0) (1, 1)) = 1
  ∧ _clockwise (0, 0) (1, 0) (1, 1) = false.
Proof.
  split.
  - unfold cross, vec. simpl. lra.
  - unfold _clockwise. cbn [dsub dmul deqb dltb of_int R_CDouble fst snd].
    apply orb_false_intro.
    + apply not_true_is_false. rewrite Reqb_true. lra.
    + apply Rltb_false. lra.
Qed.

(** C3, amended.  [_clockwise] answers true exactly when the cross
    product of [c2 - c1] and [c3 - c2] is zero or negative: a turn to
    the right, or no turn. *)
Theorem clockwise_iff_cross_nonpositive (c1 c2 c3 : R * R) :
  _clockwise c1 c2 c3 = true ↔ cross (vec c1 c2) (vec c2 c3) <= 0.
Proof.
  unfold _clockwise, cross, vec.
  cbn [dsub dmul deqb dltb of_int R_CDouble fst snd].
  rewrite orb_true_iff, Reqb_true, Rltb_true. lra.
Qed.


Section Distances.
Context {order : NameOrder}.

(** What stands of C6 under every listing of the shared links:
    [distance] is never negative, and it is symmetric when the two
    calls find the same link first. *)
Lemma distance_nonnegative (a b : VPoint R) : 0 <= distance a b.
Proof.
  unfold distance. destruct (match on_links a b with [] => _ | _ => _ end) as [m q].
  cbn. apply sqrt_pos.
Qed.

Lemma distance_symmetric_same_first (a b : VPoint R) :
  head (on_links a b) = head (on_links b a) → distance a b = distance b a.
Proof.
  unfold distance.
  destruct (on_links a b) as [|l0 ?], (on_links b a) as [|l1 ?]; try done.
  - intros _. cbn. f_equal. ring.
  - intros [= <-].
    destruct (VJoint.eqb (type a) VJoint.R || bool_decide (head (links a) = Some l0)),
      (VJoint.eqb (type b) VJoint.R || bool_decide (head (links b) = Some l0));
      cbn; f_equal; ring.
Qed.

End Distances.

(** C6, at a P joint on the links L1 and L2, its slot anchor at (0,0)
    and its pin at (3,4), and an R joint at (6,8) that names the same
    links the other way round.  When each call lists the shared names
    in the order of the links of its argument, the first call finds
    L2 first and measures from the pin, the second finds L1 first and
    measures from the slot anchor: 5 one way, 10 the other. *)
Theorem distance_follows_the_listing_of_the_shared_links :
  let a : VPoint R :=
    move (c_slider_joint "L1, L2" VJoint.P 0 0 0) (0, 0) (Some (3, 4)) in
  let b : VPoint R := c_r_joint "L2, L1" 6 8 in
  on_links (order := names_by_second) a b = ["L2"; "L1"]
  ∧ on_links (order := names_by_second) b a = ["L1"; "L2"]
  ∧ distance (order := names_by_second) a b = 5
  ∧ distance (order := names_by_second) b a = 10.
Proof.
  intros a b.
  assert (on_links (order := names_by_second) a b = ["L2"; "L1"]) as Hab
    by (vm_compute; reflexivity).
  assert (on_links (order := names_by_second) b a = ["L1"; "L2"]) as Hba
    by (vm_compute; reflexivity).
  split; [done|]. split; [done|]. unfold distance. rewrite Hab, Hba.
  assert (links a = ["L1"; "L2"]) as -> by (vm_compute; reflexivity).
  assert (links b = ["L2"; "L1"]) as -> by (vm_compute; reflexivity).
  change (type a) with VJoint.P. change (type b) with VJoint.R.
  change (c a) with ((0, 0), (3, 4)). change (c b) with ((6, 8), (6, 8)).
  replace (VJoint.eqb VJoint.P VJoint.R) with false by reflexivity.
  replace (VJoint.eqb VJoint.R VJoint.R) with true by reflexivity.
  rewrite (bool_decide_eq_false_2 (Some "L1" = Some "L2")) by done.
  rewrite (bool_decide_eq_true_2 (Some "L1" = Some "L1")) by done.
  cbn. split.
  - replace ((6 - 3) * (6 - 3) + (8 - 4) * (8 - 4)) with (5 * 5) by ring.
    apply sqrt_square. lra.
  - replace ((0 - 6) * (0 - 6) + (0 - 8) * (0 - 8)) with (10 * 10) by ring.
    apply sqrt_square. lra.
Qed.

Lemma Rfmod_180 a :
  (0 <= a → 0 <= Rfmod a 180 < 180) ∧ (a < 0 → -180 < Rfmod a 180 <= 0).
Proof.
  unfold Rfmod, Rtrunc. split; intros Ha.
  - destruct (Rle_dec 0 (a / 180)) as [_|n]; [|exfalso; apply n; lra].
    destruct (base_Int_part (a / 180)) as [H1 H2]. lra.
  - destruct (Rle_dec 0 (a / 180)) as [n|_]; [exfalso; lra|].
    destruct (base_Int_part (- (a / 180))) as [H1 H2].
    rewrite opp_IZR. lra.
Qed.

(** In exact arithmetic [rotate] leaves an angle from 0 up to, and
    not including, 180. *)
Lemma rotate_range_exact (v : VPoint R) (a : R) :
  0 <= angle (rotate v a) < 180.
Proof.
  unfold rotate, mod_double. cbn [angle fmod dadd dmul deqb dltb of_int R_CDouble].
  destruct (Rfmod_180 a) as [Hp Hn].
  destruct (Rle_dec 0 a) as [Ha|Ha].
  - specialize (Hp Ha).
    replace (Rltb (Rfmod a 180) 0) with false by (symmetry; apply Rltb_false; lra).
    replace (Rltb 180 0) with false by (symmetry; apply Rltb_false; lra).
    rewrite andb_false_r. cbn. lra.
  - assert (a < 0) as Ha' by lra. specialize (Hn Ha').
    replace (Rltb 180 0) with false by (symmetry; apply Rltb_false; lra).
    unfold Reqb. destruct (Req_dec_T (Rfmod a 180) 0) as [E|E]; cbn.
    + lra.
    + replace (Rltb (Rfmod a 180) 0) with true by (symmetry; apply Rltb_true; lra).
      cbn. lra.
Qed.

End RealArithmetic.

Module Binary64Arithmetic.
Import Floats Binary64.

(** C7, in binary64: fails.  For the angle [-2^-60], [fmod] returns
    the angle itself, and adding 180 to it rounds to 180: [rotate]
    stores 180, which is not below 180. *)
Theorem rotate_tiny_negative_gives_180 (v : VPoint float) :
  angle (rotate v tiny_negative) = of_int 180
  ∧ PrimFloat.ltb (angle (rotate v tiny_negative)) (of_int 180) = false
  ∧ PrimFloat.ltb tiny_negative (of_int 0) = true.
Proof. unfold rotate. cbn [angle]. vm_compute. done. Qed.

End Binary64Arithmetic.

(** * Further properties *)

(** ** Link names and copies of a joint *)

Lemma append_cons a (s t : string) : String a s +:+ t = String a (s +:+ t).
Proof. reflexivity. Qed.

Lemma append_snoc_assoc (s : string) ch (t : string) :
  (s +:+ String ch "") +:+ t = s +:+ String ch t.
Proof. induction s as [|a s IH]; [done|]. rewrite !append_cons. by f_equal. Qed.

Lemma append_empty_r (s : string) : s +:+ "" = s.
Proof. induction s as [|a s IH]; [done|]. rewrite append_cons. by f_equal. Qed.

Lemma name_chars_app s t : name_chars (s +:+ t) = name_chars s && name_chars t.
Proof.
  induction s as [|a s IH]; [done|]. rewrite append_cons. simpl. rewrite IH.
  by rewrite !andb_assoc.
Qed.

Lemma split_names_name s rest cur :
  name_chars s = true → split_names (s +:+ rest) cur = split_names rest (cur +:+ s).
Proof.
  revert cur. induction s as [|ch s IH]; intros cur Hs.
  - by rewrite append_empty_r.
  - rewrite append_cons. simpl in *.
    apply andb_true_iff in Hs as [[H1 H2]%andb_true_iff Hs].
    apply negb_true_iff in H1, H2. rewrite H1, H2.
    rewrite IH by done. by rewrite append_snoc_assoc.
Qed.

Lemma split_names_link_names s cur :
  name_chars cur = true → Forall (λ name, link_name name = true) (split_names s cur).
Proof.
  revert cur. induction s as [|ch s IH]; intros cur Hcur; simpl.
  - case_bool_decide as He; [constructor|]. constructor; [|constructor].
    unfold link_name. by rewrite bool_decide_eq_false_2, Hcur.
  - case_bool_decide as Hsp; [by apply IH|].
    case_bool_decide as Hco.
    + apply Forall_app. split; [|by apply IH].
      case_bool_decide as He; [constructor|]. constructor; [|constructor].
      unfold link_name. by rewrite bool_decide_eq_false_2, Hcur.
    + apply IH. rewrite name_chars_app, Hcur. simpl.
      by rewrite !bool_decide_eq_false_2.
Qed.

Lemma split_names_join names :
  Forall (λ name, link_name name = true) names →
  split_names (join ", " names) "" = names.
Proof.
  induction 1 as [|name names Hname Hnames IH]; [done|].
  unfold link_name in Hname. apply andb_true_iff in Hname as [Hne Hch].
  apply negb_true_iff, bool_decide_eq_false in Hne.
  destruct names as [|name' names].
  - simpl. rewrite <- (append_empty_r name) at 1.
    rewrite split_names_name by done. simpl. by rewrite bool_decide_eq_false_2.
  - change (join ", " (name :: name' :: names))
      with (name +:+ ", " +:+ join ", " (name' :: names)).
    rewrite split_names_name by done.
    change ("" +:+ name) with name.
    change (", " +:+ ?s) with (String "," (String " " s)).
    cbn [split_names]. 
    rewrite (bool_decide_eq_false_2 (","%char = " "%char)) by done.
    rewrite (bool_decide_eq_true_2 (","%char = ","%char)) by done.
    rewrite (bool_decide_eq_false_2 (name = "")) by done.
    rewrite (bool_decide_eq_true_2 (" "%char = " "%char)) by done.
    by rewrite IH.
Qed.

Section JointFacts.
Context {D : Type} `{!CDouble D} `{!Libm D} {index_order : IndexOrder}.

(** X1. The link names [VPoint.__cinit__] keeps of the string it is
    given are not empty and hold no blank and no comma; joined by
    ", " and split again they are the same names. *)
Theorem cinit_keeps_clean_link_names (links_ : string) (x_ y_ : D) :
  Forall (λ name, link_name name = true) (links (c_r_joint links_ x_ y_))
  ∧ split_names (join ", " (links (c_r_joint links_ x_ y_))) ""
    = links (c_r_joint links_ x_ y_).
Proof.
  assert (Forall (λ name, link_name name = true) (split_names links_ "")) as Hn
    by (by apply split_names_link_names).
  split; [done|]. simpl. by apply split_names_join.
Qed.

(** X2. A copy of a joint whose link names are clean has the links,
    the type, the angle, the original and the current coordinates of
    the joint; the offset is not copied: the copy has none. *)
Theorem copy_keeps_joint_drops_offset (v : VPoint D) :
  Forall (λ name, link_name name = true) (links v) →
  links (__copy__ v) = links v
  ∧ type (__copy__ v) = type v
  ∧ angle (__copy__ v) = angle v
  ∧ x (__copy__ v) = x v
  ∧ y (__copy__ v) = y v
  ∧ (∀ i, c_get (__copy__ v) i = c_get v i)
  ∧ has_offset (__copy__ v) = false
  ∧ offset (__copy__ v) = 0%dbl.
Proof.
  intros Hnames. unfold __copy__, pin_slot. simpl. rewrite split_names_join by done.
  repeat (split; [done|]). split; [|done].
  intros i. unfold c_get. simpl. destruct (is_slider (type v)); simpl; [|done].
  by destruct (c v) as [??].
Qed.

(** X3. A copy of a joint none of whose coordinates is a NaN compares
    equal to its original under [==] and not under [!=], also when
    the original has an offset, which the comparison does not read;
    each of the four ordering comparisons raises TypeError. *)
Theorem copy_compares_equal (v : VPoint D) (o : D) :
  self_equal v = true →
  Forall (λ name, link_name name = true) (links v) →
  __richcmp__ (__copy__ v) v Py_EQ = Ok true
  ∧ __richcmp__ (__copy__ v) v Py_NE = Ok false
  ∧ __richcmp__ (__copy__ (set_offset v o)) v Py_EQ = Ok true
  ∧ ∀ op, op ≠ Py_EQ → op ≠ Py_NE → __richcmp__ (__copy__ v) v op = Raise TypeError.
Proof.
  intros Hself Hnames. unfold self_equal, tuple_eqb in Hself.
  apply andb_true_iff in Hself as [Hself Hc2].
  apply andb_true_iff in Hself as [Hself Hc1].
  apply andb_true_iff in Hself as [Hself Ha].
  apply andb_true_iff in Hself as [Hx Hy].
  apply andb_true_iff in Hc1 as [Hc11 Hc12].
  assert (∀ w : VPoint D, links w = links v → type w = type v → x w = x v → y w = y v →
            angle w = angle v → c w = c v →
            __richcmp__ (__copy__ w) v Py_EQ = Ok true
            ∧ __richcmp__ (__copy__ w) v Py_NE = Ok false) as Hw.
  { intros w Hl Ht Hx' Hy' Ha' Hc.
    unfold __richcmp__, __copy__, pin_slot, slot_eqb, tuple_eqb. simpl.
    rewrite Hl, Ht, Hx', Hy', Ha', Hc, split_names_join by done.
    rewrite Hx, Hy, Ha, Hc11, Hc12. unfold VJoint.eqb.
    rewrite (bool_decide_eq_true_2 (links v = links v)) by done.
    rewrite (bool_decide_eq_true_2 (type v = type v)) by done.
    rewrite (bool_decide_eq_false_2 (links v ≠ links v)) by (by intros ?).
    destruct (is_slider (type v)); simpl; [|done].
    apply andb_true_iff in Hc2 as [Hc21 Hc22]. by rewrite Hc21, Hc22. }
  destruct (Hw v) as [-> ->]; try done.
  destruct (Hw (set_offset v o)) as [-> _]; try done.
  split_and!; try done. by intros [].
Qed.

(** X4. A joint without links is not grounded, in neither sense.  An
    R joint whose ground link is past the first place is grounded as
    well as pin-grounded.  A P or RP joint is grounded exactly when
    its slot link, the first, is the ground; [is_slot_link] is never
    true of an R joint. *)
Theorem grounded_cases (v : VPoint D) :
  (no_link v = true → grounded v = false ∧ pin_grounded v = false)
  ∧ (type v = VJoint.R → pin_grounded v = true → grounded v = true)
  ∧ (type v ≠ VJoint.R →
       grounded v = is_slot_link v FRAME
       ∧ (grounded v = true ↔ head (links v) = Some FRAME))
  ∧ (∀ name, is_slot_link v name = true → type v ≠ VJoint.R ∧ head (links v) = Some name).
Proof.
  unfold no_link, grounded, pin_grounded, is_slot_link, FRAME.
  split; [|split; [|split]].
  - destruct (links v); [|done]. intros _. split; [by destruct (type v)|].
    apply bool_decide_eq_false_2. simpl. by intros ?%elem_of_nil.
  - intros -> Hp. apply bool_decide_eq_true in Hp. apply bool_decide_eq_true_2.
    by eapply subseteq_drop.
  - intros Ht. destruct (type v); [done| |];
      (destruct (links v) as [|l0 ls]; simpl;
       [split; [done|by split]
       |split; [done|]; rewrite bool_decide_eq_true; split; [by intros <-|by intros [= ->]]]).
  - intros name. destruct (type v); [done| |];
      (destruct (links v) as [|l0 ls]; [done|];
       intros ->%bool_decide_eq_true; by split).
Qed.

End JointFacts.

Module Binary64Joints.
Import Floats Binary64.

(** In binary64, at a P joint that was moved. *)
Lemma copy_compares_equal_witness :
  let v : VPoint float :=
    move (c_slider_joint "ground, L1" VJoint.P (of_int 30) (of_int 4) (of_int 3))
      (of_int 5, of_int 6) (Some (of_int 7, of_int 8)) in
  __richcmp__ (__copy__ v) v Py_EQ = Ok true
  ∧ __richcmp__ (__copy__ v) v Py_NE = Ok false
  ∧ __richcmp__ (__copy__ (set_offset v (of_int 2))) v Py_EQ = Ok true
  ∧ ∀ op, op ≠ Py_EQ → op ≠ Py_NE → __richcmp__ (__copy__ v) v op = Raise TypeError.
Proof.
  intros v. apply (copy_compares_equal v (of_int 2)).
  - vm_compute. reflexivity.
  - vm_compute. repeat constructor.
Defined.

End Binary64Joints.

Lemma copy_keeps_joint_drops_offset_witness :
  let v : VPoint Reals.Rdefinitions.R :=
    set_offset
      (move (c_slider_joint "ground, L1" VJoint.RP (of_int 30) (of_int 4) (of_int 3))
         (of_int 5, of_int 6) (Some (of_int 7, of_int 8)))
      (of_int 2) in
  links (__copy__ v) = ["ground"; "L1"]
  ∧ c_get (__copy__ v) 1 = Ok (of_int 7, of_int 8)
  ∧ has_offset v = true ∧ has_offset (__copy__ v) = false.
Proof.
  intros v.
  pose proof (copy_keeps_joint_drops_offset v) as H.
  assert (Forall (λ name, link_name name = true) (links v)) as Hn
    by (repeat constructor).
  destruct (H Hn) as (H1 & _ & _ & _ & _ & H6 & H7 & _).
  split; [exact H1|]. split; [exact (H6 1%Z)|]. split; [reflexivity|exact H7].
Defined.

(** ** Joints in exact arithmetic *)

Module RealJoints.
Import Reals RealArithmetic.
#[local] Open Scope R_scope.

Lemma hypot_0 : hypot (D := R) 0 0 = 0.
Proof. cbn. replace (0 * 0 + 0 * 0) with 0 by ring. apply sqrt_0. Qed.

Section Distances.
Context {order : NameOrder}.

(** X5. In exact arithmetic the distance from a joint to itself is 0,
    of whatever type the joint is and in whatever order its links are
    listed. *)
Theorem distance_to_itself_is_zero (a : VPoint R) : distance a a = 0.
Proof.
  unfold distance. destruct (on_links a a) as [|l0 ?].
  - cbn [fst snd dsub R_CDouble]. rewrite !Rminus_diag. apply hypot_0.
  - destruct (_ || _); cbn [fst snd dsub R_CDouble]; rewrite !Rminus_diag; apply hypot_0.
Qed.

Lemma distance_R (a b : VPoint R) :
  type a = VJoint.R → type b = VJoint.R →
  distance a b = sqrt (((c b).1.1 - (c a).1.1) * ((c b).1.1 - (c a).1.1)
                       + ((c b).1.2 - (c a).1.2) * ((c b).1.2 - (c a).1.2)).
Proof.
  intros Ha Hb. unfold distance. rewrite Ha, Hb.
  destruct (on_links a b); reflexivity.
Qed.

(** X6. In exact arithmetic the distance between R joints obeys the
    triangle inequality and is 0 exactly when their current
    coordinates are the same, whatever links they share and in
    whatever order these are listed. *)
Theorem distance_of_R_joints_is_a_metric (a b p : VPoint R) :
  type a = VJoint.R → type b = VJoint.R → type p = VJoint.R →
  distance a p <= distance a b + distance b p
  ∧ (distance a b = 0 ↔ (c a).1 = (c b).1).
Proof.
  intros Ha Hb Hp. rewrite !distance_R by done. split.
  - pose proof (Rgeom.triangle (c p).1.1 (c p).1.2 (c a).1.1 (c a).1.2
                  (c b).1.1 (c b).1.2) as Ht.
    unfold Rgeom.dist_euc, Rsqr in Ht. rewrite (Rplus_comm (sqrt _) (sqrt _)). exact Ht.
  - destruct (c a) as [[ax ay] ?], (c b) as [[bx by_] ?]. simpl. split.
    + intros H0.
      pose proof (Rle_0_sqr (bx - ax)) as Hx. pose proof (Rle_0_sqr (by_ - ay)) as Hy.
      unfold Rsqr in Hx, Hy.
      apply sqrt_eq_0 in H0; [|lra].
      assert ((bx - ax) * (bx - ax) = 0) as Hx0 by lra.
      assert ((by_ - ay) * (by_ - ay) = 0) as Hy0 by lra.
      apply Rmult_integral in Hx0, Hy0. f_equal; lra.
    + intros [= -> ->]. rewrite !Rminus_diag.
      replace (0 * 0 + 0 * 0) with 0 by ring. apply sqrt_0.
Qed.

End Distances.

Lemma distance_of_R_joints_is_a_metric_witness :
  let a : VPoint R := c_r_joint "ground, L1" 0 0 in
  let b : VPoint R := c_r_joint "L1, L2" 3 4 in
  let p : VPoint R := c_r_joint "L2" 3 0 in
  distance (order := names_by_second) a p
  <= distance (order := names_by_second) a b + distance (order := names_by_second) b p.
Proof.
  intros a b p.
  exact (proj1 (distance_of_R_joints_is_a_metric a b p eq_refl eq_refl eq_refl)).
Defined.

(** [rotate] in exact arithmetic: the stored angle is the argument
    less a whole number of half turns. *)
Lemma mod_double_180 (a : R) :
  ∃ k : Z, mod_double a 180 = a - 180 * IZR k ∧ 0 <= mod_double a 180 < 180.
Proof.
  pose proof (rotate_range_exact (c_r_joint "" 0 0) a) as Hr.
  unfold rotate in Hr. cbn [angle] in Hr.
  unfold mod_double in *. cbn [fmod dadd dmul deqb dltb of_int R_CDouble] in *.
  destruct (negb _ && _).
  - exists (Rtrunc (a / 180) - 1)%Z. split; [|exact Hr].
    unfold Rfmod. rewrite minus_IZR. cbn. lra.
  - exists (Rtrunc (a / 180)). split; [|exact Hr]. unfold Rfmod. cbn. lra.
Qed.

Lemma mod_double_180_unique (a b : R) (k : Z) :
  a = b + 180 * IZR k → mod_double a 180 = mod_double b 180.
Proof.
  intros Hab.
  destruct (mod_double_180 a) as (ka & Ha & Hra).
  destruct (mod_double_180 b) as (kb & Hb & Hrb).
  assert (IZR (kb + k - ka) = 0) as Hz.
  { assert (-1 < IZR (kb + k - ka) < 1) as Hlt.
    { rewrite minus_IZR, plus_IZR. lra. }
    destruct Hlt as [H1 H2]. f_equal.
    assert (-1 < kb + k - ka < 1)%Z; [|f_equal; lia].
    split; apply lt_IZR; done. }
  rewrite minus_IZR, plus_IZR in Hz. lra.
Qed.

(** X7. In exact arithmetic [rotate] has period 180, stores an angle
    between 0 and 180 as it is, and stores the same angle when it is
    given the angle it stored. *)
Theorem rotate_exact_periodic_idempotent (v : VPoint R) (a : R) :
  rotate v (a + 180) = rotate v a
  ∧ rotate v (a - 180) = rotate v a
  ∧ rotate (rotate v a) (angle (rotate v a)) = rotate v a
  ∧ (0 <= a < 180 → angle (rotate v a) = a).
Proof.
  assert (∀ b, 0 <= b < 180 → mod_double b 180 = b) as Hid.
  { intros b Hb. destruct (mod_double_180 b) as (k & Hk & Hr).
    assert (IZR k = 0) as Hz.
    { assert (-1 < k < 1)%Z; [|f_equal; lia].
      split; apply lt_IZR; lra. }
    rewrite Hz in Hk. lra. }
  unfold rotate. cbn [links type angle x y c __has_offset __offset].
  split; [|split; [|split]].
  - f_equal. apply (mod_double_180_unique _ _ 1). lra.
  - f_equal. apply (mod_double_180_unique _ _ (-1)). lra.
  - f_equal. apply Hid. by destruct (mod_double_180 a) as (k & _ & ?).
  - apply Hid.
Qed.

End RealJoints.

(** ** What the stack shows *)

Lemma letter_prefix_inj (a b : ascii) (s t : string) :
  String a "" +:+ s = String b "" +:+ t → a = b ∧ s = t.
Proof. change (String a s = String b t → a = b ∧ s = t). by intros [= -> ->]. Qed.

Lemma symbol_str_inj (p q : sym) : symbol_str p = symbol_str q → p = q.
Proof.
  destruct p as [lp np], q as [lq nq]. unfold symbol_str. simpl.
  destruct lp, lq; intros [Hl Hn]%letter_prefix_inj; try discriminate Hl;
    by apply (inj pretty) in Hn as ->.
Qed.

(** X8. [symbol_str] gives two symbols the same string only when they
    are the same symbol. *)
Theorem symbol_str_injective (p q : sym) : symbol_str p = symbol_str q ↔ p = q.
Proof. split; [apply symbol_str_inj|by intros ->]. Qed.

Lemma render_shown e e' :
  render e = render e' →
  (func e = func e' ∨ (func e = PLA ∧ func e' = PLAP) ∨ (func e = PLAP ∧ func e' = PLA))
  ∧ symbol_str <$> shown e = symbol_str <$> shown e'.
Proof.
  unfold render, shown. destruct (func e), (func e'); intros Heq; try discriminate Heq;
    simpl; (split; [auto|]); injection Heq; intros; congruence.
Qed.

Lemma fmap_symbol_str_inj (l l' : list sym) :
  symbol_str <$> l = symbol_str <$> l' → l = l'.
Proof.
  revert l'. induction l as [|p l IH]; intros [|q l']; try done. simpl.
  intros [= Hp Hl]. f_equal; [by apply symbol_str_inj|by apply IH].
Qed.

(** X9. Two stacks with the same [as_list] have the same length and,
    place by place, records of the same kind with the same fields
    shown; the flag [op] of a PLPP is not shown and may differ. *)
Theorem as_list_shows_all_but_op (s s' : EStack) :
  as_list s = as_list s' →
  Forall2 (λ e e', func e = func e' ∧ shown e = shown e') s s'.
Proof.
  rewrite !as_list_render. revert s'.
  induction s as [|e s IH]; intros [|e' s']; try done; simpl.
  intros [= He Hs]. constructor; [|by apply IH].
  apply render_shown in He as [Hf Hsh]. apply fmap_symbol_str_inj in Hsh.
  split; [|done]. destruct Hf as [?|[[H1 H2]|[H1 H2]]]; [done| |];
    unfold shown in Hsh; rewrite H1, H2 in Hsh; discriminate Hsh.
Qed.

Lemma as_list_shows_all_but_op_witness :
  let e op := mkExpr PLPP (P_LABEL, 1%Z) (L_LABEL, 3%Z) unassigned (P_LABEL, 2%Z)
                (S_LABEL, 2%Z) (P_LABEL, 2%Z) op in
  as_list [e true] = as_list [e false]
  ∧ Forall2 (λ e e', func e = func e' ∧ shown e = shown e') [e true] [e false].
Proof.
  intros e. split; [reflexivity|].
  exact (as_list_shows_all_but_op [e true] [e false] eq_refl).
Defined.

(** X10. [_get_input_base] is -1 for a node no input pair drives, and
    otherwise the driver of the first pair that drives the node. *)
Theorem get_input_base_is_first_match (node : Z) (inputs : list (Z * Z)) :
  (node ∉ inputs.*2 → _get_input_base node inputs = (-1)%Z)
  ∧ (node ∈ inputs.*2 →
       ∃ pre post,
         inputs = pre ++ (_get_input_base node inputs, node) :: post ∧ node ∉ pre.*2).
Proof.
  induction inputs as [|[base node_] inputs [IH1 IH2]]; simpl.
  - split; [done|]. by intros ?%elem_of_nil.
  - case_bool_decide as Hn.
    + subst node_. split; [intros []; left|].
      intros _. exists [], inputs. split; [done|]. by intros ?%elem_of_nil.
    + split.
      * intros Hnot. apply IH1. intros ?. apply Hnot. by right.
      * intros [?|Hin]%elem_of_cons; [done|].
        destruct (IH2 Hin) as (pre & post & Heq & Hpre).
        exists ((base, node_) :: pre), post. split; [simpl; by f_equal|].
        simpl. intros [?|?]%elem_of_cons; done.
Qed.

(** ** The adjacency the first loop builds *)

Lemma elem_of_set_add n m s : m ∈ set_add n s ↔ m = n ∨ m ∈ s.
Proof.
  unfold set_add. case_bool_decide as Hin.
  - split; [by right|]. by intros [->|?].
  - rewrite elem_of_app, list_elem_of_singleton. tauto.
Qed.

Lemma NoDup_set_add n s : NoDup s → NoDup (set_add n s).
Proof.
  intros Hs. unfold set_add. case_bool_decide as Hin; [done|].
  apply NoDup_app. split; [done|]. split; [|apply NoDup_singleton].
  by intros m Hm ->%list_elem_of_singleton.
Qed.

Lemma set_add_idemp n s : set_add n (set_add n s) = set_add n s.
Proof.
  unfold set_add at 1. rewrite bool_decide_eq_true_2; [done|].
  apply elem_of_set_add. by left.
Qed.

Section Scan.
Context {D : Type} `{!CDouble D} `{!Libm D} {index_order : IndexOrder}.

Lemma scan_link_vlinks n (v : VPoint D) ls acc link :
  (foldl (scan_link n v) acc ls).2 !! link =
    if decide (link ∈ ls) then Some (set_add n (default [] (acc.2 !! link)))
    else acc.2 !! link.
Proof.
  revert acc. induction ls as [|l ls IH]; intros acc; simpl.
  - by destruct (decide (link ∈ [])) as [?%elem_of_nil|].
  - rewrite IH. unfold scan_link. simpl.
    destruct (decide (link = l)) as [->|Hne].
    + rewrite (decide_True (P := l ∈ l :: ls)) by left.
      destruct (acc.2 !! l) as [ms|] eqn:Hl; rewrite lookup_insert_eq; simpl.
      * destruct (decide (l ∈ ls)); [by rewrite set_add_idemp|done].
      * destruct (decide (l ∈ ls)); [|done].
        change [n] with (set_add n []). by rewrite set_add_idemp.
    + assert ((match acc.2 !! l with
               | Some members => <[l:=set_add n members]> acc.2
               | None => <[l:=[n]]> acc.2
               end) !! link = acc.2 !! link) as ->.
      { destruct (acc.2 !! l); by rewrite lookup_insert_ne. }
      destruct (decide (link ∈ ls)) as [Hin|Hin].
      * rewrite decide_True; [done|by right].
      * rewrite decide_False; [done|]. intros [?|?]%elem_of_cons; done.
Qed.

Lemma scan_joint_vlinks acc n (v : VPoint D) link :
  (scan_joint acc (n, v)).2 !! link =
    if decide (link ∈ links v) then Some (set_add n (default [] (acc.2 !! link)))
    else acc.2 !! link.
Proof.
  unfold scan_joint. simpl. destruct (links v) as [|l ls] eqn:Hl.
  - simpl. by destruct (decide (link ∈ [])) as [?%elem_of_nil|].
  - by rewrite scan_link_vlinks.
Qed.

Lemma on_link_snoc (l : list (VPoint D)) v link m :
  on_link (l ++ [v]) link m
  ↔ on_link l link m ∨ (m = Z.of_nat (length l) ∧ link ∈ links v).
Proof.
  unfold on_link. split.
  - intros (Hm & w & Hw & Hin).
    destruct (decide (Z.to_nat m < length l)) as [Hlt|Hge].
    + rewrite lookup_app_l in Hw by done. left. eauto.
    + rewrite lookup_app_r in Hw by lia.
      destruct (Z.to_nat m - length l) as [|k] eqn:Hk; [|by destruct k].
      injection Hw as <-. right. split; [lia|done].
  - intros [(Hm & w & Hw & Hin)|[-> Hin]].
    + split; [done|]. exists w. split; [|done]. by apply lookup_app_l_Some.
    + split; [lia|]. exists v. split; [|done].
      rewrite Nat2Z.id, lookup_app_r, Nat.sub_diag by lia. done.
Qed.

Lemma on_link_range (l : list (VPoint D)) link m :
  on_link l link m → (0 ≤ m < Z.of_nat (length l))%Z.
Proof.
  intros (Hm & w & Hw%lookup_lt_Some & _). lia.
Qed.

Lemma scan_adjacency (vpoints_ : list (VPoint D)) (status_ : gmap Z bool) :
  adjacency vpoints_ (scan vpoints_ status_).2.
Proof.
  unfold scan. induction vpoints_ as [|v l IH] using rev_ind.
  - intros link. simpl. rewrite lookup_empty. intros m (_ & w & Hw & _). done.
  - rewrite enumerate_snoc, foldl_app. simpl. intros link.
    rewrite scan_joint_vlinks. specialize (IH link).
    destruct (decide (link ∈ links v)) as [Hin|Hin].
    + destruct (_ !! link) as [ms|]; simpl.
      * destruct IH as [Hnd IH]. split; [by apply NoDup_set_add|].
        intros m. rewrite elem_of_set_add, on_link_snoc, IH. tauto.
      * split; [apply NoDup_set_add, NoDup_nil_2|].
        intros m. rewrite elem_of_set_add, on_link_snoc.
        split; [intros [->|?%elem_of_nil]; [by right|done]|].
        intros [?%IH|[-> _]]; [done|by left].
    + destruct (_ !! link) as [ms|].
      * destruct IH as [Hnd IH]. split; [done|].
        intros m. rewrite on_link_snoc, IH. tauto.
      * intros m [?%IH|[_ ?]]%on_link_snoc; done.
Qed.

End Scan.

(** ** The friends of a joint *)

Lemma for_each_ok {A B} (P : B → Prop) (f : B → A → result B) (l : list A) (b : B) :
  P b →
  (∀ b0 a, a ∈ l → P b0 → ∃ b1, f b0 a = Ok b1 ∧ P b1) →
  ∃ b', for_each f l b = Ok b' ∧ P b'.
Proof.
  revert b. induction l as [|a l IH]; intros b Hb Hf; simpl; [eauto|].
  destruct (Hf b a) as (b1 & -> & Hb1); [left|done|]. simpl.
  apply IH; [done|]. intros ????. apply Hf; [by right|done].
Qed.

Lemma for_each_foldl {A B} (f : B → A → result B) (g : B → A → B) (l : list A) (b b' : B) :
  (∀ b0 a b1, a ∈ l → f b0 a = Ok b1 → b1 = g b0 a) →
  for_each f l b = Ok b' → b' = foldl g b l.
Proof.
  revert b. induction l as [|a l IH]; intros b Hf; simpl; [by intros [= <-]|].
  intros (b1 & H1 & H2)%bind_Ok.
  apply Hf in H1 as ->; [|left]. apply IH; [|done].
  intros ?????. eapply Hf; [by right|done].
Qed.

Lemma getitem_list_range {A} (l : list A) (i : Z) :
  (0 ≤ i < Z.of_nat (length l))%Z →
  ∃ a, getitem_list l i = Ok a ∧ l !! Z.to_nat i = Some a.
Proof.
  intros Hi. destruct (lookup_lt_is_Some_2 l (Z.to_nat i)) as [a Ha]; [lia|].
  exists a. split; [|done]. rewrite <- (Z2Nat.id i) by lia. by apply getitem_list_Ok.
Qed.

Lemma getitem_list_inv {A} (l : list A) (i : Z) a :
  getitem_list l i = Ok a → (0 ≤ i)%Z → l !! Z.to_nat i = Some a.
Proof.
  unfold getitem_list. intros Hrun Hi.
  destruct (Z.ltb_spec i 0) as [?|_]; [lia|].
  destruct (Z.ltb_spec i 0) as [?|_]; [lia|].
  destruct (l !! Z.to_nat i); [by injection Hrun as ->|done].
Qed.

Lemma foldl_filter_snoc {A} (P : A → Prop) `{∀ a, Decision (P a)} (l acc : list A) :
  foldl (λ y a, if decide (P a) then y ++ [a] else y) acc l = acc ++ filter P l.
Proof.
  revert acc. induction l as [|a l IH]; intros acc; simpl; [by rewrite app_nil_r|].
  rewrite IH, filter_cons. destruct (decide (P a)); [by rewrite <- app_assoc|done].
Qed.

Section FriendLists.
Context {D : Type} `{!CDouble D} `{!Libm D} {index_order : IndexOrder}.
Variables (vpoints : list (VPoint D)) (vlinks : gmap string (list Z)).

Lemma reliable_inner node status members yielded fi :
  for_each (λ (yielded : list Z) (friend : Z),
      b ← getitem_dict status friend;
      Ok (if b && negb (bool_decide (friend = node))
          then yielded ++ [friend] else yielded))
    members yielded = Ok fi →
  fi = yielded ++ filter (λ friend, status !! friend = Some true ∧ friend ≠ node) members.
Proof.
  intros Hrun. rewrite <- foldl_filter_snoc. revert Hrun. apply for_each_foldl.
  intros y friend y' _ Hstep. bind_inv Hstep. apply getitem_dict_Ok in Hbind.
  injection Hstep as <-. destruct a; simpl.
  - case_bool_decide as Hn; simpl.
    + rewrite decide_False; [done|]. by intros [_ ?].
    + by rewrite decide_True.
  - rewrite decide_False; [done|]. intros [? _]. congruence.
Qed.

Lemma reliable_outer node status ls acc fi :
  for_each (λ (yielded : list Z) (link : string),
      members ← getitem_dict vlinks link;
      if (length members <? 2)%nat then Ok yielded
      else
        for_each (λ (yielded : list Z) (friend : Z),
            b ← getitem_dict status friend;
            Ok (if b && negb (bool_decide (friend = node))
                then yielded ++ [friend] else yielded))
          (set_iter members) yielded)
    ls acc = Ok fi →
  fi = acc ++ filter (λ friend, status !! friend = Some true ∧ friend ≠ node)
                (ls ≫= λ link,
                   let members := default [] (vlinks !! link) in
                   if (length members <? 2)%nat then [] else set_iter members).
Proof.
  revert acc. induction ls as [|link ls IH]; intros acc; simpl.
  - intros [= <-]. by rewrite app_nil_r.
  - intros (y & H1 & H2)%bind_Ok. bind_inv H1. apply getitem_dict_Ok in Hbind.
    rewrite Hbind. simpl. rewrite filter_app, app_assoc.
    destruct (length a <? 2)%nat.
    + injection H1 as <-. simpl. rewrite app_nil_r. by apply IH.
    + apply reliable_inner in H1 as ->. by apply IH.
Qed.

Lemma _get_reliable_friend_spec node status fi :
  (0 ≤ node)%Z →
  _get_reliable_friend node vpoints vlinks status = Ok fi →
  ∃ v, vpoints !! Z.to_nat node = Some v ∧ fi = reliable_friends node v vlinks status.
Proof.
  intros Hnode. unfold _get_reliable_friend. intros Hrun. bind_inv Hrun.
  apply getitem_list_inv in Hbind; [|done]. exists a. split; [done|].
  by apply reliable_outer in Hrun.
Qed.

Lemma _get_not_base_friend_spec node status fi :
  (0 ≤ node)%Z →
  _get_not_base_friend node vpoints vlinks status = Ok fi →
  ∃ v, vpoints !! Z.to_nat node = Some v
       ∧ fi = match links v with
              | _ :: pin_link :: _ =>
                  filter (λ friend, status !! friend = Some true)
                    (set_iter (default [] (vlinks !! pin_link)))
              | _ => []
              end.
Proof.
  intros Hnode. unfold _get_not_base_friend. intros Hrun. bind_inv Hrun.
  apply getitem_list_inv in Hbind; [|done]. exists a. split; [done|].
  destruct (links a) as [|l0 [|l1 ls]]; simpl in Hrun; try by injection Hrun as <-.
  unfold getitem_list in Hrun. simpl in Hrun. bind_inv Hrun.
  apply getitem_dict_Ok in Hbind0. rewrite Hbind0. simpl.
  rewrite <- (app_nil_l (filter _ _)). rewrite <- foldl_filter_snoc.
  revert Hrun. apply for_each_foldl.
  intros y friend y' _ Hstep. bind_inv Hstep. apply getitem_dict_Ok in Hbind1.
  injection Hstep as <-. destruct a1.
  - by rewrite decide_True.
  - rewrite decide_False; [done|]. congruence.
Qed.

Lemma _get_base_friend_spec node status fi :
  (0 ≤ node)%Z →
  _get_base_friend node vpoints vlinks status = Ok fi →
  ∃ v, vpoints !! Z.to_nat node = Some v
       ∧ fi = match links v with
              | slot_link :: _ => set_iter (default [] (vlinks !! slot_link))
              | [] => []
              end.
Proof.
  intros Hnode. unfold _get_base_friend. intros Hrun. bind_inv Hrun.
  apply getitem_list_inv in Hbind; [|done]. exists a. split; [done|].
  destruct (links a) as [|l0 ls]; simpl in Hrun; [by injection Hrun as <-|].
  unfold getitem_list in Hrun. simpl in Hrun. bind_inv Hrun.
  apply getitem_dict_Ok in Hbind0. rewrite Hbind0. by injection Hrun as <-.
Qed.

End FriendLists.

(** ** The promotion of the friends of a grounded P joint *)

Lemma entries_fit_mark n inputs status k :
  entries_fit n inputs status → entries_fit n inputs (<[k := true]> status).
Proof.
  intros (H1 & H2 & H3). split; [|split].
  - intros j Hj. by apply keeps_keys_insert, H1.
  - intros j. destruct (decide (k = j)) as [->|].
    + by rewrite lookup_insert_eq.
    + rewrite lookup_insert_ne by done. apply H2.
  - intros b Hb. by apply keeps_keys_insert, H3.
Qed.

Lemma for_each_stable {A B} (f : B → A → result B) (e : exn) (l : list A) (b : B) :
  (∀ a, a ∈ l → f b a = Ok b ∨ f b a = Raise e) →
  (for_each f l b = Ok b ∧ ∀ a, a ∈ l → f b a = Ok b)
  ∨ (for_each f l b = Raise e ∧ ∃ a, a ∈ l ∧ f b a = Raise e).
Proof.
  induction l as [|a l IH]; intros Hf; simpl.
  - left. split; [done|]. by intros a ?%elem_of_nil.
  - destruct (Hf a) as [Ha|Ha]; [left| |]; rewrite Ha; simpl.
    + destruct IH as [[-> Hall]|[-> (a' & Hin & Ha')]].
      * intros ??. apply Hf. by right.
      * left. split; [done|]. intros a' [->|?]%elem_of_cons; auto.
      * right. split; [done|]. exists a'. split; [by right|done].
    + right. split; [done|]. exists a. split; [by left|done].
Qed.

Section Promotion.
Context {D : Type} `{!CDouble D} `{!Libm D} {index_order : IndexOrder}.
Variables (vpoints : list (VPoint D)) (vlinks : gmap string (list Z)).
Hypothesis Hlinks : links_known vlinks vpoints.
Hypothesis Hmembers : members_below vlinks (length vpoints).

(** The promotion of one friend leaves the joints as they are, or
    raises TypeError: it never stores a joint. *)
Lemma promote_friend_cases base vpoint node :
  links vpoint ≠ [] → (0 ≤ node < Z.of_nat (length vpoints))%Z →
  (promote_friend base vpoint vpoints node = Ok vpoints
   ∧ ¬ friend_to_promote vpoints base node)
  ∨ (promote_friend base vpoint vpoints node = Raise TypeError
     ∧ friend_to_promote vpoints base node).
Proof.
  intros Hl Hnode. unfold promote_friend, friend_to_promote.
  destruct (getitem_list_range vpoints node) as (v & -> & Hv); [lia|]. simpl.
  destruct (bool_decide (node = base) || negb (VJoint.eqb (type v) VJoint.R)) eqn:Hc.
  - left. split; [done|]. intros (Hne & v' & Hv' & Hr).
    rewrite Hv in Hv'. injection Hv' as <-.
    apply orb_true_iff in Hc as [Hc|Hc].
    + by apply bool_decide_eq_true in Hc.
    + apply negb_true_iff, bool_decide_eq_false in Hc. done.
  - right. apply orb_false_iff in Hc as [Hb Hr].
    apply bool_decide_eq_false in Hb. apply negb_false_iff, bool_decide_eq_true in Hr.
    split; [|split; [done|by exists v]].
    destruct (links vpoint) as [|slot pins]; done.
Qed.

Lemma promote_base_cases base :
  (0 ≤ base < Z.of_nat (length vpoints))%Z →
  (promote_base vlinks vpoints base = Ok vpoints ∧ ¬ promotes_at vlinks vpoints base)
  ∨ (promote_base vlinks vpoints base = Raise TypeError ∧ promotes_at vlinks vpoints base).
Proof.
  intros Hbase. unfold promote_base, promotes_at.
  destruct (getitem_list_range vpoints base) as (vb & -> & Hvb); [lia|]. simpl.
  destruct (negb (VJoint.eqb (type vb) VJoint.P) || negb (grounded vb)) eqn:Hc.
  { left. split; [done|]. intros (vb' & link & members & node & Hvb' & Hp & Hg & _).
    rewrite Hvb in Hvb'. injection Hvb' as <-.
    apply orb_true_iff in Hc as [Hc|Hc]; apply negb_true_iff in Hc.
    - apply bool_decide_eq_false in Hc. done.
    - by rewrite Hg in Hc. }
  apply orb_false_iff in Hc as [Hp Hg].
  apply negb_false_iff, bool_decide_eq_true in Hp. apply negb_false_iff in Hg.
  assert (links vb ≠ []) as Hne.
  { intros Hnil. unfold grounded in Hg. by rewrite Hp, Hnil in Hg. }
  assert (vb ∈ vpoints) as Hin by (by eapply list_elem_of_lookup_2).
  assert (∀ link, link ∈ drop 1 (links vb) →
            ∃ members, vlinks !! link = Some members
              ∧ ((for_each (promote_friend base vb) (set_iter members) vpoints
                  = Ok vpoints
                  ∧ ∀ node, node ∈ members → ¬ friend_to_promote vpoints base node)
                 ∨ (for_each (promote_friend base vb) (set_iter members) vpoints
                    = Raise TypeError
                    ∧ ∃ node, node ∈ members ∧ friend_to_promote vpoints base node)))
    as Hinner.
  { intros link Hlink.
    destruct (Hlinks vb link Hin) as [members Hm]; [by eapply subseteq_drop|].
    exists members. split; [done|].
    destruct (for_each_stable (promote_friend base vb) TypeError (set_iter members)
                vpoints)
      as [[Hrun Hall]|[Hrun (node & Hnode & Hraise)]].
    - intros node Hnode%set_iter_member.
      pose proof (Hmembers link members node Hm Hnode) as Hr.
      destruct (promote_friend_cases base vb node Hne Hr) as [[-> _]|[-> _]]; auto.
    - left. split; [done|]. intros node Hnode Hfriend.
      pose proof (Hmembers link members node Hm Hnode) as Hr.
      destruct (promote_friend_cases base vb node Hne Hr) as [[_ Hn]|[Hraise _]]; [done|].
      rewrite Hall in Hraise; [done|]. by apply member_set_iter.
    - right. split; [done|]. apply set_iter_member in Hnode.
      exists node. split; [done|].
      pose proof (Hmembers link members node Hm Hnode) as Hr.
      destruct (promote_friend_cases base vb node Hne Hr) as [[Ho _]|[_ Hf]]; [|done].
      rewrite Hraise in Ho. done. }
  destruct (for_each_stable
              (λ vps link, members ← getitem_dict vlinks link;
                           for_each (promote_friend base vb) (set_iter members) vps)
              TypeError (drop 1 (links vb)) vpoints)
    as [[Hrun Hall]|[Hrun (link & Hlink & Hraise)]].
  - intros link Hlink. destruct (Hinner link Hlink) as (members & Hm & [[Hr _]|[Hr _]]);
      rewrite (proj2 (getitem_dict_Ok _ _ _) Hm); simpl; rewrite Hr; auto.
  - left. split; [done|].
    intros (vb' & link & members & node & Hvb' & _ & _ & Hlink & Hm & Hnode & Hfriend).
    rewrite Hvb in Hvb'. injection Hvb' as <-.
    destruct (Hinner link Hlink) as (members' & Hm' & [[_ Hno]|[Hr _]]).
    + rewrite Hm in Hm'. injection Hm' as <-. by eapply Hno.
    + specialize (Hall link Hlink). rewrite (proj2 (getitem_dict_Ok _ _ _) Hm') in Hall.
      simpl in Hall. rewrite Hr in Hall. done.
  - right. split; [done|].
    destruct (Hinner link Hlink) as (members & Hm & [[Ho _]|[_ (node & Hnode & Hfriend)]]).
    + rewrite (proj2 (getitem_dict_Ok _ _ _) Hm) in Hraise. simpl in Hraise.
      rewrite Ho in Hraise. done.
    + by exists vb, link, members, node.
Qed.

(** The promotion as a whole: the joints as they were, or TypeError,
    and TypeError exactly when a grounded P joint has a friend to
    promote. *)
Lemma promote_cases :
  (promote vlinks vpoints = Ok vpoints ∧ ¬ promotes_in vlinks vpoints)
  ∨ (promote vlinks vpoints = Raise TypeError ∧ promotes_in vlinks vpoints).
Proof.
  unfold promote, promotes_in.
  destruct (for_each_stable (promote_base vlinks) TypeError
              (seqZ 0 (Z.of_nat (length vpoints))) vpoints)
    as [[Hrun Hall]|[Hrun (base & Hbase & Hraise)]].
  - intros base Hbase%elem_of_seqZ.
    destruct (promote_base_cases base) as [[-> _]|[-> _]]; try lia; auto.
  - left. split; [done|]. intros (base & Hbase & Hat).
    destruct (promote_base_cases base Hbase) as [[_ Hno]|[Hr _]]; [done|].
    rewrite Hall in Hr; [done|]. apply elem_of_seqZ. lia.
  - right. split; [done|]. exists base. apply elem_of_seqZ in Hbase.
    split; [lia|].
    destruct (promote_base_cases base) as [[Ho _]|[_ Hat]]; [lia| |done].
    rewrite Hraise in Ho. done.
Qed.

End Promotion.

(** ** No step of the main loop raises *)

Section SweepRuns.
Context {D : Type} `{!CDouble D} `{!Libm D} {index_order : IndexOrder}.
Variables (vpoints : list (VPoint D)) (vlinks : gmap string (list Z))
          (pos : list (D * D)) (inputs : list (Z * Z)) (around : Z).
Hypothesis Hlinks : links_known vlinks vpoints.
Hypothesis Hmembers : members_below vlinks (length vpoints).
Hypothesis Hpos : length pos = length vpoints.

Abbreviation fit := (entries_fit (length vpoints) inputs).
Abbreviation in_range k := (0 ≤ k < Z.of_nat (length vpoints))%Z.

Lemma fit_lookup status k : fit status → in_range k → ∃ b, getitem_dict status k = Ok b.
Proof.
  intros (H1 & _ & _) Hk. destruct (H1 k Hk) as [b Hb]. exists b.
  by apply getitem_dict_Ok.
Qed.

Lemma _get_reliable_friend_ok node status :
  fit status → in_range node →
  ∃ fi, _get_reliable_friend node vpoints vlinks status = Ok fi
        ∧ ∀ f, f ∈ fi → in_range f.
Proof.
  intros Hfit Hnode. unfold _get_reliable_friend.
  destruct (getitem_list_range vpoints node) as (v & -> & Hv); [done|]. simpl.
  apply (for_each_ok (λ fi, ∀ f, f ∈ fi → in_range f)); [by intros f ?%elem_of_nil|].
  intros fi link Hlink Hfi.
  destruct (Hlinks v link) as [members Hm]; [by eapply list_elem_of_lookup_2|done|].
  rewrite (proj2 (getitem_dict_Ok _ _ _) Hm). simpl.
  destruct (_ <? _)%nat; [eauto|].
  apply (for_each_ok (λ fi, ∀ f, f ∈ fi → in_range f)); [done|].
  intros fi' friend Hfriend%set_iter_member Hfi'.
  assert (in_range friend) as Hr by (by eapply Hmembers).
  destruct (fit_lookup status friend) as [b ->]; [done..|]. simpl.
  eexists. split; [reflexivity|].
  destruct (b && _); [|done].
  intros f [?| ->%list_elem_of_singleton]%elem_of_app; auto.
Qed.

Lemma _get_not_base_friend_ok node status :
  fit status → in_range node →
  ∃ fi, _get_not_base_friend node vpoints vlinks status = Ok fi
        ∧ ∀ f, f ∈ fi → in_range f.
Proof.
  intros Hfit Hnode. unfold _get_not_base_friend.
  destruct (getitem_list_range vpoints node) as (v & -> & Hv); [done|]. simpl.
  destruct (links v) as [|l0 [|l1 ls]] eqn:Hl; simpl;
    try (eexists; split; [reflexivity|]; by intros f ?%elem_of_nil).
  unfold getitem_list. simpl.
  destruct (Hlinks v l1) as [members Hm];
    [by eapply list_elem_of_lookup_2|rewrite Hl; right; left|].
  rewrite (proj2 (getitem_dict_Ok _ _ _) Hm). simpl.
  apply (for_each_ok (λ fi, ∀ f, f ∈ fi → in_range f)); [by intros f ?%elem_of_nil|].
  intros fi' friend Hfriend%set_iter_member Hfi'.
  assert (in_range friend) as Hr by (by eapply Hmembers).
  destruct (fit_lookup status friend) as [b ->]; [done..|]. simpl.
  eexists. split; [reflexivity|].
  destruct b; [|done].
  intros f [?| ->%list_elem_of_singleton]%elem_of_app; auto.
Qed.

Lemma _get_base_friend_ok node status :
  in_range node →
  ∃ fi, _get_base_friend node vpoints vlinks status = Ok fi
        ∧ ∀ f, f ∈ fi → in_range f.
Proof.
  intros Hnode. unfold _get_base_friend.
  destruct (getitem_list_range vpoints node) as (v & -> & Hv); [done|]. simpl.
  destruct (links v) as [|l0 ls] eqn:Hl; simpl;
    [eexists; split; [reflexivity|]; by intros f ?%elem_of_nil|].
  unfold getitem_list. simpl.
  destruct (Hlinks v l0) as [members Hm];
    [by eapply list_elem_of_lookup_2|rewrite Hl; left|].
  rewrite (proj2 (getitem_dict_Ok _ _ _) Hm). simpl.
  eexists. split; [reflexivity|]. intros f Hf%set_iter_member. by eapply Hmembers.
Qed.

Lemma pos_ok k : in_range k → ∃ p, getitem_list pos k = Ok p.
Proof.
  intros Hk. destruct (getitem_list_range pos k) as (p & -> & _); [lia|eauto].
Qed.

Lemma input_base_listed node : node ∈ inputs.*2 → _get_input_base node inputs ∈ inputs.*1.
Proof.
  induction inputs as [|[b n] l IH]; simpl; [by intros ?%elem_of_nil|].
  case_bool_decide as Hn; [by left|].
  intros [?|?]%elem_of_cons; [done|]. right. by apply IH.
Qed.

Lemma visit_R_ok st :
  fit (status st) → in_range (node st) →
  ∃ st', visit_R vpoints vlinks pos inputs st = Ok st' ∧ fit (status st').
Proof.
  intros Hfit Hnode. unfold visit_R. case_bool_decide as Hin.
  - destruct Hfit as (H1 & H2 & H3).
    destruct (H3 (_get_input_base (node st) inputs)) as [b Hb];
      [by apply input_base_listed|].
    rewrite (proj2 (getitem_dict_Ok _ _ _) Hb). simpl.
    eexists. split; [reflexivity|].
    destruct b; simpl; [by apply entries_fit_mark|done].
  - destruct (_get_reliable_friend_ok (node st) (status st)) as (fi & -> & Hfi); [done..|].
    simpl. destruct fi as [|fa [|fb fi]]; [eauto..|].
    destruct (pos_ok fa) as [pa ->]; [apply Hfi; left|].
    destruct (pos_ok (node st)) as [pn ->]; [done|].
    destruct (pos_ok fb) as [pb ->]; [apply Hfi; right; left|]. simpl.
    eexists. split; [reflexivity|]. simpl. by apply entries_fit_mark.
Qed.

Lemma pxy_friend_ok n st fb :
  fit (status st) → in_range fb →
  ∃ st', pxy_friend n st fb = Ok st' ∧ fit (status st').
Proof.
  intros Hfit Hfb. unfold pxy_friend.
  destruct (fit_lookup (status st) fb) as [b ->]; [done..|]. simpl.
  eexists. split; [reflexivity|]. destruct b; [done|]. simpl. by apply entries_fit_mark.
Qed.

Lemma visit_P_ok st vpoint :
  fit (status st) → in_range (node st) → vpoint ∈ vpoints →
  ∃ st', visit_P vpoints vlinks st vpoint = Ok st' ∧ fit (status st').
Proof.
  intros Hfit Hnode Hv. unfold visit_P.
  destruct (_ || _ || _); [eauto|].
  destruct (_get_not_base_friend_ok (node st) (status st)) as (fi & -> & Hfi); [done..|].
  simpl. destruct fi as [|fa fi]; [eauto|].
  match goal with |- ∃ st', (?m ≫= _) = _ ∧ _ =>
    assert (∃ s, m = Ok s ∧ fit (status s)) as (s & -> & Hs) end.
  { apply (for_each_ok (λ s, fit (status s))); [simpl; by apply entries_fit_mark|].
    intros s link Hlink Hs.
    destruct (Hlinks vpoint link) as [members Hm]; [done|by eapply subseteq_drop|].
    rewrite (proj2 (getitem_dict_Ok _ _ _) Hm). simpl.
    apply (for_each_ok (λ s, fit (status s))); [done|].
    intros s' fb Hfb%set_iter_member Hs'. apply pxy_friend_ok; [done|]. by eapply Hmembers. }
  simpl. eauto.
Qed.

Lemma visit_RP_ok st vpoint :
  fit (status st) → in_range (node st) →
  ∃ st', visit_RP vpoints vlinks pos st vpoint = Ok st' ∧ fit (status st').
Proof.
  intros Hfit Hnode. unfold visit_RP.
  destruct (pos_ok (node st)) as [tmp Htmp]; [done|]. rewrite Htmp. simpl.
  destruct (pin_grounded vpoint); [eauto|].
  destruct (grounded vpoint); [|eauto].
  destruct (has_offset vpoint); [eauto|]. simpl.
  destruct (_get_not_base_friend_ok (node st) (status st)) as (nb & -> & Hnb); [done..|].
  simpl. destruct nb as [|fa nb]; [eauto|].
  destruct (_get_base_friend_ok (node st) (status st)) as (fi & -> & Hfi); [done|].
  simpl. destruct fi as [|fb fi]; [eauto|].
  destruct (pos_ok fb) as [pb ->]; [apply Hfi; left|]. simpl.
  destruct (pos_ok fa) as [pa ->]; [apply Hnb; left|]. simpl.
  eexists. split; [reflexivity|]. simpl. by apply entries_fit_mark.
Qed.

Lemma sweep_step_ok st :
  fit (status st) →
  ∃ fl, sweep_step vpoints vlinks pos inputs around st = Ok fl
        ∧ fit (status (match fl with Continue s | Break s => s end)).
Proof.
  intros Hfit. unfold sweep_step.
  case_bool_decide as Hin; [eauto|].
  case_bool_decide as Hskip; [eauto|].
  destruct (status st !! node st) as [b|] eqn:Hb; [|done].
  rewrite (proj2 (getitem_dict_Ok _ _ _) Hb). simpl.
  destruct b; [eauto|].
  assert (in_range (node st)) as Hnode by (by apply Hfit).
  destruct (getitem_list_range vpoints (node st)) as (v & -> & Hv); [done|]. simpl.
  assert (∃ st', match type v with
                 | VJoint.R => visit_R vpoints vlinks pos inputs st
                 | VJoint.P => visit_P vpoints vlinks st v
                 | VJoint.RP => visit_RP vpoints vlinks pos st v
                 end = Ok st' ∧ fit (status st')) as (st' & -> & Hst').
  { destruct (type v);
      [by apply visit_R_ok
      |apply visit_P_ok; [done..|by eapply list_elem_of_lookup_2]
      |by apply visit_RP_ok]. }
  simpl. eauto.
Qed.

Lemma sweep_ok fuel st r :
  fit (status st) →
  sweep vpoints vlinks pos inputs around fuel st = Some r →
  ∃ st', r = Ok st' ∧ fit (status st').
Proof.
  revert st. induction fuel as [|fuel IH]; intros st Hfit; [done|]. simpl.
  destruct (_is_all_lock _); [intros [= <-]; eauto|].
  destruct (sweep_step_ok st Hfit) as (fl & -> & Hfl).
  destruct fl as [s|s]; [by apply IH|]. intros [= <-]. eauto.
Qed.

End SweepRuns.

Section PrepareRuns.
Context {D : Type} `{!CDouble D} `{!Libm D} {index_order : IndexOrder}.

Lemma adjacency_links_known (vpoints : list (VPoint D)) vlinks :
  adjacency vpoints vlinks → links_known vlinks vpoints.
Proof.
  intros Hadj v l [i Hi]%list_elem_of_lookup_1 Hl. specialize (Hadj l).
  destruct (vlinks !! l); [done|]. destruct (Hadj (Z.of_nat i)).
  split; [lia|]. exists v. by rewrite Nat2Z.id.
Qed.

Lemma adjacency_members_below (vpoints : list (VPoint D)) vlinks :
  adjacency vpoints vlinks → members_below vlinks (length vpoints).
Proof.
  intros Hadj l ms m Hl Hm. specialize (Hadj l). rewrite Hl in Hadj.
  destruct Hadj as [_ Hadj]. apply Hadj in Hm. by eapply on_link_range.
Qed.

Lemma drive_ok n inputs st input :
  entries_fit n inputs (status st) → input ∈ inputs →
  in_int input.1 = true → in_int input.2 = true →
  ∃ st', drive st input = Ok st' ∧ entries_fit n inputs (status st').
Proof.
  intros Hfit Hin Hi1 Hi2. unfold drive, as_int. rewrite Hi1, Hi2. simpl.
  destruct Hfit as (H1 & H2 & H3).
  destruct (H3 input.1) as [b Hb].
  { apply list_elem_of_fmap. by exists input. }
  rewrite (proj2 (getitem_dict_Ok _ _ _) Hb). simpl.
  eexists. split; [reflexivity|]. destruct b; [|done]. simpl. by apply entries_fit_mark.
Qed.

(** On the adjacency of the first loop the promotion is decided by
    the joints alone. *)
Lemma promotes_in_adjacency (vpoints : list (VPoint D)) vlinks :
  adjacency vpoints vlinks → promotes_in vlinks vpoints ↔ promotes vpoints.
Proof.
  intros Hadj. split.
  - intros (base & Hbase & vb & link & members & node & Hvb & Hp & Hg & Hlink & Hm
            & Hnode & _ & v & Hv & Hr).
    exists vb, v, link. split_and!; try done; try (by eapply list_elem_of_lookup_2).
    specialize (Hadj link). rewrite Hm in Hadj. destruct Hadj as [_ Hadj].
    apply Hadj in Hnode as (_ & v' & Hv' & Hl). rewrite Hv in Hv'. by injection Hv' as <-.
  - intros (vb & v & link & [i Hi]%list_elem_of_lookup_1 & [j Hj]%list_elem_of_lookup_1
            & Hp & Hg & Hr & Hlink & Hl).
    pose proof (lookup_lt_Some _ _ _ Hi) as Hlt.
    exists (Z.of_nat i). split; [lia|].
    specialize (Hadj link). destruct (vlinks !! link) as [members|] eqn:Hm.
    + exists vb, link, members, (Z.of_nat j). rewrite !Nat2Z.id.
      split_and!; try done.
      * apply Hadj. split; [lia|]. exists v. by rewrite Nat2Z.id.
      * split; [|exists v; by rewrite Nat2Z.id].
        intros Hij. assert (i = j) as -> by lia. rewrite Hi in Hj.
        injection Hj as ->. by rewrite Hp in Hr.
    + destruct (Hadj (Z.of_nat j)). split; [lia|]. exists v. by rewrite Nat2Z.id.
Qed.

Lemma prepare_ok (vpoints_ : list (VPoint D)) (inputs : option (list (Z * Z)))
    (status_ : option (gmap Z bool)) :
  (∀ k, default ∅ status_ !! k = Some false → (0 ≤ k < Z.of_nat (length vpoints_))%Z) →
  (∀ b, b ∈ (default [] inputs).*1 →
        (0 ≤ b < Z.of_nat (length vpoints_))%Z ∨ is_Some (default ∅ status_ !! b)) →
  (∀ b n, (b, n) ∈ default [] inputs →
          (- 2 ^ 31 ≤ b < 2 ^ 31)%Z ∧ (- 2 ^ 31 ≤ n < 2 ^ 31)%Z) →
  ¬ promotes vpoints_ →
  (∃ s, prepare vpoints_ inputs status_ = Ok (Early s))
  ∨ ∃ vlinks pos inputs' st,
      prepare vpoints_ inputs status_ = Ok (Ready vpoints_ vlinks pos inputs' st)
      ∧ links_known vlinks vpoints_ ∧ members_below vlinks (length vpoints_)
      ∧ length pos = length vpoints_
      ∧ entries_fit (length vpoints_) inputs' (status st).
Proof.
  intros Hfalse Hbase Hint Hquiet. unfold prepare.
  remember (default [] inputs) as inp eqn:Hinp. clear Hinp.
  destruct (decide (vpoints_ = [])) as [->|Hne]; [left; eauto|].
  destruct (decide (inp = [])) as [->|Hne']; [left; destruct vpoints_; eauto|].
  right.
  pose proof (scan_adjacency vpoints_ (default ∅ status_)) as Hadj.
  pose proof (scan_status vpoints_ status_) as Hstatus.
  destruct (scan vpoints_ (default ∅ status_)) as [status0 vlinks] eqn:Hscan.
  simpl in Hadj, Hstatus.
  pose proof (adjacency_links_known _ _ Hadj) as Hk.
  pose proof (adjacency_members_below _ _ Hadj) as Hm.
  destruct (promote_cases vpoints_ vlinks Hk Hm) as [[Hpromote _]|[_ Hin]];
    [|by apply promotes_in_adjacency in Hin].
  assert (entries_fit (length vpoints_) inp status0) as Hfit.
  { split; [|split].
    - intros k Hr. rewrite Hstatus. unfold initial_status.
      rewrite (proj2 (Z.leb_le 0 k)) by lia.
      destruct (lookup_lt_is_Some_2 vpoints_ (Z.to_nat k)) as [v ->]; [lia|]. eauto.
    - intros k. rewrite Hstatus. unfold initial_status.
      destruct (0 <=? k)%Z eqn:Hk0; [|by apply Hfalse].
      destruct (vpoints_ !! Z.to_nat k) eqn:Hv; [|by apply Hfalse].
      intros _. apply lookup_lt_Some in Hv. apply Z.leb_le in Hk0. lia.
    - intros b Hb. rewrite Hstatus. unfold initial_status.
      destruct (Hbase b Hb) as [Hr|Hs].
      + rewrite (proj2 (Z.leb_le 0 b)) by lia.
        destruct (lookup_lt_is_Some_2 vpoints_ (Z.to_nat b)) as [v ->]; [lia|]. eauto.
      + destruct (if (0 <=? b)%Z then _ else _); eauto. }
  destruct (for_each_ok (λ s, entries_fit (length vpoints_) inp (status s))
              drive inp
              {| status := status0; exprs := []; link_symbol := 0; angle_symbol := 0;
                 node := 0; skip_times := 0 |}) as (st & Hdrive & Hst); [done| |].
  { intros s [b n] Hin Hs. destruct (Hint b n Hin) as [Hb Hn].
    apply drive_ok; [done|done|by apply in_int_spec..]. }
  exists vlinks, (positions vpoints_), inp, st.
  split; [|split; [done|]; split; [done|]; split; [|done]].
  - destruct vpoints_; [done|]. destruct inp; [done|].
    rewrite Hpromote. cbn -[for_each positions]. by rewrite Hdrive.
  - unfold positions. by rewrite length_fmap.
Qed.

(** X16. [t_config] ends and raises nothing, whenever every entry of
    the given [status] that is not solved is the index of a joint,
    every driver of an input pair is the index of a joint or has an
    entry in the given [status], the two joints of every input pair
    fit a C [int], and no grounded P joint has an R joint on one of
    its pin links. *)
Theorem t_config_returns_a_stack (vpoints_ : list (VPoint D))
    (inputs : option (list (Z * Z))) (status_ : option (gmap Z bool)) :
  (∀ k, default ∅ status_ !! k = Some false → (0 ≤ k < Z.of_nat (length vpoints_))%Z) →
  (∀ b, b ∈ (default [] inputs).*1 →
        (0 ≤ b < Z.of_nat (length vpoints_))%Z ∨ is_Some (default ∅ status_ !! b)) →
  (∀ b n, (b, n) ∈ default [] inputs →
          (- 2 ^ 31 ≤ b < 2 ^ 31)%Z ∧ (- 2 ^ 31 ≤ n < 2 ^ 31)%Z) →
  ¬ promotes vpoints_ →
  ∃ stk status', t_config vpoints_ inputs status_ = Some (Ok (stk, status')).
Proof.
  intros Hfalse Hbase Hint Hquiet. unfold t_config, t_config_fuel, t_config_bound.
  destruct (prepare_ok vpoints_ inputs status_ Hfalse Hbase Hint Hquiet)
    as [[s ->]|(vl & ps & inp & st & Hprep & Hk & Hm & Hpos & Hfit)]; [eauto|].
  rewrite Hprep. apply prepare_ready in Hprep as [_ H0].
  destruct (sweep_terminates vpoints_ vl ps inp (Z.of_nat (size (status st)))
              (sweep_bound (Z.of_nat (size (status st))) st) st H0) as [r Hr]; [done|].
  rewrite Hr.
  destruct (sweep_ok vpoints_ vl ps inp _ Hk Hm Hpos _ _ _ Hfit Hr) as (st' & -> & _).
  eauto.
Qed.

End PrepareRuns.

Lemma t_config_returns_a_stack_witness :
  ∃ stk status',
    t_config (D := Reals.Rdefinitions.R) fourbar (Some [(0, 2)%Z]) None
    = Some (Ok (stk, status')).
Proof.
  apply t_config_returns_a_stack.
  - intros k Hk. simpl in Hk. by rewrite lookup_empty in Hk.
  - intros b Hb. left. simpl in Hb. apply list_elem_of_singleton in Hb as ->.
    split; [lia|]. unfold fourbar. simpl. lia.
  - intros b n Hin. simpl in Hin. apply list_elem_of_singleton in Hin as [= -> ->]. lia.
  - intros (vb & v & link & Hvb & _ & Hp & _). unfold fourbar in Hvb.
    repeat (apply elem_of_cons in Hvb as [->|Hvb]; [done|]).
    by apply elem_of_nil in Hvb.
Defined.

(** ** Solved joints stay solved *)

Lemma stays_solved_refl m : stays_solved m m.
Proof. by intros k. Qed.

Lemma stays_solved_trans m1 m2 m3 :
  stays_solved m1 m2 → stays_solved m2 m3 → stays_solved m1 m3.
Proof. intros H1 H2 k Hk. eauto. Qed.

Lemma stays_solved_mark m k : stays_solved m (<[k := true]> m).
Proof.
  intros j Hj. destruct (decide (k = j)) as [->|].
  - by rewrite lookup_insert_eq.
  - by rewrite lookup_insert_ne.
Qed.

Section Solved.
Context {D : Type} `{!CDouble D} `{!Libm D} {index_order : IndexOrder}.
Variables (vpoints : list (VPoint D)) (vlinks : gmap string (list Z))
          (pos : list (D * D)) (inputs : list (Z * Z)) (around : Z).

Lemma drive_stays st input st' :
  drive st input = Ok st' → stays_solved (status st) (status st').
Proof.
  intros (_ & _ & Hrun)%drive_inv. bind_inv Hrun. destruct a; injection Hrun as <-.
  - apply stays_solved_mark.
  - apply stays_solved_refl.
Qed.

Lemma visit_R_stays st st' :
  visit_R vpoints vlinks pos inputs st = Ok st' → stays_solved (status st) (status st').
Proof.
  unfold visit_R. destruct (bool_decide _).
  - intros Hrun. bind_inv Hrun. destruct a; injection Hrun as <-;
      [apply stays_solved_mark|apply stays_solved_refl].
  - intros Hrun. bind_inv Hrun. destruct a as [|fa [|fb fi]];
      try (injection Hrun as <-; apply stays_solved_refl).
    do 3 bind_inv Hrun. injection Hrun as <-. apply stays_solved_mark.
Qed.

Lemma pxy_friend_stays n st fb st' :
  pxy_friend n st fb = Ok st' → stays_solved (status st) (status st').
Proof.
  unfold pxy_friend. intros Hrun. bind_inv Hrun. destruct a; injection Hrun as <-;
    [apply stays_solved_refl|apply stays_solved_mark].
Qed.

Lemma visit_P_stays st vpoint st' :
  visit_P vpoints vlinks st vpoint = Ok st' → stays_solved (status st) (status st').
Proof.
  unfold visit_P. destruct (_ || _ || _); [intros [= <-]; apply stays_solved_refl|].
  intros Hrun. bind_inv Hrun.
  destruct a as [|fa fi]; [injection Hrun as <-; apply stays_solved_refl|].
  bind_inv Hrun. injection Hrun as <-. simpl. revert Hbind0.
  apply (for_each_ind (λ s, stays_solved (status st) (status s)));
    [apply stays_solved_mark|].
  intros s link s' _ Hs Hlink. bind_inv Hlink. revert Hlink.
  apply (for_each_ind (λ s, stays_solved (status st) (status s))); [done|].
  intros s0 fb s1 _ Hs0 Hfb%pxy_friend_stays. by eapply stays_solved_trans.
Qed.

Lemma visit_RP_stays st vpoint st' :
  visit_RP vpoints vlinks pos st vpoint = Ok st' → stays_solved (status st) (status st').
Proof.
  unfold visit_RP. intros Hrun. bind_inv Hrun.
  destruct (pin_grounded vpoint), (grounded vpoint), (has_offset vpoint);
    simpl in Hrun; try (injection Hrun as <-; apply stays_solved_refl).
  bind_inv Hrun. destruct a0 as [|fa nb]; [injection Hrun as <-; apply stays_solved_refl|].
  bind_inv Hrun. destruct a0 as [|fb fi]; [injection Hrun as <-; apply stays_solved_refl|].
  simpl in Hrun. do 4 bind_inv Hrun. injection Hrun as <-. apply stays_solved_mark.
Qed.

Lemma sweep_step_stays st fl :
  sweep_step vpoints vlinks pos inputs around st = Ok fl →
  stays_solved (status st) (status (match fl with Continue s | Break s => s end)).
Proof.
  unfold sweep_step.
  case_bool_decide; [intros [= <-]; apply stays_solved_refl|].
  case_bool_decide; [intros [= <-]; apply stays_solved_refl|].
  intros Hrun. bind_inv Hrun. destruct a; [injection Hrun as <-; apply stays_solved_refl|].
  do 2 bind_inv Hrun. injection Hrun as <-. simpl.
  destruct (type a); eauto using visit_R_stays, visit_P_stays, visit_RP_stays.
Qed.

Lemma sweep_stays fuel st st' :
  sweep vpoints vlinks pos inputs around fuel st = Some (Ok st') →
  stays_solved (status st) (status st').
Proof.
  revert st. induction fuel as [|fuel IH]; intros st; [done|]. simpl.
  destruct (_is_all_lock _); [intros [= <-]; apply stays_solved_refl|].
  destruct (sweep_step _ _ _ _ _ st) as [[s|s]|e] eqn:Hstep; [| |done];
    apply sweep_step_stays in Hstep.
  - intros Hs%IH. by eapply stays_solved_trans.
  - by intros [= <-].
Qed.

End Solved.

Section Certificate.
Context {D : Type} `{!CDouble D} `{!Libm D} {index_order : IndexOrder}.

Lemma prepare_stays vpoints_ inputs status_ vpoints vlinks pos inputs' (st : Sweep) :
  prepare (D := D) vpoints_ inputs status_ = Ok (Ready vpoints vlinks pos inputs' st) →
  stays_solved (scan vpoints_ (default ∅ status_)).1 (status st).
Proof.
  unfold prepare. destruct vpoints_ as [|v l]; [done|].
  destruct (default [] inputs) as [|input il]; [done|].
  destruct (scan (v :: l) (default ∅ status_)) as [status0 vlinks0] eqn:Hscan.
  intros Hrun. do 2 bind_inv Hrun. injection Hrun as <- <- <- <- <-.
  revert Hbind0.
  apply (for_each_ind (λ s, stays_solved status0 (status s))); [apply stays_solved_refl|].
  intros s input' s' _ Hs Hd%drive_stays. by eapply stays_solved_trans.
Qed.

(** X17. When there are joints and input pairs, the [status] that
    [t_config] leaves marks a joint solved exactly when the joint was
    solved before the first construction or is the target of a
    construction of the stack. *)
Theorem status_marks_what_the_stack_constructs (fuel : nat) (vpoints_ : list (VPoint D))
    (inputs : list (Z * Z)) (status_ : option (gmap Z bool))
    (stk : EStack) (status' : gmap Z bool) :
  vpoints_ ≠ [] → inputs ≠ [] →
  t_config_fuel fuel vpoints_ (Some inputs) status_ = Some (Ok (stk, status')) →
  ∀ n, status' !! n = Some true
       ↔ initial_status vpoints_ status_ n = Some true
         ∨ ∃ e, e ∈ stk ∧ target e = (P_LABEL, n).
Proof.
  intros Hv Hi. unfold t_config_fuel.
  destruct (prepare vpoints_ (Some inputs) status_) as [[s|vps vl ps inp st]|e] eqn:Hprep;
    [|  |done].
  { unfold prepare in Hprep. destruct vpoints_; [done|]. simpl in Hprep.
    destruct inputs; [done|]. destruct (scan _ _). by do 2 bind_inv Hprep. }
  pose proof (prepare_stays _ _ _ _ _ _ _ _ Hprep) as Hstay.
  apply prepare_ready in Hprep as [Hs _].
  destruct (sweep _ _ _ _ _ _ _) as [[st'|?]|] eqn:Hsweep; [|done..].
  intros [= <- <-] n.
  pose proof (sweep_stays _ _ _ _ _ _ _ _ Hsweep) as Hstay'.
  apply (sweep_sound _ _ _ _ _ _ _ _ _ Hs) in Hsweep as [Ht Hm _ _].
  rewrite <- scan_status. split.
  - intros Hn. by apply Hm.
  - intros [H0|(e & He & Htgt)]; [by apply Hstay', Hstay|by eapply Ht].
Qed.

End Certificate.

Lemma status_marks_what_the_stack_constructs_witness :
  ∃ stk status',
    t_config (D := Reals.Rdefinitions.R) slider_crank (Some [(0, 1)%Z]) None
    = Some (Ok (stk, status'))
    ∧ ∀ n, status' !! n = Some true
           ↔ initial_status (D := Reals.Rdefinitions.R) slider_crank None n = Some true
             ∨ ∃ e, e ∈ stk ∧ target e = (P_LABEL, n).
Proof.
  destruct (slider_crank_run (D := Reals.Rdefinitions.R)) as (fb & fc & op & Hrun).
  eexists _, _. split; [exact Hrun|].
  refine (status_marks_what_the_stack_constructs _ _ _ _ _ _ _ _ Hrun); done.
Defined.

(** ** The numbering of the variables *)

Lemma numbered_succ label k :
  (0 ≤ k)%Z → numbered label (k + 1) = numbered label k ++ [(label, k)].
Proof.
  intros Hk. unfold numbered. rewrite seqZ_app by lia. rewrite fmap_app.
  apply (f_equal (app _)). rewrite seqZ_cons by lia. by simpl.
Qed.

Lemma numbering_nil : numbering [] 0 0.
Proof. unfold numbering. split_and!; try done; constructor. Qed.

Lemma numbering_snoc exprs links_ angles e (dl da : list sym) :
  numbering exprs links_ angles →
  func e ≠ PLAP →
  with_label L_LABEL (parameters e) = dl →
  with_label A_LABEL (parameters e) = da →
  Forall (λ p, p.1 = L_LABEL ∨ p.1 = A_LABEL) (parameters e) →
  (0 ≤ links_)%Z
  ∧ with_label L_LABEL ((exprs ++ [e]) ≫= parameters) = numbered L_LABEL links_ ++ dl
  ∧ with_label A_LABEL ((exprs ++ [e]) ≫= parameters) = numbered A_LABEL angles ++ da
  ∧ Forall (λ e, func e ≠ PLAP) (exprs ++ [e])
  ∧ Forall (λ p, p.1 = L_LABEL ∨ p.1 = A_LABEL) ((exprs ++ [e]) ≫= parameters).
Proof.
  intros (H0 & HL & HA & Hn & Hf & Hp) He Hdl Hda Hpe.
  assert ((exprs ++ [e]) ≫= parameters = (exprs ≫= parameters) ++ parameters e) as ->.
  { rewrite bind_app. simpl. by rewrite app_nil_r. }
  unfold with_label in *. rewrite !filter_app.
  split; [done|]. split; [by f_equal|]. split; [by f_equal|].
  split; apply Forall_app; split; try done. by constructor.
Qed.

Lemma count_pla_snoc exprs e :
  Z.of_nat (length (filter (λ e, func e = PLA) (exprs ++ [e])))
  = (Z.of_nat (length (filter (λ e, func e = PLA) exprs))
     + if decide (func e = PLA) then 1 else 0)%Z.
Proof.
  rewrite filter_app, length_app, filter_cons, filter_nil.
  destruct (decide (func e = PLA)); simpl; lia.
Qed.

Lemma numbering_one exprs links_ angles e :
  numbering exprs links_ angles →
  func e = PLPP ∧ v1 e = (L_LABEL, links_) →
  numbering (exprs ++ [e]) (links_ + 1) angles.
Proof.
  intros Hs [He Hv]. pose proof Hs as (H0 & _ & _ & Hn & _).
  destruct (numbering_snoc _ _ _ e [(L_LABEL, links_)] [] Hs) as (_ & HL & HA & Hf & Hp).
  - by rewrite He.
  - unfold parameters. by rewrite He, Hv.
  - unfold parameters. by rewrite He, Hv.
  - unfold parameters. rewrite He, Hv. constructor; [by left|constructor].
  - split; [lia|]. rewrite numbered_succ by done. rewrite app_nil_r in HA.
    split; [done|]. split; [done|]. split; [|done].
    rewrite count_pla_snoc, decide_False by (by rewrite He). lia.
Qed.

Lemma numbering_two exprs links_ angles e :
  numbering exprs links_ angles →
  (func e = PLLP ∨ func e = PXY)
  ∧ v1 e = (L_LABEL, links_) ∧ v2 e = (L_LABEL, (links_ + 1)%Z) →
  numbering (exprs ++ [e]) (links_ + 2) angles.
Proof.
  intros Hs (He & Hv1 & Hv2). pose proof Hs as (H0 & _ & _ & Hn & _).
  assert (parameters e = [(L_LABEL, links_); (L_LABEL, (links_ + 1)%Z)]) as Hpar.
  { unfold parameters. destruct He as [-> | ->]; by rewrite Hv1, Hv2. }
  destruct (numbering_snoc _ _ _ e [(L_LABEL, links_); (L_LABEL, (links_ + 1)%Z)] [] Hs)
    as (_ & HL & HA & Hf & Hp).
  - by destruct He as [-> | ->].
  - by rewrite Hpar.
  - by rewrite Hpar.
  - rewrite Hpar. constructor; [by left|constructor; [by left|constructor]].
  - split; [lia|]. replace (links_ + 2)%Z with (links_ + 1 + 1)%Z by lia.
    rewrite !numbered_succ by lia. rewrite <- app_assoc. rewrite app_nil_r in HA.
    split; [done|]. split; [done|]. split; [|done].
    rewrite count_pla_snoc, decide_False by (by destruct He as [-> | ->]). lia.
Qed.

Lemma numbering_pla exprs links_ angles e :
  numbering exprs links_ angles →
  func e = PLA ∧ v1 e = (L_LABEL, links_) ∧ v2 e = (A_LABEL, angles) →
  numbering (exprs ++ [e]) (links_ + 1) (angles + 1).
Proof.
  intros Hs (He & Hv1 & Hv2). pose proof Hs as (H0 & _ & _ & Hn & _).
  assert (parameters e = [(L_LABEL, links_); (A_LABEL, angles)]) as Hpar.
  { unfold parameters. by rewrite He, Hv1, Hv2. }
  destruct (numbering_snoc _ _ _ e [(L_LABEL, links_)] [(A_LABEL, angles)] Hs)
    as (_ & HL & HA & Hf & Hp).
  - by rewrite He.
  - by rewrite Hpar.
  - by rewrite Hpar.
  - rewrite Hpar. constructor; [by left|constructor; [by right|constructor]].
  - split; [lia|]. rewrite !numbered_succ by lia.
    split; [done|]. split; [done|]. split; [|done].
    rewrite count_pla_snoc, decide_True by done. lia.
Qed.

Section Numbering.
Context {D : Type} `{!CDouble D} `{!Libm D} {index_order : IndexOrder}.
Variables (vpoints : list (VPoint D)) (vlinks : gmap string (list Z))
          (pos : list (D * D)) (inputs : list (Z * Z)) (around : Z).

Abbreviation numbered_state st := (numbering (exprs st) (link_symbol st) (angle_symbol st)).

Lemma drive_numbering st input st' :
  numbered_state st → drive st input = Ok st' → numbered_state st'.
Proof.
  intros Hs (_ & _ & Hrun)%drive_inv. bind_inv Hrun.
  destruct a; injection Hrun as <-; [|done].
  simpl. by apply numbering_pla.
Qed.

Lemma visit_R_numbering st st' :
  numbered_state st → visit_R vpoints vlinks pos inputs st = Ok st' → numbered_state st'.
Proof.
  intros Hs. unfold visit_R. destruct (bool_decide _).
  - intros Hrun. bind_inv Hrun. destruct a; injection Hrun as <-; [|done].
    simpl. by apply numbering_pla.
  - intros Hrun. bind_inv Hrun.
    destruct a as [|fa [|fb fi]]; try (by injection Hrun as <-).
    do 3 bind_inv Hrun. injection Hrun as <-. simpl. apply numbering_two; auto.
Qed.

Lemma pxy_friend_numbering n st fb st' :
  numbered_state st → pxy_friend n st fb = Ok st' → numbered_state st'.
Proof.
  unfold pxy_friend. intros Hs Hrun. bind_inv Hrun.
  destruct a; injection Hrun as <-; [done|]. simpl. apply numbering_two; auto.
Qed.

Lemma visit_P_numbering st vpoint st' :
  numbered_state st → visit_P vpoints vlinks st vpoint = Ok st' → numbered_state st'.
Proof.
  intros Hs. unfold visit_P. destruct (_ || _ || _); [by intros [= <-]|].
  intros Hrun. bind_inv Hrun. destruct a as [|fa fi]; [by injection Hrun as <-|].
  bind_inv Hrun. injection Hrun as <-. simpl. revert Hbind0.
  apply (for_each_ind (λ s, numbered_state s)); [simpl; apply numbering_two; auto|].
  intros s link s' _ IH Hlink. bind_inv Hlink. revert Hlink.
  apply (for_each_ind (λ s, numbered_state s)); [done|].
  intros s0 fb s1 _. apply pxy_friend_numbering.
Qed.

Lemma visit_RP_numbering st vpoint st' :
  numbered_state st → visit_RP vpoints vlinks pos st vpoint = Ok st' → numbered_state st'.
Proof.
  intros Hs. unfold visit_RP. intros Hrun. bind_inv Hrun.
  destruct (pin_grounded vpoint), (grounded vpoint), (has_offset vpoint);
    simpl in Hrun; try (by injection Hrun as <-).
  bind_inv Hrun. destruct a0 as [|fa nb]; [by injection Hrun as <-|].
  bind_inv Hrun. destruct a0 as [|fb fi]; [by injection Hrun as <-|].
  simpl in Hrun. do 4 bind_inv Hrun. injection Hrun as <-. simpl.
  replace (link_symbol st + 3)%Z with (link_symbol st + 2 + 1)%Z by lia.
  unfold add_plpp, add_pllp. apply numbering_one; [apply numbering_two; auto|].
  split; [done|]. simpl. by replace (link_symbol st + 2)%Z with (link_symbol st + 2)%Z.
Qed.

Lemma sweep_step_numbering st fl :
  numbered_state st →
  sweep_step vpoints vlinks pos inputs around st = Ok fl →
  numbered_state (match fl with Continue s | Break s => s end).
Proof.
  intros Hs. unfold sweep_step.
  case_bool_decide; [by intros [= <-]|].
  case_bool_decide; [by intros [= <-]|].
  intros Hrun. bind_inv Hrun. destruct a; [by injection Hrun as <-|].
  do 2 bind_inv Hrun. injection Hrun as <-. simpl.
  destruct (type a);
    eauto using visit_R_numbering, visit_P_numbering, visit_RP_numbering.
Qed.

Lemma sweep_numbering fuel st st' :
  numbered_state st →
  sweep vpoints vlinks pos inputs around fuel st = Some (Ok st') → numbered_state st'.
Proof.
  revert st. induction fuel as [|fuel IH]; intros st Hs; [done|]. simpl.
  destruct (_is_all_lock _); [by intros [= <-]|].
  destruct (sweep_step _ _ _ _ _ st) as [[s|s]|e] eqn:Hstep; [| |done];
    apply sweep_step_numbering in Hstep; try done.
  - by apply IH.
  - by intros [= <-].
Qed.

End Numbering.

Section NumberingOfTConfig.
Context {D : Type} `{!CDouble D} `{!Libm D} {index_order : IndexOrder}.

(** X18. The stack of [t_config] has no PLAP record; its variables
    are link and angle symbols; the link symbols are L0, L1, ... in
    the order of their use, each used once, and so are the angle
    symbols a0, a1, ..., one for every PLA record. *)
Theorem t_config_numbers_its_variables (fuel : nat) (vpoints_ : list (VPoint D))
    (inputs : option (list (Z * Z))) (status_ : option (gmap Z bool))
    (stk : EStack) (status' : gmap Z bool) :
  t_config_fuel fuel vpoints_ inputs status_ = Some (Ok (stk, status')) →
  ∃ links_ angles, numbering stk links_ angles.
Proof.
  unfold t_config_fuel.
  destruct (prepare vpoints_ inputs status_) as [[s|vps vl ps inp st]|e] eqn:Hprep;
    [| |done].
  { intros [= <- <-]. exists 0%Z, 0%Z. apply numbering_nil. }
  assert (numbering (exprs st) (link_symbol st) (angle_symbol st)) as Hst.
  { unfold prepare in Hprep. destruct vpoints_ as [|v l]; [done|].
    destruct (default [] inputs) as [|input il]; [done|].
    destruct (scan _ _) as [status0 vlinks0].
    do 2 bind_inv Hprep. injection Hprep as <- <- <- <- <-. revert Hbind0.
    apply (for_each_ind (λ s, numbering (exprs s) (link_symbol s) (angle_symbol s)));
      [apply numbering_nil|].
    intros s input' s' _. apply drive_numbering. }
  destruct (sweep _ _ _ _ _ _ _) as [[st'|?]|] eqn:Hsweep; [|done..].
  intros [= <- <-]. eexists _, _. by eapply sweep_numbering.
Qed.

End NumberingOfTConfig.

Lemma t_config_numbers_its_variables_witness :
  ∃ stk status' links_ angles,
    t_config (D := Reals.Rdefinitions.R) slider_crank (Some [(0, 1)%Z]) None
    = Some (Ok (stk, status'))
    ∧ length stk = 3%nat ∧ numbering stk links_ angles.
Proof.
  destruct (slider_crank_run (D := Reals.Rdefinitions.R)) as (fb & fc & op & Hrun).
  destruct (t_config_numbers_its_variables _ _ _ _ _ _ Hrun) as (links_ & angles & Hn).
  eexists _, _, links_, angles. split; [exact Hrun|]. split; [reflexivity|exact Hn].
Defined.

(** ** Every target is built once *)

Lemma built_once_push status exprs e :
  built_once status exprs → status !! (target e).2 ≠ Some true →
  built_once (<[(target e).2 := true]> status) (exprs ++ [e]).
Proof.
  intros [Hnd Hs] He. split.
  - rewrite fmap_app. apply NoDup_app. split; [done|]. split; [|apply NoDup_singleton].
    intros t (e' & -> & He')%list_elem_of_fmap Ht%list_elem_of_singleton.
    apply He. rewrite <- Ht. by apply Hs.
  - intros e' [He'| ->%list_elem_of_singleton]%elem_of_app.
    + by apply stays_solved_mark, Hs.
    + by rewrite lookup_insert_eq.
Qed.

Lemma built_once_push2 status exprs e1 e2 n :
  built_once status exprs → status !! n ≠ Some true →
  (target e1).2 = n → (target e2).2 = n → target e1 ≠ target e2 →
  built_once (<[n := true]> status) ((exprs ++ [e1]) ++ [e2]).
Proof.
  intros [Hnd Hs] Hn H1 H2 Hne. split.
  - rewrite !fmap_app. simpl. rewrite <- app_assoc. simpl.
    apply NoDup_app. split; [done|]. split.
    + intros t (e' & -> & He')%list_elem_of_fmap Ht.
      apply Hn. apply Hs in He'.
      apply elem_of_cons in Ht as [Ht|Ht%list_elem_of_singleton]; rewrite Ht in He';
        congruence.
    + apply NoDup_cons. split; [|apply NoDup_singleton].
      by intros ?%list_elem_of_singleton.
  - intros e' [[He'| ->%list_elem_of_singleton]%elem_of_app| ->%list_elem_of_singleton]%elem_of_app.
    + by apply stays_solved_mark, Hs.
    + rewrite H1. by rewrite lookup_insert_eq.
    + rewrite H2. by rewrite lookup_insert_eq.
Qed.

Section BuiltOnce.
Context {D : Type} `{!CDouble D} `{!Libm D} {index_order : IndexOrder}.
Variables (vpoints : list (VPoint D)) (vlinks : gmap string (list Z))
          (pos : list (D * D)) (inputs : list (Z * Z)) (around : Z).

Abbreviation once st := (built_once (status st) (exprs st)).

Lemma visit_R_once st st' :
  once st → status st !! node st = Some false →
  visit_R vpoints vlinks pos inputs st = Ok st' → once st'.
Proof.
  intros Hs Hn. unfold visit_R. destruct (bool_decide _).
  - intros Hrun. bind_inv Hrun. destruct a; injection Hrun as <-; [|done].
    simpl. apply (built_once_push _ _ (mkExpr PLA _ _ _ (P_LABEL, node st) _ _ _)); [done|].
    simpl. congruence.
  - intros Hrun. bind_inv Hrun.
    destruct a as [|fa [|fb fi]]; try (by injection Hrun as <-).
    do 3 bind_inv Hrun. injection Hrun as <-. simpl.
    apply (built_once_push _ _ (mkExpr PLLP _ _ _ _ (P_LABEL, node st) _ _)); [done|].
    simpl. congruence.
Qed.

Lemma pxy_friend_once n st fb st' :
  once st → pxy_friend n st fb = Ok st' → once st'.
Proof.
  unfold pxy_friend. intros Hs Hrun. bind_inv Hrun. apply getitem_dict_Ok in Hbind.
  destruct a; injection Hrun as <-; [done|]. simpl.
  apply (built_once_push _ _ (mkExpr PXY _ _ _ (P_LABEL, fb) _ _ _)); [done|].
  simpl. congruence.
Qed.

Lemma visit_P_once st vpoint st' :
  once st → status st !! node st = Some false →
  visit_P vpoints vlinks st vpoint = Ok st' → once st'.
Proof.
  intros Hs Hn. unfold visit_P. destruct (_ || _ || _); [by intros [= <-]|].
  intros Hrun. bind_inv Hrun. destruct a as [|fa fi]; [by injection Hrun as <-|].
  bind_inv Hrun. injection Hrun as <-. simpl. revert Hbind0.
  apply (for_each_ind (λ s, once s)).
  - simpl. apply (built_once_push _ _ (mkExpr PXY _ _ _ (P_LABEL, node st) _ _ _)); [done|].
    simpl. congruence.
  - intros s link s' _ IH Hlink. bind_inv Hlink. revert Hlink.
    apply (for_each_ind (λ s, once s)); [done|].
    intros s0 fb s1 _. apply pxy_friend_once.
Qed.

Lemma visit_RP_once st vpoint st' :
  once st → status st !! node st = Some false →
  visit_RP vpoints vlinks pos st vpoint = Ok st' → once st'.
Proof.
  intros Hs Hn. unfold visit_RP. intros Hrun. bind_inv Hrun.
  destruct (pin_grounded vpoint), (grounded vpoint), (has_offset vpoint);
    simpl in Hrun; try (by injection Hrun as <-).
  bind_inv Hrun. destruct a0 as [|fa nb]; [by injection Hrun as <-|].
  bind_inv Hrun. destruct a0 as [|fb fi]; [by injection Hrun as <-|].
  simpl in Hrun. do 4 bind_inv Hrun. injection Hrun as <-. simpl.
  unfold add_plpp, add_pllp. apply built_once_push2; try done. congruence.
Qed.

Lemma sweep_step_once st fl :
  once st →
  sweep_step vpoints vlinks pos inputs around st = Ok fl →
  once (match fl with Continue s | Break s => s end).
Proof.
  intros Hs. unfold sweep_step.
  case_bool_decide; [by intros [= <-]|].
  case_bool_decide; [by intros [= <-]|].
  intros Hrun. bind_inv Hrun. apply getitem_dict_Ok in Hbind.
  destruct a; [by injection Hrun as <-|].
  do 2 bind_inv Hrun. injection Hrun as <-. simpl.
  destruct (type a); eauto using visit_R_once, visit_P_once, visit_RP_once.
Qed.

Lemma sweep_once fuel st st' :
  once st →
  sweep vpoints vlinks pos inputs around fuel st = Some (Ok st') → once st'.
Proof.
  revert st. induction fuel as [|fuel IH]; intros st Hs; [done|]. simpl.
  destruct (_is_all_lock _); [by intros [= <-]|].
  destruct (sweep_step _ _ _ _ _ st) as [[s|s]|e] eqn:Hstep; [| |done];
    apply sweep_step_once in Hstep; try done.
  - by apply IH.
  - by intros [= <-].
Qed.

Lemma drive_all_once (l : list (Z * Z)) st st' :
  NoDup l.*2 → once st →
  (∀ e n, e ∈ exprs st → n ∈ l.*2 → target e ≠ (P_LABEL, n)) →
  for_each drive l st = Ok st' → once st'.
Proof.
  revert st. induction l as [|[b n] l IH]; intros st Hnd Hs Hout; simpl;
    [by intros [= <-]|].
  simpl in Hnd. apply NoDup_cons in Hnd as [Hn Hnd].
  intros (st1 & H1 & H2)%bind_Ok. revert H2. apply IH; [done| |].
  - apply drive_inv in H1 as (_ & _ & H1). bind_inv H1.
    destruct a; injection H1 as <-; [|done].
    simpl. destruct Hs as [Hnd' Hs]. split.
    + unfold add_pla. rewrite fmap_app. apply NoDup_app. split; [done|].
      split; [|apply NoDup_singleton].
      intros t (e' & -> & He')%list_elem_of_fmap Ht%list_elem_of_singleton.
      simpl in Ht. apply (Hout e' n He'); [simpl; left|done].
    + intros e' [He'| ->%list_elem_of_singleton]%elem_of_app.
      * by apply stays_solved_mark, Hs.
      * simpl. by rewrite lookup_insert_eq.
  - apply drive_inv in H1 as (_ & _ & H1). bind_inv H1.
    destruct a; injection H1 as <-.
    + simpl. intros e m [He| ->%list_elem_of_singleton]%elem_of_app Hm.
      * apply Hout; [done|by right].
      * simpl. intros [= ->]. done.
    + intros e m He Hm. apply Hout; [done|by right].
Qed.

End BuiltOnce.

Section BuiltOnceTConfig.
Context {D : Type} `{!CDouble D} `{!Libm D} {index_order : IndexOrder}.

(** X19. When no two input pairs drive the same joint, no two
    records of the stack of [t_config] have the same target. *)
Theorem t_config_builds_every_target_once (fuel : nat) (vpoints_ : list (VPoint D))
    (inputs : option (list (Z * Z))) (status_ : option (gmap Z bool))
    (stk : EStack) (status' : gmap Z bool) :
  NoDup (default [] inputs).*2 →
  t_config_fuel fuel vpoints_ inputs status_ = Some (Ok (stk, status')) →
  NoDup (target <$> stk).
Proof.
  intros Hnd. unfold t_config_fuel.
  destruct (prepare vpoints_ inputs status_) as [[s|vps vl ps inp st]|e] eqn:Hprep;
    [| |done].
  { intros [= <- <-]. constructor. }
  assert (built_once (status st) (exprs st)) as Hst.
  { unfold prepare in Hprep. destruct vpoints_ as [|v l]; [done|].
    destruct (default [] inputs) as [|input il]; [done|].
    destruct (scan _ _) as [status0 vlinks0].
    do 2 bind_inv Hprep. injection Hprep as <- <- <- <- <-. revert Hbind0.
    apply drive_all_once; [done| |].
    - split; [constructor|]. by intros e ?%elem_of_nil.
    - by intros e n ?%elem_of_nil. }
  destruct (sweep _ _ _ _ _ _ _) as [[st'|?]|] eqn:Hsweep; [|done..].
  intros [= <- <-]. by eapply sweep_once.
Qed.

(** X15. The production for an RP joint either counts a skip and
    changes nothing else, or, for a joint that is grounded, not
    pin-grounded and without offset, appends exactly a PLLP that
    places the point S of the joint and a PLPP that places the joint,
    with three new link variables, marks the joint and resets
    [skip_times].  One operand of the PLLP is the joint itself.  The
    PLLP for a slot that is not grounded is never emitted. *)
Theorem visit_RP_skips_or_emits_two (vpoints : list (VPoint D))
    (vlinks : gmap string (list Z)) (pos : list (D * D)) (st st' : Sweep)
    (vpoint : VPoint D) :
  visit_RP vpoints vlinks pos st vpoint = Ok st' →
  st' = skip st
  ∨ (pin_grounded vpoint = false ∧ grounded vpoint = true ∧ has_offset vpoint = false
     ∧ ∃ fa fb fc op,
         (fb = node st ∨ fc = node st)
         ∧ st' = {| status := <[node st := true]> (status st);
                    exprs :=
                      exprs st ++
                      [mkExpr PLLP (P_LABEL, fb) (L_LABEL, link_symbol st)
                         (L_LABEL, (link_symbol st + 1)%Z) (P_LABEL, fc)
                         (S_LABEL, node st) unassigned false;
                       mkExpr PLPP (P_LABEL, fa) (L_LABEL, (link_symbol st + 2)%Z)
                         unassigned (P_LABEL, node st) (S_LABEL, node st)
                         (P_LABEL, node st) op];
                    link_symbol := (link_symbol st + 3)%Z;
                    angle_symbol := angle_symbol st;
                    node := node st;
                    skip_times := 0 |}).
Proof.
  unfold visit_RP. intros Hrun. bind_inv Hrun.
  destruct (pin_grounded vpoint), (grounded vpoint), (has_offset vpoint);
    simpl in Hrun; try (injection Hrun as <-; by left).
  bind_inv Hrun. destruct a0 as [|fa nb]; [injection Hrun as <-; by left|].
  bind_inv Hrun. destruct a0 as [|fb fi]; [injection Hrun as <-; by left|].
  simpl in Hrun. do 4 bind_inv Hrun. injection Hrun as <-. right.
  split; [done|]. split; [done|]. split; [done|].
  unfold add_plpp, add_pllp. rewrite <- app_assoc. simpl.
  eexists fa, _, _, _. split; [|reflexivity].
  destruct (_clockwise _ _ _); simpl; auto.
Qed.

End BuiltOnceTConfig.

Lemma t_config_builds_every_target_once_witness :
  ∃ stk status',
    t_config (D := Reals.Rdefinitions.R) slider_crank (Some [(0, 1)%Z]) None
    = Some (Ok (stk, status'))
    ∧ length stk = 3%nat ∧ NoDup (target <$> stk).
Proof.
  destruct (slider_crank_run (D := Reals.Rdefinitions.R)) as (fb & fc & op & Hrun).
  eexists _, _. split; [exact Hrun|]. split; [reflexivity|].
  refine (t_config_builds_every_target_once _ _ _ _ _ _ _ Hrun).
  simpl. apply NoDup_singleton.
Defined.

(** ** The loops of [t_config], one by one *)

Section Wrappers.
Context {D : Type} `{!CDouble D} `{!Libm D} {index_order : IndexOrder}.

(** X11. After the first loop of [t_config], [vlinks] has an entry
    for exactly the links some joint names, and the entry of a link
    lists, without repetition, exactly the joints on that link. *)
Theorem first_loop_lists_joints_by_link (vpoints_ : list (VPoint D))
    (status_ : gmap Z bool) (link : string) :
  match (scan vpoints_ status_).2 !! link with
  | Some members =>
      NoDup members
      ∧ ∀ m, m ∈ members
             ↔ (0 ≤ m)%Z ∧ ∃ v, vpoints_ !! Z.to_nat m = Some v ∧ link ∈ links v
  | None => ∀ v, v ∈ vpoints_ → link ∉ links v
  end.
Proof.
  pose proof (scan_adjacency vpoints_ status_ link) as Hadj.
  destruct (_ !! link); [done|].
  intros v [i Hi]%list_elem_of_lookup_1 Hl. apply (Hadj (Z.of_nat i)).
  split; [lia|]. exists v. by rewrite Nat2Z.id.
Qed.

(** X12. The promotion of the friends of grounded P joints never
    changes a joint.  When a grounded P joint has an R joint on one of
    its pin links, the promotion hands [c_slider_joint] a list where
    a [str] is declared, and [t_config] raises TypeError, whatever
    the input pairs and the given [status] are; otherwise the
    promotion leaves the list of joints as it was. *)
Theorem promotion_raises_or_changes_nothing (fuel : nat) (vpoints_ : list (VPoint D))
    (inputs : list (Z * Z)) (status_ : option (gmap Z bool)) :
  vpoints_ ≠ [] → inputs ≠ [] →
  (promotes vpoints_ →
   t_config_fuel fuel vpoints_ (Some inputs) status_ = Some (Raise TypeError))
  ∧ (¬ promotes vpoints_ →
     promote (scan vpoints_ (default ∅ status_)).2 vpoints_ = Ok vpoints_).
Proof.
  intros Hv Hi.
  pose proof (scan_adjacency vpoints_ (default ∅ status_)) as Hadj.
  destruct (promote_cases vpoints_ (scan vpoints_ (default ∅ status_)).2)
    as [[Hrun Hno]|[Hrun Hyes]].
  - by apply adjacency_links_known.
  - by apply adjacency_members_below.
  - split; [|done]. intros Hp. by apply (proj2 (promotes_in_adjacency _ _ Hadj)) in Hp.
  - split; [|intros Hno; by apply promotes_in_adjacency in Hyes].
    intros _. unfold t_config_fuel, prepare.
    destruct vpoints_ as [|v l]; [done|]. destruct inputs as [|input il]; [done|].
    simpl default.
    destruct (scan (v :: l) (default ∅ status_)) as [status0 vlinks0].
    simpl in Hrun. by rewrite Hrun.
Qed.

(** X13. [_get_reliable_friend] yields, link by link of the joint and
    skipping links with fewer than two joints, the joints on the link
    that are solved and are not the joint itself, in the order in
    which the set of the link is listed; a friend on two links of the
    joint is yielded twice. *)
Theorem reliable_friends_are_listed_link_by_link (vpoints : list (VPoint D))
    (vlinks : gmap string (list Z)) (status : gmap Z bool) (node : Z) (fi : list Z) :
  (0 ≤ node)%Z →
  _get_reliable_friend node vpoints vlinks status = Ok fi →
  ∃ v, vpoints !! Z.to_nat node = Some v
       ∧ fi = reliable_friends node v vlinks status
       ∧ ∀ f, f ∈ fi → status !! f = Some true ∧ f ≠ node.
Proof.
  intros Hnode Hrun.
  destruct (_get_reliable_friend_spec _ _ _ _ _ Hnode Hrun) as (v & Hv & ->).
  exists v. split; [done|]. split; [done|].
  unfold reliable_friends. by intros f [? _]%list_elem_of_filter.
Qed.

(** X14. [_get_not_base_friend] yields the solved joints on the second
    link of the joint, and nothing for a joint with fewer than two
    links; [_get_base_friend] yields every joint on the first link,
    solved or not, the joint itself among them; both in the order in
    which the set of the link is listed. *)
Theorem slot_and_pin_friends (vpoints : list (VPoint D))
    (vlinks : gmap string (list Z)) (status : gmap Z bool) (node : Z)
    (pin_side slot_side : list Z) :
  (0 ≤ node)%Z →
  _get_not_base_friend node vpoints vlinks status = Ok pin_side →
  _get_base_friend node vpoints vlinks status = Ok slot_side →
  ∃ v, vpoints !! Z.to_nat node = Some v
       ∧ pin_side = match links v with
                    | _ :: pin_link :: _ =>
                        filter (λ friend, status !! friend = Some true)
                          (set_iter (default [] (vlinks !! pin_link)))
                    | _ => []
                    end
       ∧ slot_side = match links v with
                     | slot_link :: _ => set_iter (default [] (vlinks !! slot_link))
                     | [] => []
                     end.
Proof.
  intros Hnode Hpin Hslot.
  destruct (_get_not_base_friend_spec _ _ _ _ _ Hnode Hpin) as (v & Hv & ->).
  destruct (_get_base_friend_spec _ _ _ _ _ Hnode Hslot) as (v' & Hv' & ->).
  rewrite Hv in Hv'. injection Hv' as <-. by exists v.
Qed.

End Wrappers.

Lemma promotion_raises_or_changes_nothing_witness :
  let sliding : list (VPoint Reals.Rdefinitions.R) :=
    [c_r_joint "ground, L1" (of_int 0) (of_int 0);
     c_slider_joint "ground, L2" VJoint.P (of_int 0) (of_int 30) (of_int 0);
     c_r_joint "L1, L2" (of_int 10) (of_int 30)] in
  t_config_fuel 0 sliding (Some [(0, 2)%Z]) None = Some (Raise TypeError).
Proof.
  intros sliding.
  refine (proj1 (promotion_raises_or_changes_nothing 0 sliding [(0, 2)%Z] None _ _) _);
    [done|done|].
  exists (c_slider_joint "ground, L2" VJoint.P (of_int 0) (of_int 30) (of_int 0)),
         (c_r_joint "L1, L2" (of_int 10) (of_int 30)), "L2".
  split; [right; left|]. split; [right; right; left|].
  split; [reflexivity|]. split; [vm_compute; reflexivity|]. split; [reflexivity|].
  split; [vm_compute; left|vm_compute; right; left].
Defined.

Lemma reliable_friends_are_listed_link_by_link_witness :
  let vlinks : gmap string (list Z) :=
    {[ "ground" := [0%Z]; "L1" := [0%Z; 1%Z]; "L2" := [0%Z; 1%Z] ]} in
  let status : gmap Z bool := {[ 0%Z := true; 1%Z := false ]} in
  _get_reliable_friend (D := Reals.Rdefinitions.R) 1 doubled vlinks status
  = Ok [0%Z; 0%Z]
  ∧ ∃ v, doubled (D := Reals.Rdefinitions.R) !! Z.to_nat 1 = Some v
         ∧ [0%Z; 0%Z] = reliable_friends 1 v vlinks status
         ∧ ∀ f, f ∈ [0%Z; 0%Z] → status !! f = Some true ∧ f ≠ 1%Z.
Proof.
  intros vlinks status.
  assert (_get_reliable_friend (D := Reals.Rdefinitions.R) 1 doubled vlinks status
          = Ok [0%Z; 0%Z]) as Hrun by (vm_compute; reflexivity).
  split; [exact Hrun|].
  exact (reliable_friends_are_listed_link_by_link doubled vlinks status 1 [0; 0]%Z
           ltac:(lia) Hrun).
Defined.

Lemma slot_and_pin_friends_witness :
  let vlinks : gmap string (list Z) :=
    {[ "ground" := [0%Z; 2%Z]; "L1" := [0%Z; 1%Z]; "L2" := [1%Z; 2%Z] ]} in
  let status : gmap Z bool := {[ 0%Z := true; 1%Z := true; 2%Z := false ]} in
  ∃ v, slider_crank (D := Reals.Rdefinitions.R) !! Z.to_nat 2 = Some v
       ∧ [1%Z] = match links v with
                 | _ :: pin_link :: _ =>
                     filter (λ friend, status !! friend = Some true)
                       (set_iter (default [] (vlinks !! pin_link)))
                 | _ => []
                 end
       ∧ [0%Z; 2%Z] = match links v with
                      | slot_link :: _ => set_iter (default [] (vlinks !! slot_link))
                      | [] => []
                      end.
Proof.
  intros vlinks status.
  refine (slot_and_pin_friends slider_crank vlinks status 2 [1]%Z [0; 2]%Z _ _ _).
  - lia.
  - vm_compute. reflexivity.
  - vm_compute. reflexivity.
Defined.

Lemma visit_RP_skips_or_emits_two_witness :
  let vlinks : gmap string (list Z) :=
    {[ "ground" := [0%Z; 2%Z]; "L1" := [0%Z; 1%Z]; "L2" := [1%Z; 2%Z] ]} in
  let st := {| status := {[ 0%Z := true; 1%Z := true; 2%Z := false ]}; exprs := [];
               link_symbol := 1; angle_symbol := 1; node := 2; skip_times := 0 |} in
  let vpoint : VPoint Reals.Rdefinitions.R :=
    c_slider_joint "ground, L2" VJoint.RP (of_int 0) (of_int 70) (of_int 0) in
  ∃ st', visit_RP slider_crank vlinks (positions slider_crank) st vpoint = Ok st'
         ∧ length (exprs st') = 2%nat
         ∧ (st' = skip st
            ∨ (pin_grounded vpoint = false ∧ grounded vpoint = true
               ∧ has_offset vpoint = false
               ∧ ∃ fa fb fc op,
                   (fb = node st ∨ fc = node st)
                   ∧ st' = {| status := <[node st := true]> (status st);
                              exprs :=
                                exprs st ++
                                [mkExpr PLLP (P_LABEL, fb) (L_LABEL, link_symbol st)
                                   (L_LABEL, (link_symbol st + 1)%Z) (P_LABEL, fc)
                                   (S_LABEL, node st) unassigned false;
                                 mkExpr PLPP (P_LABEL, fa)
                                   (L_LABEL, (link_symbol st + 2)%Z)
                                   unassigned (P_LABEL, node st) (S_LABEL, node st)
                                   (P_LABEL, node st) op];
                              link_symbol := (link_symbol st + 3)%Z;
                              angle_symbol := angle_symbol st;
                              node := node st;
                              skip_times := 0 |})).
Proof.
  intros vlinks st vpoint.
  assert (∃ st', visit_RP slider_crank vlinks (positions slider_crank) st vpoint = Ok st'
                 ∧ length (exprs st') = 2%nat) as (st' & Hrun & Hlen).
  { vm_compute. eexists. split; reflexivity. }
  exists st'. split; [exact Hrun|]. split; [exact Hlen|].
  exact (visit_RP_skips_or_emits_two _ _ _ _ _ _ Hrun).
Defined.

(** ** More of [SolverSystem] *)

Section SolverMore.
Context {D : Type} `{!CDouble D} `{!Libm D} {index_order : IndexOrder}.
Import SolverSystem.

Lemma same_points_from_spec (self : SolverSystem.t D) (k : nat)
    (vpoints_ : list (VPoint D)) :
  unraisable false (same_points_from self (Z.of_nat k) vpoints_)
  = Ok (bool_decide ((links <$> vpoints_) `prefix_of` drop k (links <$> vpoints self))).
Proof.
  revert k. induction vpoints_ as [|p1 rest IH]; intros k;
    cbn [same_points_from fmap list_fmap].
  - rewrite bool_decide_eq_true_2; [done|]. apply prefix_nil.
  - destruct (vpoints self !! k) as [p2|] eqn:Hk.
    + rewrite (getitem_list_Ok _ _ _ Hk). cbn [mbind result_bind].
      rewrite (drop_S _ (links p2)) by (by rewrite list_lookup_fmap, Hk).
      case_bool_decide as Hl.
      * cbn [unraisable]. rewrite bool_decide_eq_false_2; [done|].
        intros Hp. by apply prefix_cons_inv_1 in Hp.
      * replace (Z.of_nat k + 1)%Z with (Z.of_nat (S k)) by lia. rewrite IH.
        f_equal. apply bool_decide_ext. rewrite Hl. split.
        -- apply prefix_cons.
        -- apply prefix_cons_inv_2.
    + unfold getitem_list.
      destruct (Z.ltb_spec (Z.of_nat k) 0) as [?|_]; [lia|].
      destruct (Z.ltb_spec (Z.of_nat k) 0) as [?|_]; [lia|].
      rewrite Nat2Z.id, Hk. cbn [mbind result_bind unraisable].
      rewrite drop_ge by (rewrite length_fmap; by apply lookup_ge_None).
      rewrite bool_decide_eq_false_2; [done|]. intros Hp. by apply prefix_nil_inv in Hp.
Qed.

(** X21. [same_points] raises nothing and answers True exactly when
    the links of the joints of its argument are, joint by joint, the
    links of the first stored joints: it answers False at the first
    joint whose links differ, and also when the argument is longer
    than the stored list and agrees with all of it, where the
    IndexError of [self.vpoints[i]] is dropped. *)
Theorem same_points_is_a_prefix_test (self : SolverSystem.t D)
    (vpoints_ : list (VPoint D)) :
  same_points self vpoints_
  = Ok (bool_decide ((links <$> vpoints_) `prefix_of` (links <$> vpoints self))).
Proof. unfold same_points. by rewrite (same_points_from_spec self 0). Qed.

Lemma dict_set_keys {K} `{EqDecision K} {V} (k : K) (v : V) (d : odict K V) :
  k ∈ d.*1 → (dict_set k v d).*1 = d.*1.
Proof.
  induction d as [|[k' v'] d IH]; simpl; [by intros ?%elem_of_nil|].
  case_bool_decide as Hk; [by subst|].
  intros [?|?]%elem_of_cons; [done|]. simpl. f_equal. by apply IH.
Qed.

Lemma dict_update_keys {K} `{EqDecision K} {V} (d new : odict K V) :
  (∀ k, k ∈ new.*1 → k ∈ d.*1) → (dict_update d new).*1 = d.*1.
Proof.
  unfold dict_update. revert d. induction new as [|[k v] new IH]; intros d Hsub; [done|].
  simpl. rewrite IH.
  - apply dict_set_keys. apply Hsub. left.
  - intros k' Hk'. rewrite dict_set_keys by (apply Hsub; left). apply Hsub. by right.
Qed.

Lemma write_angles_length (items : odict (Z * Z) D) it angles angles' :
  write_angles items it angles = Ok angles' → length angles' = length angles.
Proof.
  revert it angles. induction items as [|item items IH]; intros it angles; simpl.
  - by intros [= <-].
  - destruct (_ =? _)%Z; [apply IH|].
    destruct (_ <? _)%nat; [|done]. intros ->%IH. by rewrite length_insert.
Qed.

(** X22. A call of [set_inputs] that returns, on any system, leaves
    the joints, the input pairs and their order, and the number of
    stored angles as they were; and when no dictionary is given or
    the dictionary has a key that is not an input pair, it leaves the
    whole system as it was. *)
Theorem set_inputs_changes_angles_only (self self' : SolverSystem.t D)
    (inputs_ : option (odict (Z * Z) D)) :
  set_inputs self inputs_ = Ok self' →
  vpoints self' = vpoints self
  ∧ show_inputs self' = show_inputs self
  ∧ length (inputs_angle self') = length (inputs_angle self)
  ∧ ((∀ new, inputs_ = Some new → ∃ k, k ∈ new.*1 ∧ k ∉ show_inputs self) →
     self' = self).
Proof.
  unfold set_inputs, set_inputs_body.
  destruct (inputs self) as [mine|] eqn:Hmine;
    [|destruct inputs_; by intros [= <-]].
  destruct inputs_ as [new|]; [|by intros [= <-]].
  case_bool_decide as Hsub; simpl; [|by intros [= <-]].
  destruct (write_angles _ _ _) as [angles|e] eqn:Hw; simpl;
    [|destruct e; try done; by intros [= <-]].
  intros [= <-]. simpl. split; [done|]. split; [|split].
  - unfold show_inputs in *. rewrite Hmine in *. simpl in *.
    rewrite Forall_forall in Hsub. by apply dict_update_keys.
  - by eapply write_angles_length.
  - intros Hbad. destruct (Hbad new eq_refl) as (k & Hk & Hnk).
    rewrite Forall_forall in Hsub. destruct Hnk. by apply Hsub.
Qed.

End SolverMore.

Lemma set_inputs_changes_angles_only_witness :
  let built :=
    SolverSystem.__cinit__ (D := Reals.Rdefinitions.R) fourbar
      (Some [((0, 2)%Z, of_int 0); ((1, 3)%Z, of_int 10)]) in
  ∃ self', SolverSystem.set_inputs built (Some [((1, 3)%Z, of_int 90)]) = Ok self'
           ∧ SolverSystem.show_inputs self' = [(0, 2)%Z; (1, 3)%Z]
           ∧ length (SolverSystem.inputs_angle self') = 2%nat.
Proof.
  intros built.
  assert (∃ self', SolverSystem.set_inputs built (Some [((1, 3)%Z, of_int 90)]) = Ok self')
    as [self' Hrun].
  { unfold SolverSystem.set_inputs, built. simpl. eexists. reflexivity. }
  exists self'. split; [exact Hrun|].
  destruct (set_inputs_changes_angles_only _ _ _ Hrun) as (_ & Hk & Hl & _).
  split; [exact Hk|exact Hl].
Defined.

Section SolverCompose.
Context {D : Type} `{!CDouble D} `{!Libm D} {index_order : IndexOrder}.
Import SolverSystem.

Lemma dict_set_keys_new {K} `{EqDecision K} {V} (k : K) (v : V) (d : odict K V) :
  k ∉ d.*1 → (dict_set k v d).*1 = d.*1 ++ [k].
Proof.
  induction d as [|[k' v'] d IH]; simpl; [done|].
  intros Hk. rewrite bool_decide_eq_false_2 by (intros ->; apply Hk; left).
  simpl. f_equal. apply IH. intros ?. apply Hk. by right.
Qed.

Lemma dict_set_elem {K} `{EqDecision K} {V} (k k' : K) (v : V) (d : odict K V) :
  k' ∈ (dict_set k v d).*1 ↔ k' = k ∨ k' ∈ d.*1.
Proof.
  destruct (decide (k ∈ d.*1)) as [Hin|Hin].
  - rewrite dict_set_keys by done. split; [by right|]. by intros [->|?].
  - rewrite dict_set_keys_new by done. rewrite elem_of_app, list_elem_of_singleton. tauto.
Qed.

Lemma dict_set_NoDup {K} `{EqDecision K} {V} (k : K) (v : V) (d : odict K V) :
  NoDup d.*1 → NoDup (dict_set k v d).*1.
Proof.
  intros Hd. destruct (decide (k ∈ d.*1)) as [Hin|Hin].
  - by rewrite dict_set_keys.
  - rewrite dict_set_keys_new by done. apply NoDup_app. split; [done|].
    split; [|apply NoDup_singleton]. by intros k' ? ->%list_elem_of_singleton.
Qed.

Lemma dict_update_elem {K} `{EqDecision K} {V} (k : K) (d new : odict K V) :
  k ∈ (dict_update d new).*1 ↔ k ∈ d.*1 ∨ k ∈ new.*1.
Proof.
  unfold dict_update. revert d. induction new as [|[k1 v1] new IH]; intros d; simpl.
  - split; [by left|]. by intros [?|?%elem_of_nil].
  - rewrite IH, dict_set_elem, elem_of_cons. tauto.
Qed.

Lemma dict_update_NoDup {K} `{EqDecision K} {V} (d new : odict K V) :
  NoDup d.*1 → NoDup (dict_update d new).*1.
Proof.
  unfold dict_update. revert d. induction new as [|[k1 v1] new IH]; intros d Hd; [done|].
  simpl. by apply IH, dict_set_NoDup.
Qed.

Lemma dict_get_dict_set {K} `{EqDecision K} {V} (k k' : K) (v : V) (d : odict K V) :
  dict_get k (dict_set k' v d) = if decide (k = k') then Some v else dict_get k d.
Proof.
  induction d as [|[k1 v1] d IH]; simpl.
  - destruct (decide (k = k')) as [->|]; [by rewrite bool_decide_eq_true_2|].
    by rewrite bool_decide_eq_false_2.
  - case_bool_decide as Hk1; simpl.
    + subst k1. destruct (decide (k = k')) as [->|].
      * by rewrite bool_decide_eq_true_2.
      * by rewrite !bool_decide_eq_false_2.
    + rewrite IH. destruct (decide (k = k')) as [->|]; [|done].
      by rewrite bool_decide_eq_false_2.
Qed.

Lemma dict_get_None {K} `{EqDecision K} {V} (k : K) (d : odict K V) :
  k ∉ d.*1 → dict_get k d = None.
Proof.
  induction d as [|[k1 v1] d IH]; simpl; [done|]. intros Hk.
  rewrite bool_decide_eq_false_2 by (intros ->; apply Hk; left).
  apply IH. intros ?. apply Hk. by right.
Qed.

Lemma dict_get_dict_update {K} `{EqDecision K} {V} (k : K) (d new : odict K V) :
  NoDup new.*1 →
  dict_get k (dict_update d new) = match dict_get k new with
                                   | Some v => Some v
                                   | None => dict_get k d
                                   end.
Proof.
  unfold dict_update. revert d. induction new as [|[k1 v1] new IH]; intros d Hnd; [done|].
  simpl in *. apply NoDup_cons in Hnd as [Hk1 Hnd]. rewrite IH by done.
  rewrite dict_get_dict_set. case_bool_decide as Hk.
  - subst k1. rewrite dict_get_None by done. by rewrite decide_True.
  - by rewrite decide_False.
Qed.

Lemma merge_merge (m a b : odict (Z * Z) D) :
  NoDup b.*1 → merge (merge m a) b = merge m (dict_update a b).
Proof.
  intros Hb. unfold merge. rewrite <- list_fmap_compose. apply list_fmap_ext.
  intros i [k v] _. simpl. rewrite dict_get_dict_update by done.
  by destruct (dict_get k b).
Qed.

(** X23. On a system as built, two calls of [set_inputs] in a row
    whose keys are all input pairs do what one call with the second
    dictionary laid over the first does: the system built from the
    inputs with both updates merged in. *)
Theorem set_inputs_twice_is_one_update (vpoints_ : list (VPoint D))
    (inputs0 a b : odict (Z * Z) D) :
  NoDup inputs0.*1 → NoDup a.*1 → NoDup b.*1 →
  (∀ k, k ∈ a.*1 → k ∈ inputs0.*1) → (∀ k, k ∈ b.*1 → k ∈ inputs0.*1) →
  (s ← set_inputs (__cinit__ vpoints_ (Some inputs0)) (Some a); set_inputs s (Some b))
  = set_inputs (__cinit__ vpoints_ (Some inputs0)) (Some (dict_update a b))
  ∧ set_inputs (__cinit__ vpoints_ (Some inputs0)) (Some (dict_update a b))
    = Ok (__cinit__ vpoints_ (Some (merge inputs0 (dict_update a b)))).
Proof.
  intros Hnd0 Hnda Hndb Ha Hb.
  assert (set_inputs (__cinit__ vpoints_ (Some inputs0)) (Some (dict_update a b))
          = Ok (__cinit__ vpoints_ (Some (merge inputs0 (dict_update a b))))) as Hone.
  { apply set_inputs_merge; [done|by apply dict_update_NoDup|].
    intros k [?|?]%dict_update_elem; auto. }
  split; [|done]. rewrite Hone.
  rewrite set_inputs_merge by done. simpl.
  rewrite set_inputs_merge; [by rewrite merge_merge|by rewrite merge_keys|done|].
  by rewrite merge_keys.
Qed.

End SolverCompose.

Lemma set_inputs_twice_is_one_update_witness :
  let built :=
    SolverSystem.__cinit__ (D := Reals.Rdefinitions.R) fourbar
      (Some [((0, 2)%Z, of_int 0); ((1, 3)%Z, of_int 10)]) in
  (s ← SolverSystem.set_inputs built (Some [((0, 2)%Z, of_int 30)]);
   SolverSystem.set_inputs s (Some [((1, 3)%Z, of_int 90); ((0, 2)%Z, of_int 45)]))
  = SolverSystem.set_inputs built
      (Some [((0, 2)%Z, of_int 45); ((1, 3)%Z, of_int 90)]).
Proof.
  intros built.
  refine (proj1 (set_inputs_twice_is_one_update fourbar
                   [((0, 2)%Z, of_int 0); ((1, 3)%Z, of_int 10)]
                   [((0, 2)%Z, of_int 30)]
                   [((1, 3)%Z, of_int 90); ((0, 2)%Z, of_int 45)] _ _ _ _ _)).
  - apply NoDup_cons. split; [|apply NoDup_singleton].
    by intros [=]%list_elem_of_singleton.
  - apply NoDup_singleton.
  - apply NoDup_cons. split; [|apply NoDup_singleton].
    by intros [=]%list_elem_of_singleton.
  - intros k ->%list_elem_of_singleton. left.
  - intros k [->| ->%list_elem_of_singleton]%elem_of_cons; [right; left|left].
Defined.

(** ** The orientation of a PLLP *)

Module RealOrientation.
Import Reals RealArithmetic.
#[local] Open Scope R_scope.

Lemma clockwise_swap (a n b : R * R) :
  _clockwise a n b = false → _clockwise b n a = true.
Proof.
  unfold _clockwise. cbn [dsub dmul deqb dltb of_int R_CDouble fst snd].
  intros [H1 H2]%orb_false_iff. apply Rltb_false in H2.
  apply not_true_iff_false in H1. rewrite Reqb_true in H1.
  apply orb_true_iff. right. apply Rltb_true. lra.
Qed.

End RealOrientation.

(** X20. In exact arithmetic, the PLLP that the production for an R
    joint appends has two solved friends as operands, in the order in
    which [_clockwise] holds of the first friend, the joint and the
    second friend. *)
Theorem pllp_of_R_joint_is_clockwise {index_order : IndexOrder}
    (vpoints : list (VPoint Reals.Rdefinitions.R)) (vlinks : gmap string (list Z))
    (pos : list (Reals.Rdefinitions.R * Reals.Rdefinitions.R)) (inputs : list (Z * Z))
    (st st' : Sweep) (e : Expr) :
  visit_R vpoints vlinks pos inputs st = Ok st' →
  exprs st' = exprs st ++ [e] → func e = PLLP →
  ∃ fa fb pa pn pb,
    c1 e = (P_LABEL, fa) ∧ c2 e = (P_LABEL, fb) ∧ target e = (P_LABEL, node st)
    ∧ status st !! fa = Some true ∧ status st !! fb = Some true
    ∧ getitem_list pos fa = Ok pa ∧ getitem_list pos (node st) = Ok pn
    ∧ getitem_list pos fb = Ok pb
    ∧ _clockwise pa pn pb = true.
Proof.
  unfold visit_R. destruct (bool_decide _).
  - intros Hrun. bind_inv Hrun. destruct a; injection Hrun as <-; simpl.
    + unfold add_pla. intros [_ <-]%app_inj_tail. done.
    + intros Heq Hf. rewrite <- (app_nil_r (exprs st)) in Heq at 1.
      by apply app_inv_head in Heq.
  - intros Hrun. bind_inv Hrun.
    destruct a as [|fa [|fb fi]];
      try (injection Hrun as <-; simpl; intros Heq Hf;
           rewrite <- (app_nil_r (exprs st)) in Heq at 1; by apply app_inv_head in Heq).
    assert (status st !! fa = Some true) as Hfa.
    { eapply _get_reliable_friend_solved; [done|]. left. }
    assert (status st !! fb = Some true) as Hfb.
    { eapply _get_reliable_friend_solved; [done|]. right. left. }
    do 3 bind_inv Hrun. injection Hrun as <-. simpl. unfold add_pllp.
    intros [_ <-]%app_inj_tail _. simpl.
    destruct (_clockwise a a0 a1) eqn:Hcw; simpl.
    + by exists fa, fb, a, a0, a1.
    + exists fb, fa, a1, a0, a. split_and!; try done. by apply RealOrientation.clockwise_swap.
Qed.

Lemma pllp_of_R_joint_is_clockwise_witness :
  let vlinks : gmap string (list Z) :=
    {[ "ground" := [0%Z; 1%Z]; "L1" := [0%Z; 2%Z]; "L2" := [2%Z; 3%Z];
       "L3" := [1%Z; 3%Z] ]} in
  let st := {| status := {[ 0%Z := true; 1%Z := true; 2%Z := true; 3%Z := false ]};
               exprs := []; link_symbol := 1; angle_symbol := 1; node := 3;
               skip_times := 0 |} in
  ∃ st' e,
    visit_R (fourbar (D := Reals.Rdefinitions.R)) vlinks (positions fourbar) [(0, 2)%Z] st = Ok st'
    ∧ exprs st' = [e]
    ∧ ∃ fa fb pa pn pb,
        c1 e = (P_LABEL, fa) ∧ c2 e = (P_LABEL, fb) ∧ target e = (P_LABEL, 3%Z)
        ∧ status st !! fa = Some true ∧ status st !! fb = Some true
        ∧ getitem_list (positions fourbar) fa = Ok pa
        ∧ getitem_list (positions fourbar) 3 = Ok pn
        ∧ getitem_list (positions fourbar) fb = Ok pb
        ∧ _clockwise pa pn pb = true.
Proof.
  intros vlinks st.
  assert (∃ st' e,
            visit_R (fourbar (D := Reals.Rdefinitions.R)) vlinks (positions fourbar) [(0, 2)%Z] st = Ok st'
            ∧ exprs st' = exprs st ++ [e] ∧ func e = PLLP) as (st' & e & Hrun & He & Hf).
  { vm_compute. eexists _, _. split; [reflexivity|]. split; reflexivity. }
  exists st', e. split; [exact Hrun|]. split; [exact He|].
  exact (pllp_of_R_joint_is_clockwise _ _ _ _ _ _ _ Hrun He Hf).
Defined.

(** ** The size of the stack *)

Lemma unsolved_insert_le (m : gmap Z bool) k b : unsolved (<[k := b]> m) ≤ unsolved m + 1.
Proof.
  destruct b; [pose proof (unsolved_mark_le m k); lia|].
  unfold unsolved. rewrite map_filter_insert_True by done.
  destruct (filter (λ kv : Z * bool, kv.2 = false) m !! k) eqn:Hk.
  - rewrite map_size_insert_Some by done. lia.
  - rewrite map_size_insert_None by done. lia.
Qed.

Section StackSize.
Context {D : Type} `{!CDouble D} `{!Libm D} {index_order : IndexOrder}.
Variables (vpoints : list (VPoint D)) (vlinks : gmap string (list Z))
          (pos : list (D * D)) (inputs : list (Z * Z)) (around : Z).

Abbreviation weight st := (length (exprs st) + 2 * unsolved (status st)).

Lemma drive_weight st input st' :
  drive st input = Ok st' → weight st' ≤ weight st + 1.
Proof.
  intros (_ & _ & Hrun)%drive_inv. bind_inv Hrun.
  destruct a; injection Hrun as <-; [|lia].
  simpl. unfold add_pla. rewrite length_app. simpl.
  pose proof (unsolved_mark_le (status st) input.2). lia.
Qed.

Lemma drive_all_weight (l : list (Z * Z)) st st' :
  for_each drive l st = Ok st' → weight st' ≤ weight st + length l.
Proof.
  revert st. induction l as [|input l IH]; intros st; simpl; [intros [= <-]; lia|].
  intros (st1 & H1%drive_weight & H2%IH)%bind_Ok. lia.
Qed.

Lemma visit_R_weight st st' :
  status st !! node st = Some false →
  visit_R vpoints vlinks pos inputs st = Ok st' → weight st' ≤ weight st.
Proof.
  intros Hn. unfold visit_R. destruct (bool_decide _).
  - intros Hrun. bind_inv Hrun. destruct a; injection Hrun as <-; [|simpl; lia].
    simpl. unfold add_pla. rewrite length_app. simpl.
    pose proof (unsolved_mark_lt (status st) (node st) Hn). lia.
  - intros Hrun. bind_inv Hrun. destruct a as [|fa [|fb fi]];
      try (injection Hrun as <-; simpl; lia).
    do 3 bind_inv Hrun. injection Hrun as <-. simpl. unfold add_pllp.
    rewrite length_app. simpl.
    pose proof (unsolved_mark_lt (status st) (node st) Hn). lia.
Qed.

Lemma pxy_friend_weight n st fb st' :
  pxy_friend n st fb = Ok st' → weight st' ≤ weight st.
Proof.
  unfold pxy_friend. intros Hrun. bind_inv Hrun. apply getitem_dict_Ok in Hbind.
  destruct a; injection Hrun as <-; [lia|]. simpl. unfold add_pxy.
  rewrite length_app. simpl. pose proof (unsolved_mark_lt (status st) fb Hbind). lia.
Qed.

Lemma visit_P_weight st vpoint st' :
  status st !! node st = Some false →
  visit_P vpoints vlinks st vpoint = Ok st' → weight st' ≤ weight st.
Proof.
  intros Hn. unfold visit_P. destruct (_ || _ || _); [intros [= <-]; simpl; lia|].
  intros Hrun. bind_inv Hrun. destruct a as [|fa fi]; [injection Hrun as <-; simpl; lia|].
  bind_inv Hrun. injection Hrun as <-. simpl. revert Hbind0.
  apply (for_each_ind (λ s, weight s ≤ weight st)).
  - simpl. unfold add_pxy. rewrite length_app. simpl.
    pose proof (unsolved_mark_lt (status st) (node st) Hn). lia.
  - intros s link s' _ IH Hlink. bind_inv Hlink. revert Hlink.
    apply (for_each_ind (λ s, weight s ≤ weight st)); [done|].
    intros s0 fb s1 _ Hs0 Hfb%pxy_friend_weight. lia.
Qed.

Lemma visit_RP_weight st vpoint st' :
  status st !! node st = Some false →
  visit_RP vpoints vlinks pos st vpoint = Ok st' → weight st' ≤ weight st.
Proof.
  intros Hn. unfold visit_RP. intros Hrun. bind_inv Hrun.
  destruct (pin_grounded vpoint), (grounded vpoint), (has_offset vpoint);
    simpl in Hrun; try (injection Hrun as <-; simpl; lia).
  bind_inv Hrun. destruct a0 as [|fa nb]; [injection Hrun as <-; simpl; lia|].
  bind_inv Hrun. destruct a0 as [|fb fi]; [injection Hrun as <-; simpl; lia|].
  simpl in Hrun. do 4 bind_inv Hrun. injection Hrun as <-. simpl.
  unfold add_plpp, add_pllp. rewrite !length_app. simpl.
  pose proof (unsolved_mark_lt (status st) (node st) Hn). lia.
Qed.

Lemma sweep_step_weight st fl :
  sweep_step vpoints vlinks pos inputs around st = Ok fl →
  weight (match fl with Continue s | Break s => s end) ≤ weight st.
Proof.
  unfold sweep_step.
  case_bool_decide; [intros [= <-]; simpl; lia|].
  case_bool_decide; [intros [= <-]; simpl; lia|].
  intros Hrun. bind_inv Hrun. apply getitem_dict_Ok in Hbind.
  destruct a; [injection Hrun as <-; simpl; lia|].
  do 2 bind_inv Hrun. injection Hrun as <-. simpl.
  destruct (type a); eauto using visit_R_weight, visit_P_weight, visit_RP_weight.
Qed.

Lemma sweep_weight fuel st st' :
  sweep vpoints vlinks pos inputs around fuel st = Some (Ok st') → weight st' ≤ weight st.
Proof.
  revert st. induction fuel as [|fuel IH]; intros st; [done|]. simpl.
  destruct (_is_all_lock _); [intros [= <-]; lia|].
  destruct (sweep_step _ _ _ _ _ st) as [[s|s]|e] eqn:Hstep; [| |done];
    apply sweep_step_weight in Hstep.
  - intros Hs%IH. lia.
  - intros [= <-]. lia.
Qed.

End StackSize.

Section StackSizeOfTConfig.
Context {D : Type} `{!CDouble D} `{!Libm D} {index_order : IndexOrder}.

Lemma scan_joint_insert acc n (v : VPoint D) :
  (scan_joint acc (n, v)).1 = <[n := solved_at_start v]> acc.1.
Proof.
  apply map_eq. intros k. rewrite scan_joint_status.
  destruct (decide (k = n)) as [->|]; [by rewrite lookup_insert_eq|].
  by rewrite lookup_insert_ne.
Qed.

Lemma scan_unsolved (vpoints_ : list (VPoint D)) (status_ : gmap Z bool) :
  unsolved (scan vpoints_ status_).1 ≤ unsolved status_ + length vpoints_.
Proof.
  unfold scan. induction vpoints_ as [|v l IH] using rev_ind; [simpl; lia|].
  rewrite enumerate_snoc, foldl_app, length_app. simpl.
  rewrite scan_joint_insert.
  pose proof (unsolved_insert_le (foldl scan_joint (status_, ∅) (enumerate l)).1
                (Z.of_nat (length l)) (solved_at_start v)).
  lia.
Qed.

Lemma prepare_ready_inv (vpoints_ : list (VPoint D)) inputs status_
    vpoints vlinks pos inputs' (st : Sweep) :
  prepare vpoints_ inputs status_ = Ok (Ready vpoints vlinks pos inputs' st) →
  vpoints_ ≠ [] ∧ inputs' = default [] inputs ∧ inputs' ≠ []
  ∧ vlinks = (scan vpoints_ (default ∅ status_)).2
  ∧ promote vlinks vpoints_ = Ok vpoints
  ∧ pos = positions vpoints
  ∧ for_each drive inputs'
      {| status := (scan vpoints_ (default ∅ status_)).1; exprs := [];
         link_symbol := 0; angle_symbol := 0; node := 0; skip_times := 0 |} = Ok st.
Proof.
  unfold prepare. destruct vpoints_ as [|v l]; [done|].
  destruct (default [] inputs) as [|input il]; [done|].
  destruct (scan (v :: l) (default ∅ status_)) as [status0 vlinks0].
  intros Hrun. do 2 bind_inv Hrun. injection Hrun as <- <- <- <- <-. by simpl.
Qed.

Lemma prepare_early_inv (vpoints_ : list (VPoint D)) inputs status_ s :
  prepare vpoints_ inputs status_ = Ok (Early s) →
  s = default ∅ status_ ∧ (vpoints_ = [] ∨ default [] inputs = []).
Proof.
  unfold prepare. destruct vpoints_ as [|v l]; [intros [= <-]; auto|].
  destruct (default [] inputs) as [|input il]; [intros [= <-]; auto|].
  destruct (scan (v :: l) (default ∅ status_)) as [status0 vlinks0].
  intros Hrun. by do 2 bind_inv Hrun.
Qed.

(** X24. The stack of [t_config] is short: the number of its records,
    plus twice the number of keys of the returned status that are still
    unsolved, is at most the number of input pairs plus twice the number
    of joints and of unsolved entries of the caller's status. Every
    input pair gives at most one record, and every later record solves
    a joint, the two records of an RP joint solving one. *)
Theorem t_config_stack_is_short (fuel : nat) (vpoints_ : list (VPoint D))
    (inputs : option (list (Z * Z))) (status_ : option (gmap Z bool))
    (stk : EStack) (status' : gmap Z bool) :
  t_config_fuel fuel vpoints_ inputs status_ = Some (Ok (stk, status')) →
  length stk + 2 * unsolved status'
  ≤ length (default [] inputs) + 2 * (length vpoints_ + unsolved (default ∅ status_)).
Proof.
  unfold t_config_fuel.
  destruct (prepare vpoints_ inputs status_) as [[s|vps vl ps inp st]|e] eqn:Hprep;
    [| |done].
  { apply prepare_early_inv in Hprep as [-> _]. intros [= <- <-]. simpl. lia. }
  apply prepare_ready_inv in Hprep as (_ & -> & _ & _ & _ & _ & Hdrive).
  apply drive_all_weight in Hdrive. simpl in Hdrive.
  pose proof (scan_unsolved vpoints_ (default ∅ status_)) as Hscan.
  destruct (sweep _ _ _ _ _ _ _) as [[st'|?]|] eqn:Hsweep; [|done..].
  intros [= <- <-]. apply sweep_weight in Hsweep. lia.
Qed.

End StackSizeOfTConfig.

Lemma t_config_stack_is_short_witness :
  ∃ stk status',
    t_config (D := Reals.Rdefinitions.R) slider_crank (Some [(0, 1)%Z]) None
    = Some (Ok (stk, status'))
    ∧ length stk + 2 * unsolved status' ≤ 1 + 2 * (3 + 0).
Proof.
  destruct (slider_crank_run (D := Reals.Rdefinitions.R)) as (fb & fc & op & Hrun).
  eexists _, _. split; [exact Hrun|].
  exact (t_config_stack_is_short _ _ _ _ _ _ Hrun).
Defined.

(** ** The stack only grows *)

Section StackGrows.
Context {D : Type} `{!CDouble D} `{!Libm D} {index_order : IndexOrder}.
Variables (vpoints : list (VPoint D)) (vlinks : gmap string (list Z))
          (pos : list (D * D)) (inputs : list (Z * Z)) (around : Z).

Lemma drive_grows st input st' :
  drive st input = Ok st' → exprs st `prefix_of` exprs st'.
Proof.
  intros (_ & _ & Hrun)%drive_inv. bind_inv Hrun.
  destruct a; injection Hrun as <-; [|done].
  simpl. by apply prefix_app_r.
Qed.

Lemma visit_R_grows st st' :
  visit_R vpoints vlinks pos inputs st = Ok st' → exprs st `prefix_of` exprs st'.
Proof.
  unfold visit_R. destruct (bool_decide _).
  - intros Hrun. bind_inv Hrun. destruct a; injection Hrun as <-; [|done].
    simpl. by apply prefix_app_r.
  - intros Hrun. bind_inv Hrun.
    destruct a as [|fa [|fb fi]]; try (by injection Hrun as <-).
    do 3 bind_inv Hrun. injection Hrun as <-. simpl. by apply prefix_app_r.
Qed.

Lemma pxy_friend_grows n st fb st' :
  pxy_friend n st fb = Ok st' → exprs st `prefix_of` exprs st'.
Proof.
  unfold pxy_friend. intros Hrun. bind_inv Hrun.
  destruct a; injection Hrun as <-; [done|]. simpl. by apply prefix_app_r.
Qed.

Lemma visit_P_grows st vpoint st' :
  visit_P vpoints vlinks st vpoint = Ok st' → exprs st `prefix_of` exprs st'.
Proof.
  unfold visit_P. destruct (_ || _ || _); [by intros [= <-]|].
  intros Hrun. bind_inv Hrun. destruct a as [|fa fi]; [by injection Hrun as <-|].
  bind_inv Hrun. injection Hrun as <-. simpl. revert Hbind0.
  apply (for_each_ind (λ s, exprs st `prefix_of` exprs s)); [simpl; by apply prefix_app_r|].
  intros s link s' _ IH Hlink. bind_inv Hlink. revert Hlink.
  apply (for_each_ind (λ s, exprs st `prefix_of` exprs s)); [done|].
  intros s0 fb s1 _ Hs0 Hfb%pxy_friend_grows. by etrans.
Qed.

Lemma visit_RP_grows st vpoint st' :
  visit_RP vpoints vlinks pos st vpoint = Ok st' → exprs st `prefix_of` exprs st'.
Proof.
  unfold visit_RP. intros Hrun. bind_inv Hrun.
  destruct (pin_grounded vpoint), (grounded vpoint), (has_offset vpoint);
    simpl in Hrun; try (by injection Hrun as <-).
  bind_inv Hrun. destruct a0 as [|fa nb]; [by injection Hrun as <-|].
  bind_inv Hrun. destruct a0 as [|fb fi]; [by injection Hrun as <-|].
  simpl in Hrun. do 4 bind_inv Hrun. injection Hrun as <-. simpl.
  unfold add_plpp, add_pllp. rewrite <- app_assoc. by apply prefix_app_r.
Qed.

Lemma sweep_step_grows st fl :
  sweep_step vpoints vlinks pos inputs around st = Ok fl →
  exprs st `prefix_of` exprs (match fl with Continue s | Break s => s end).
Proof.
  unfold sweep_step.
  case_bool_decide; [by intros [= <-]|].
  case_bool_decide; [by intros [= <-]|].
  intros Hrun. bind_inv Hrun. destruct a; [by injection Hrun as <-|].
  do 2 bind_inv Hrun. injection Hrun as <-. simpl.
  destruct (type a); eauto using visit_R_grows, visit_P_grows, visit_RP_grows.
Qed.

Lemma sweep_grows fuel st st' :
  sweep vpoints vlinks pos inputs around fuel st = Some (Ok st') →
  exprs st `prefix_of` exprs st'.
Proof.
  revert st. induction fuel as [|fuel IH]; intros st; [done|]. simpl.
  destruct (_is_all_lock _); [by intros [= <-]|].
  destruct (sweep_step _ _ _ _ _ st) as [[s|s]|e] eqn:Hstep; [| |done];
    apply sweep_step_grows in Hstep.
  - intros Hs%IH. by etrans.
  - by intros [= <-].
Qed.

Lemma drive_all_grows (l : list (Z * Z)) st st' :
  for_each drive l st = Ok st' → exprs st `prefix_of` exprs st'.
Proof.
  apply (for_each_ind (λ s, exprs st `prefix_of` exprs s)); [done|].
  intros s input s' _ Hs Hd%drive_grows. by etrans.
Qed.

Lemma drive_all_pla (l : list (Z * Z)) st st' b n :
  for_each drive l st = Ok st' → (b, n) ∈ l → status st !! b = Some true →
  ∃ e, e ∈ exprs st' ∧ func e = PLA ∧ c1 e = (P_LABEL, b) ∧ target e = (P_LABEL, n).
Proof.
  revert st. induction l as [|input l IH]; intros st; simpl; [by intros _ ?%elem_of_nil|].
  intros (st1 & H1 & H2)%bind_Ok [<-|Hin]%elem_of_cons Hb.
  - apply drive_inv in H1 as (_ & _ & H1). simpl in H1.
    rewrite (proj2 (getitem_dict_Ok _ _ _) Hb) in H1.
    injection H1 as <-. apply drive_all_grows in H2 as [more Hmore].
    exists (mkExpr PLA (P_LABEL, b) (L_LABEL, link_symbol st) (A_LABEL, angle_symbol st)
              (P_LABEL, n) unassigned unassigned false).
    split; [|done]. rewrite Hmore. simpl. unfold add_pla.
    rewrite elem_of_app, elem_of_app, list_elem_of_singleton. auto.
  - apply (IH st1); [done..|]. by eapply drive_stays.
Qed.

End StackGrows.

Section DrivenInputs.
Context {D : Type} `{!CDouble D} `{!Libm D} {index_order : IndexOrder}.

(** X25. In a mechanism that has joints, every input pair [(b, n)] whose
    driver [b] is solved before the first construction has its PLA
    record in the returned stack, read from [P b] and building [P n],
    and [n] is solved in the returned status. *)
Theorem every_input_with_a_solved_driver_gets_its_PLA (fuel : nat)
    (vpoints_ : list (VPoint D)) (inputs : list (Z * Z))
    (status_ : option (gmap Z bool)) (stk : EStack) (status' : gmap Z bool)
    (b n : Z) :
  vpoints_ ≠ [] → (b, n) ∈ inputs →
  initial_status vpoints_ status_ b = Some true →
  t_config_fuel fuel vpoints_ (Some inputs) status_ = Some (Ok (stk, status')) →
  ∃ e, e ∈ stk ∧ func e = PLA ∧ c1 e = (P_LABEL, b) ∧ target e = (P_LABEL, n)
       ∧ status' !! n = Some true.
Proof.
  intros Hv Hin Hb. unfold t_config_fuel.
  destruct (prepare vpoints_ (Some inputs) status_) as [[s|vps vl ps inp st]|e] eqn:Hprep;
    [| |done].
  { apply prepare_early_inv in Hprep as [_ [?|Hnil]]; [done|]. simpl in Hnil. subst.
    by apply elem_of_nil in Hin. }
  pose proof (prepare_ready _ _ _ _ _ _ _ _ Hprep) as [Hsound _].
  apply prepare_ready_inv in Hprep as (_ & -> & _ & _ & _ & _ & Hdrive). simpl in *.
  destruct (drive_all_pla _ _ _ b n Hdrive Hin) as (e & He & Hf & Hc & Ht).
  { simpl. by rewrite scan_status. }
  destruct (sweep _ _ _ _ _ _ _) as [[st'|?]|] eqn:Hsweep; [|done..].
  intros [= <- <-]. pose proof (sweep_grows _ _ _ _ _ _ _ _ Hsweep) as [more Hmore].
  apply (sweep_sound _ _ _ _ _ _ _ _ _ Hsound) in Hsweep as [Htm _ _ _].
  assert (e ∈ exprs st') as He' by (rewrite Hmore, elem_of_app; by left).
  exists e. split_and!; try done. by eapply Htm.
Qed.

End DrivenInputs.

Lemma every_input_with_a_solved_driver_gets_its_PLA_witness :
  ∃ stk status' e,
    t_config (D := Reals.Rdefinitions.R) slider_crank (Some [(0, 1)%Z]) None
    = Some (Ok (stk, status'))
    ∧ e ∈ stk ∧ func e = PLA ∧ c1 e = (P_LABEL, 0%Z) ∧ target e = (P_LABEL, 1%Z)
    ∧ status' !! 1%Z = Some true.
Proof.
  destruct (slider_crank_run (D := Reals.Rdefinitions.R)) as (fb & fc & op & Hrun).
  destruct (every_input_with_a_solved_driver_gets_its_PLA _ slider_crank [(0, 1)%Z] None
              _ _ 0 1 ltac:(done) ltac:(by left) ltac:(reflexivity) Hrun)
    as (e & He).
  eexists _, _, e. split; [exact Hrun|exact He].
Defined.

(** ** The production of a P joint *)

Lemma places_friends_refl n st1 : places_friends n st1 st1.
Proof.
  exists []. rewrite app_nil_r. split_and!; try done; [apply stays_solved_refl|simpl; lia].
Qed.

Lemma places_friends_step n st1 s fb s' :
  places_friends n st1 s → pxy_friend n s fb = Ok s' → places_friends n st1 s'.
Proof.
  intros (more & He & Hf & Hs & Hl & Ha & Hn & Hk). unfold pxy_friend. intros Hrun.
  bind_inv Hrun. destruct a; injection Hrun as <-; [by exists more|].
  exists (more ++ [mkExpr PXY (P_LABEL, n) (L_LABEL, link_symbol s)
                     (L_LABEL, (link_symbol s + 1)%Z) (P_LABEL, fb)
                     unassigned unassigned false]).
  simpl. unfold add_pxy. rewrite He, <- app_assoc. split_and!; try done.
  - apply Forall_app. split; [done|]. by constructor.
  - eapply stays_solved_trans; [done|]. apply stays_solved_mark.
  - rewrite length_app. simpl. lia.
Qed.

Section FriendsOfP.
Context {D : Type} `{!CDouble D} `{!Libm D} {index_order : IndexOrder}.
Variables (vpoints : list (VPoint D)) (vlinks : gmap string (list Z)).

Lemma pxy_friends_stay n members s s' :
  for_each (pxy_friend n) members s = Ok s' → stays_solved (status s) (status s').
Proof.
  apply (for_each_ind (λ s0, stays_solved (status s) (status s0)));
    [apply stays_solved_refl|].
  intros s0 fb s1 _ Hs0 Hfb%pxy_friend_stays. by eapply stays_solved_trans.
Qed.

Lemma pxy_friends_solved n members s s' :
  for_each (pxy_friend n) members s = Ok s' →
  ∀ fb, fb ∈ members → status s' !! fb = Some true.
Proof.
  revert s. induction members as [|m members IH]; intros s; simpl;
    [by intros _ fb ?%elem_of_nil|].
  intros (s1 & H1 & H2)%bind_Ok fb [->|Hin]%elem_of_cons; [|by eapply IH].
  apply (pxy_friends_stay _ _ _ _ H2). unfold pxy_friend in H1. bind_inv H1.
  apply getitem_dict_Ok in Hbind. destruct a; injection H1 as <-; [done|].
  simpl. by rewrite lookup_insert_eq.
Qed.

Lemma pin_links_stay n (ls : list string) s s' :
  for_each (λ st' link,
      members ← getitem_dict vlinks link;
      for_each (pxy_friend n) (set_iter members) st') ls s = Ok s' →
  stays_solved (status s) (status s').
Proof.
  apply (for_each_ind (λ s0, stays_solved (status s) (status s0)));
    [apply stays_solved_refl|].
  intros s0 link s1 _ Hs0 Hlink. bind_inv Hlink. apply pxy_friends_stay in Hlink.
  by eapply stays_solved_trans.
Qed.

Lemma pin_links_solved n (ls : list string) s s' :
  for_each (λ st' link,
      members ← getitem_dict vlinks link;
      for_each (pxy_friend n) (set_iter members) st') ls s = Ok s' →
  ∀ link members fb,
    link ∈ ls → vlinks !! link = Some members → fb ∈ members →
    status s' !! fb = Some true.
Proof.
  revert s. induction ls as [|l ls IH]; intros s; simpl;
    [by intros _ link members fb ?%elem_of_nil|].
  intros (s1 & H1 & H2)%bind_Ok link members fb [->|Hin]%elem_of_cons Hm Hfb;
    [|by eapply IH].
  apply (pin_links_stay _ _ _ _ H2). bind_inv H1. apply getitem_dict_Ok in Hbind.
  rewrite Hm in Hbind. injection Hbind as <-.
  eapply pxy_friends_solved; [done|]. by apply member_set_iter.
Qed.

(** X26. The production of a P joint either skips, leaving everything
    but the skip counter as it was, or, for a joint whose slot is on the
    ground, whose pins are not and that has no offset, appends one PXY
    record from a solved friend [fa] to the joint, then only PXY records
    read from the joint itself. After it the joint and every joint of
    its pin links are solved, every record has taken two link variables,
    no angle variable is taken and the skip counter is zero. *)
Theorem visit_P_skips_or_places_the_joint_and_its_friends (st st' : Sweep)
    (vpoint : VPoint D) :
  visit_P vpoints vlinks st vpoint = Ok st' →
  st' = skip st
  ∨ (pin_grounded vpoint = false ∧ grounded vpoint = true ∧ has_offset vpoint = false
     ∧ ∃ fa more,
         status st !! fa = Some true
         ∧ exprs st'
           = exprs st
             ++ mkExpr PXY (P_LABEL, fa) (L_LABEL, link_symbol st)
                  (L_LABEL, (link_symbol st + 1)%Z) (P_LABEL, node st)
                  unassigned unassigned false
                :: more
         ∧ Forall (λ e, func e = PXY ∧ c1 e = (P_LABEL, node st)) more
         ∧ status st' !! node st = Some true
         ∧ (∀ link members fb,
              link ∈ drop 1 (links vpoint) → vlinks !! link = Some members →
              fb ∈ members → status st' !! fb = Some true)
         ∧ link_symbol st' = (link_symbol st + 2 * (1 + Z.of_nat (length more)))%Z
         ∧ angle_symbol st' = angle_symbol st ∧ node st' = node st
         ∧ skip_times st' = 0%Z).
Proof.
  unfold visit_P.
  destruct (pin_grounded vpoint), (grounded vpoint), (has_offset vpoint);
    simpl; try (intros [= <-]; by left).
  intros Hrun. bind_inv Hrun. destruct a as [|fa fi]; [injection Hrun as <-; by left|].
  assert (status st !! fa = Some true) as Hfa.
  { eapply _get_not_base_friend_solved; [done|]. left. }
  bind_inv Hrun. injection Hrun as <-. right. split_and!; try done.
  assert (places_friends (node st) (emit_pxy st fa (node st)) a)
    as (more & He & Hf & Hs & Hl & Ha & Hn & Hk).
  { revert Hbind0.
    apply (for_each_ind (places_friends (node st) (emit_pxy st fa (node st))));
      [apply places_friends_refl|].
    intros s link s' _ Hs Hlink. bind_inv Hlink. revert Hlink.
    apply (for_each_ind (places_friends (node st) (emit_pxy st fa (node st)))); [done|].
    intros s0 fb s1 _. apply places_friends_step. }
  exists fa, more. simpl in *. split_and!; try done.
  - rewrite He. unfold add_pxy. by rewrite <- app_assoc.
  - apply Hs. by rewrite lookup_insert_eq.
  - by eapply pin_links_solved.
  - lia.
Qed.

End FriendsOfP.

Lemma visit_P_skips_or_places_the_joint_and_its_friends_witness :
  let vpoints : list (VPoint Reals.Rdefinitions.R) :=
    [c_r_joint "ground, L1" (of_int 0) (of_int 0);
     c_slider_joint "ground, L1" VJoint.P (of_int 0) (of_int 10) (of_int 0);
     c_r_joint "L1" (of_int 20) (of_int 5)] in
  let vlinks : gmap string (list Z) :=
    {[ "ground" := [0%Z; 1%Z]; "L1" := [0%Z; 1%Z; 2%Z] ]} in
  let st := {| status := {[ 0%Z := true; 1%Z := false; 2%Z := false ]}; exprs := [];
               link_symbol := 0; angle_symbol := 0; node := 1; skip_times := 1 |} in
  let vpoint : VPoint Reals.Rdefinitions.R :=
    c_slider_joint "ground, L1" VJoint.P (of_int 0) (of_int 10) (of_int 0) in
  ∃ st', visit_P vpoints vlinks st vpoint = Ok st'
         ∧ length (exprs st') = 2%nat
         ∧ (st' = skip st
            ∨ (pin_grounded vpoint = false ∧ grounded vpoint = true
               ∧ has_offset vpoint = false
               ∧ ∃ fa more,
                   status st !! fa = Some true
                   ∧ exprs st'
                     = exprs st
                       ++ mkExpr PXY (P_LABEL, fa) (L_LABEL, link_symbol st)
                            (L_LABEL, (link_symbol st + 1)%Z) (P_LABEL, node st)
                            unassigned unassigned false
                          :: more
                   ∧ Forall (λ e, func e = PXY ∧ c1 e = (P_LABEL, node st)) more
                   ∧ status st' !! node st = Some true
                   ∧ (∀ link members fb,
                        link ∈ drop 1 (links vpoint) → vlinks !! link = Some members →
                        fb ∈ members → status st' !! fb = Some true)
                   ∧ link_symbol st'
                     = (link_symbol st + 2 * (1 + Z.of_nat (length more)))%Z
                   ∧ angle_symbol st' = angle_symbol st ∧ node st' = node st
                   ∧ skip_times st' = 0%Z)).
Proof.
  intros vpoints vlinks st vpoint.
  assert (∃ st', visit_P vpoints vlinks st vpoint = Ok st'
                 ∧ length (exprs st') = 2%nat) as (st' & Hrun & Hlen).
  { vm_compute. eexists. split; reflexivity. }
  exists st'. split; [exact Hrun|]. split; [exact Hlen|].
  exact (visit_P_skips_or_places_the_joint_and_its_friends _ _ _ _ _ Hrun).
Defined.
